(** * AnkiCompanion: the deck export pipeline

    A shallow embedding of [scripts/export_with_media.py] (and of the copy
    of its export logic in [windows_app/anki_companion.py]): the name
    sanitizer [slugify], the media fetcher [retrieve_media_from_anki], the
    content rewriter [process_media_in_text], the deck exporter
    [export_deck] and the selection logic of [main].

    Python [str] values are lists of Unicode code points, [bytes] are lists
    of [Byte.byte].  The filesystem and the AnkiConnect host are explicit
    state, threaded through a state-and-exception monad.  The filesystem
    is a tree of directories and regular files with POSIX paths and names
    encoded in UTF-8, without links, permissions or quota; what the scripts
    print is not modelled. *)

From Stdlib Require Import ZArith List Lia Bool.
From Stdlib.Strings Require Import Ascii String Byte.
From stdpp Require Import base option list gmap.
Import ListNotations.

Local Open Scope Z_scope.

(** ** Python strings *)

Abbreviation str := (list Z).
Abbreviation bytes := (list byte).

(** An ASCII literal as a Python string. *)
Definition py (s : string) : str :=
  map (fun a => Z.of_N (N_of_ascii a)) (list_ascii_of_string s).

Definition in_range (lo hi c : Z) : bool := (lo <=? c) && (c <=? hi).

(** [str.isspace] on one code point: the characters CPython treats as
    whitespace, which is also what [\s] matches in a [str] pattern and what
    [str.strip()] removes. *)
Definition isspace (c : Z) : bool :=
  in_range 9 13 c || in_range 28 32 c || (c =? 133) || (c =? 160)
  || (c =? 5760) || in_range 8192 8202 c || (c =? 8232) || (c =? 8233)
  || (c =? 8239) || (c =? 8287) || (c =? 12288).

Definition is_ascii (c : Z) : bool := in_range 0 127 c.
Definition is_digit (c : Z) : bool := in_range 48 57 c.
Definition is_upper (c : Z) : bool := in_range 65 90 c.
Definition is_lower (c : Z) : bool := in_range 97 122 c.

(** [\w] on an ASCII code point: a letter, a digit or the underscore. *)
Definition is_word (c : Z) : bool :=
  is_digit c || is_upper c || is_lower c || (c =? 95).

Definition hyphen : Z := 45.
Definition underscore : Z := 95.

(** [str.lower] on an ASCII code point. *)
Definition lower_ascii (c : Z) : Z := if is_upper c then c + 32 else c.

Fixpoint lstrip (s : str) : str :=
  match s with
  | c :: r => if isspace c then lstrip r else s
  | [] => []
  end.

Definition rstrip (s : str) : str := rev (lstrip (rev s)).

(** [s.strip()] *)
Definition strip (s : str) : str := rstrip (lstrip s).

Fixpoint starts_with (p s : str) : bool :=
  match p, s with
  | [], _ => true
  | a :: p', b :: s' => (a =? b) && starts_with p' s'
  | _ :: _, [] => false
  end.

(** [s.split(sep)] for a non-empty separator: the occurrences of [sep] are
    found from the left and do not overlap.  [cur] is the current segment,
    reversed; [skip] counts the characters of a separator still to pass. *)
Fixpoint split_from (sep s cur : str) (skip : nat) : list str :=
  match s with
  | [] => [rev cur]
  | c :: r =>
      match skip with
      | S k => split_from sep r cur k
      | O =>
          if starts_with sep s
          then rev cur :: split_from sep r [] (Nat.pred (length sep))
          else split_from sep r (c :: cur) O
      end
  end.

Definition split (sep s : str) : list str := split_from sep s [] O.

(** [sep.join(parts)] *)
Fixpoint join (sep : str) (parts : list str) : str :=
  match parts with
  | [] => []
  | [p] => p
  | p :: rest => p ++ sep ++ join sep rest
  end.

(** [s.replace(old, new)] for a non-empty [old]. *)
Fixpoint replace_from (old new s : str) (skip : nat) : str :=
  match s with
  | [] => []
  | c :: r =>
      match skip with
      | S k => replace_from old new r k
      | O =>
          if starts_with old s
          then new ++ replace_from old new r (Nat.pred (length old))
          else c :: replace_from old new r O
      end
  end.

Definition replace (old new s : str) : str := replace_from old new s O.

(** ** The parts of Python's library the scripts call

    Functions driven by Unicode or codec tables are taken as given. *)
Record pylib := PyLib {
  (** [unicodedata.normalize('NFKD', s)] *)
  normalize_NFKD : str -> str;
  (** [html.unescape(s)] *)
  html_unescape : str -> str;
  (** [s.lower()] on an arbitrary string *)
  str_lower : str -> str;
  (** [int(s)]; [None] is [ValueError] *)
  int_of_str : str -> option Z;
  (** [base64.b64decode(s)]; [None] is an exception *)
  b64decode : str -> option bytes
}.

(** ASCII text has no decomposition: NFKD leaves it as it is. *)
Definition nfkd_fixes_ascii (L : pylib) : Prop :=
  forall s, forallb is_ascii s = true -> normalize_NFKD L s = s.

(** ** Name sanitizer *)

(** [value.encode('ascii', 'ignore').decode('ascii')] *)
Definition ascii_ignore (s : str) : str := List.filter is_ascii s.

(** [re.sub(r'[^\w\s-]', '', value)] on an ASCII string *)
Definition strip_specials (s : str) : str :=
  List.filter (fun c => is_word c || isspace c || (c =? hyphen)) s.

Definition is_sep (c : Z) : bool := (c =? hyphen) || isspace c.

(** [re.sub(r'[-\s]+', '_', value)]: every maximal run of hyphens and
    whitespace becomes one underscore.  [in_run] tells that the previous
    character belonged to a run. *)
Fixpoint collapse_runs (in_run : bool) (s : str) : str :=
  match s with
  | [] => []
  | c :: r =>
      if is_sep c
      then (if in_run then collapse_runs true r
            else underscore :: collapse_runs true r)
      else c :: collapse_runs false r
  end.

Definition slugify (L : pylib) (value : str) : str :=
  let value := ascii_ignore (normalize_NFKD L value) in
  let value := map lower_ascii (strip (strip_specials value)) in
  collapse_runs false value.

(** ** Deck path derivation (the [parts] block of [export_deck]) *)

Definition hierarchy_sep : str := py "::".

(** The category directory [matiere] and the file stem [safe_filename]. *)
Definition csv_target (L : pylib) (deck_name : str) : str * str :=
  let parts := split hierarchy_sep deck_name in
  if (length parts =? 1)%nat
  then (py "divers", slugify L (hd [] parts))
  else (slugify L (hd [] parts),
        join (py "_") (map (slugify L) (tl parts))).

(** [f"{safe_filename}.csv"] *)
Definition csv_filename (L : pylib) (deck_name : str) : str :=
  snd (csv_target L deck_name) ++ py ".csv".

(** [slugify] of the last segment of the deck name *)
Definition media_subfolder_of (L : pylib) (deck_name : str) : str :=
  slugify L (List.last (split hierarchy_sep deck_name) []).

(** ** Scanning for image references

    [re.findall(image_pattern, source_text, re.IGNORECASE)]: the pattern is
    [src=], a quote character (single or double), a group made of one or
    more characters other than quotes followed by a dot and one of the
    extensions jpg, jpeg, png, gif, svg, webp, and a quote character. *)

Definition dquote : Z := 34.
Definition squote : Z := 39.
Definition is_quote (c : Z) : bool := (c =? dquote) || (c =? squote).

(** A literal pattern character [p] against a text character [c] under
    [re.IGNORECASE]: the two ASCII cases of a letter and the non-ASCII
    letters that fold to it (dotted and dotless i, long s, Kelvin sign). *)
Definition imatch (p c : Z) : bool :=
  (c =? p) || (is_lower p && (c =? p - 32))
  || ((p =? 105) && ((c =? 304) || (c =? 305)))
  || ((p =? 115) && (c =? 383))
  || ((p =? 107) && (c =? 8490)).

Fixpoint istarts_with (p s : str) : bool :=
  match p, s with
  | [], _ => true
  | a :: p', b :: s' => imatch a b && istarts_with p' s'
  | _ :: _, [] => false
  end.

Definition image_extensions : list str :=
  [py "jpg"; py "jpeg"; py "png"; py "gif"; py "svg"; py "webp"].

(** [name] ends with a dot and [ext], after at least one more character. *)
Definition has_extension (name ext : str) : bool :=
  istarts_with (rev (46 :: ext)) (rev name)
  && (S (length ext) <? length name)%nat.

Definition is_image_name (name : str) : bool :=
  existsb (has_extension name) image_extensions.

(** The longest prefix without a quote character, and the rest. *)
Fixpoint span_unquoted (s : str) : str * str :=
  match s with
  | [] => ([], [])
  | c :: r =>
      if is_quote c then ([], s)
      else let (a, b) := span_unquoted r in (c :: a, b)
  end.

(** A match of the pattern at the start of [s], as its first group.  The
    group holds no quote and is followed by one, so it is the whole run of
    unquoted characters after the opening quote. *)
Definition match_image_src (s : str) : option str :=
  if istarts_with (py "src=") s then
    match drop 4 s with
    | q :: rest =>
        if is_quote q then
          match span_unquoted rest with
          | (name, _ :: _) => if is_image_name name then Some name else None
          | (_, []) => None
          end
        else None
    | [] => None
    end
  else None.

(** [findall]: matches from the left, the scan resuming after each one. *)
Fixpoint findall_from (s : str) (skip : nat) : list str :=
  match s with
  | [] => []
  | _ :: r =>
      match skip with
      | S k => findall_from r k
      | O =>
          match match_image_src s with
          | Some name => name :: findall_from r (length name + 5)%nat
          | None => findall_from r O
          end
      end
  end.

Definition find_image_names (source_text : str) : list str :=
  findall_from source_text O.

(** The attribute [src=] with [x] between two quotes [q] *)
Definition src_attr (q : Z) (x : str) : str := py "src=" ++ q :: x ++ [q].

(** [f"../media/{media_subfolder}/{filename}"] *)
Definition new_relative_path (media_subfolder filename : str) : str :=
  py "../media/" ++ media_subfolder ++ py "/" ++ filename.

(** The two [replace] calls of one loop iteration. *)
Definition rewrite_one (media_subfolder : str) (modified_text filename : str)
  : str :=
  let new := new_relative_path media_subfolder filename in
  let modified_text :=
    replace (src_attr dquote filename) (src_attr dquote new) modified_text in
  replace (src_attr squote filename) (src_attr squote new) modified_text.

(** ** JSON values, as [json.load] returns them *)

Local Set Warnings "-register-all".

Inductive json :=
| JNull
| JBool (b : bool)
| JNum (n : Z)
| JStr (s : str)
| JArr (l : list json)
| JObj (kv : list (str * json)).

Inductive exn :=
| KeyError | IndexError | TypeError | AttributeError | ValueError | OSError
| UnicodeEncodeError | HostError.

Inductive result (A : Type) :=
| Ok (a : A)
| Raise (e : exn).
Arguments Ok {A} a.
Arguments Raise {A} e.

Definition str_eqb (a b : str) : bool := bool_decide (a = b).

(** Python truth value *)
Definition truthy (v : json) : bool :=
  match v with
  | JNull => false
  | JBool b => b
  | JNum n => negb (n =? 0)
  | JStr s => negb (str_eqb s [])
  | JArr l => match l with [] => false | _ => true end
  | JObj kv => match kv with [] => false | _ => true end
  end.

Fixpoint assoc (key : str) (kv : list (str * json)) : option json :=
  match kv with
  | [] => None
  | (k, v) :: r => if str_eqb k key then Some v else assoc key r
  end.

(** [v[key]] with a string key *)
Definition getitem (v : json) (key : str) : result json :=
  match v with
  | JObj kv =>
      match assoc key kv with Some x => Ok x | None => Raise KeyError end
  | _ => Raise TypeError
  end.

(** [v.values()] *)
Definition dict_values (v : json) : result (list json) :=
  match v with
  | JObj kv => Ok (map snd kv)
  | _ => Raise AttributeError
  end.

(** [for x in v] *)
Definition iterate (v : json) : result (list json) :=
  match v with
  | JArr l => Ok l
  | JObj kv => Ok (map (fun p => JStr (fst p)) kv)
  | JStr s => Ok (map (fun c => JStr [c]) s)
  | _ => Raise TypeError
  end.

Fixpoint all_strs (l : list json) : option (list str) :=
  match l with
  | [] => Some []
  | JStr s :: r =>
      match all_strs r with Some t => Some (s :: t) | None => None end
  | _ :: _ => None
  end.

(** [sep.join(v)] *)
Definition join_json (sep : str) (v : json) : result str :=
  match iterate v with
  | Ok l =>
      match all_strs l with
      | Some parts => Ok (join sep parts)
      | None => Raise TypeError
      end
  | Raise e => Raise e
  end.

(** [len(v)] *)
Definition py_len (v : json) : result Z :=
  match v with
  | JStr s => Ok (Z.of_nat (length s))
  | JArr l => Ok (Z.of_nat (length l))
  | JObj kv => Ok (Z.of_nat (length kv))
  | _ => Raise TypeError
  end.

(** [v[i]] for [0 <= i < len(v)] *)
Definition getitem_int (v : json) (i : Z) : result json :=
  match v with
  | JArr l =>
      match l !! Z.to_nat i with Some x => Ok x | None => Raise IndexError end
  | JStr s =>
      match s !! Z.to_nat i with
      | Some c => Ok (JStr [c])
      | None => Raise IndexError
      end
  | JObj _ => Raise KeyError
  | _ => Raise TypeError
  end.

(** ** The world: the filesystem and the AnkiConnect host *)

(** The calls [request(action, **params)] makes. *)
Inductive action :=
| DeckNames
| FindNotes (query : str)
| NotesInfo (notes : json)
| RetrieveMediaFile (filename : str).

(** What [request] gets back, as the callers tell it apart.  [Failed]: the
    transport fails, the body is no JSON object or carries an error ([None]
    is returned), or the body is the empty object: a value that tests
    false.  [NoResult]: an object without error and without the key
    [result], which tests true.  [Result r]: an object without error whose
    [result] is [r]. *)
Inductive reply :=
| Failed
| NoResult
| Result (r : json).

Inductive node :=
| Dir
| File (data : bytes).

(** The text file open for writing: where it is, whether the byte-order
    mark is still to be written, and the bytes written so far. *)
Record handle := Handle {
  h_key : list str;
  h_first : bool;
  h_data : bytes
}.

(** A directory tree without links or permissions.  A node is named by its
    components from the root, innermost first; the root is the empty list
    and always a directory.  The host answers from the calls made so far. *)
Record world := World {
  w_tree : gmap (list str) node;
  w_cwd : list str;
  w_anki : list action -> action -> reply;
  w_calls : list action;
  w_csv : option handle
}.

Definition set_tree (w : world) (t : gmap (list str) node) : world :=
  World t (w_cwd w) (w_anki w) (w_calls w) (w_csv w).

Definition set_csv (w : world) (h : option handle) : world :=
  World (w_tree w) (w_cwd w) (w_anki w) (w_calls w) h.

Definition add_call (w : world) (a : action) : world :=
  World (w_tree w) (w_cwd w) (w_anki w) (a :: w_calls w) (w_csv w).

(** Number of calls made to the host. *)
Definition network_calls (w : world) : nat := length (w_calls w).

(** ** State and exceptions *)

Definition M (A : Type) : Type := world -> result A * world.

Definition ret {A} (a : A) : M A := fun w => (Ok a, w).

Definition raise {A} (e : exn) : M A := fun w => (Raise e, w).

Definition lift {A} (r : result A) : M A := fun w => (r, w).

Definition bind {A B} (m : M A) (k : A -> M B) : M B :=
  fun w =>
    match m w with
    | (Ok a, w') => k a w'
    | (Raise e, w') => (Raise e, w')
    end.

(** [try: body / except Exception: handler] *)
Definition try_except {A} (body : M A) (handler : exn -> M A) : M A :=
  fun w =>
    match body w with
    | (Ok a, w') => (Ok a, w')
    | (Raise e, w') => handler e w'
    end.

Notation "'let!' x := c 'in' k" := (bind c (fun x => k))
  (at level 10, x name, c at level 100, k at level 200).
Notation "'do!' c 'in' k" := (bind c (fun _ => k))
  (at level 10, c at level 100, k at level 200).

Fixpoint mapM {A B} (f : A -> M B) (l : list A) : M (list B) :=
  match l with
  | [] => ret []
  | a :: r => let! b := f a in let! bs := mapM f r in ret (b :: bs)
  end.

(** ** Filesystem operations (POSIX paths) *)

Definition slash : str := py "/".

(** [os.path.join(a, b)] *)
Definition path_join (a b : str) : str :=
  if starts_with slash b then b
  else if str_eqb a [] || starts_with slash (rev a) then a ++ b
  else a ++ slash ++ b.

Definition lookup_node (t : gmap (list str) node) (k : list str)
  : option node :=
  match k with
  | [] => Some Dir
  | _ => t !! k
  end.

Definition is_dir_key (t : gmap (list str) node) (k : list str) : bool :=
  match lookup_node t k with
  | Some Dir => true
  | _ => false
  end.

(** Empty components and [.] stay in place. *)
Definition is_here (c : str) : bool := str_eqb c [] || str_eqb c (py ".").
Definition is_up (c : str) : bool := str_eqb c (py "..").

(** A name is turned into bytes before the system is asked, in UTF-8 with
    the surrogates U+DC80 to U+DCFF standing for single bytes.  A name
    holding a character that cannot be encoded is refused with
    [UnicodeEncodeError], one holding NUL with [ValueError];
    [os.path.exists] and [os.path.isdir] then answer false.  Names are told
    apart as strings. *)
Definition fs_encodable (c : Z) : bool :=
  in_range 56448 56575 c
  || (0 <=? c) && (c <? 1114112) && negb (in_range 55296 57343 c).

Definition refused (p : str) : bool :=
  existsb (fun c => (c =? 0) || negb (fs_encodable c)) p.

(** What a refused name raises. *)
Definition name_error (p : str) : exn :=
  if forallb fs_encodable p then ValueError else UnicodeEncodeError.

(** Follow [comps] from the directory [cur]; every component is taken
    from a directory, and none is refused. *)
Fixpoint walk (t : gmap (list str) node) (cur : list str)
    (comps : list str) : option (list str) :=
  match comps with
  | [] => Some cur
  | c :: rest =>
      if refused c then None
      else if is_dir_key t cur then
        if is_here c then walk t cur rest
        else if is_up c then walk t (tl cur) rest
        else walk t (c :: cur) rest
      else None
  end.

Definition path_start (cwd : list str) (p : str) : list str :=
  if starts_with slash p then [] else cwd.

Definition resolve (t : gmap (list str) node) (cwd : list str) (p : str)
  : option (list str) :=
  if str_eqb p [] then None
  else walk t (path_start cwd p) (split slash p).

(** Create the missing directories along [comps], from [cur]; the
    exception is that of the first component that cannot be made: that of
    its name when it is refused, [OSError] when it is to be taken from a
    regular file, or is one at the end.  Directories created before the
    failure stay. *)
Fixpoint mkdirs (t : gmap (list str) node) (cur : list str)
    (comps : list str) : gmap (list str) node * option exn :=
  match comps with
  | [] => (t, if is_dir_key t cur then None else Some OSError)
  | c :: rest =>
      if refused c then (t, Some (name_error c))
      else if is_dir_key t cur then
        if is_here c then mkdirs t cur rest
        else if is_up c then mkdirs t (tl cur) rest
        else
          match lookup_node t (c :: cur) with
          | None => mkdirs (<[c :: cur := Dir]> t) (c :: cur) rest
          | Some _ => mkdirs t (c :: cur) rest
          end
      else (t, Some OSError)
  end.

(** [os.makedirs(p, exist_ok=True)] *)
Definition os_makedirs (p : str) : M unit :=
  fun w =>
    if str_eqb p [] then (Raise OSError, w)
    else
      match mkdirs (w_tree w) (path_start (w_cwd w) p) (split slash p) with
      | (t, None) => (Ok tt, set_tree w t)
      | (t, Some e) => (Raise e, set_tree w t)
      end.

Definition exists_in (t : gmap (list str) node) (cwd : list str) (p : str)
  : bool :=
  match resolve t cwd p with
  | Some k => bool_decide (is_Some (lookup_node t k))
  | None => false
  end.

Definition isdir_in (t : gmap (list str) node) (cwd : list str) (p : str)
  : bool :=
  match resolve t cwd p with
  | Some k => is_dir_key t k
  | None => false
  end.

(** [os.path.exists(p)] *)
Definition os_path_exists (p : str) : M bool :=
  fun w => (Ok (exists_in (w_tree w) (w_cwd w) p), w).

(** [os.path.isdir(p)] *)
Definition os_path_isdir (p : str) : M bool :=
  fun w => (Ok (isdir_in (w_tree w) (w_cwd w) p), w).

(** Where [open(p, 'w')] creates or truncates a file: the path resolves
    (so it is not refused), ends with a name, and is not a directory. *)
Definition writable_at (t : gmap (list str) node) (cwd : list str) (p : str)
  : option (list str) :=
  match resolve t cwd p with
  | Some k =>
      let name := List.last (split slash p) [] in
      if is_here name || is_up name then None
      else match lookup_node t k with
           | Some Dir => None
           | _ => Some k
           end
  | None => None
  end.

(** What [open(p, 'w')] raises when it cannot open [p]. *)
Definition open_error (p : str) : exn :=
  if refused p then name_error p else OSError.

(** [with open(p, 'wb') as f: f.write(data)] *)
Definition write_binary (p : str) (data : bytes) : M unit :=
  fun w =>
    match writable_at (w_tree w) (w_cwd w) p with
    | Some k => (Ok tt, set_tree w (<[k := File data]> (w_tree w)))
    | None => (Raise (open_error p), w)
    end.

(** ** UTF-8 with signature, and the CSV writer *)

Definition byte_of (z : Z) : byte :=
  match Byte.of_N (Z.to_N z) with
  | Some b => b
  | None => x00
  end.

Definition cont (z : Z) : byte := byte_of (Z.lor 128 (Z.land z 63)).

(** One code point in UTF-8; surrogates cannot be encoded. *)
Definition utf8_char (c : Z) : option bytes :=
  if c <? 0 then None
  else if c <? 128 then Some [byte_of c]
  else if c <? 2048 then
    Some [byte_of (Z.lor 192 (Z.shiftr c 6)); cont c]
  else if in_range 55296 57343 c then None
  else if c <? 65536 then
    Some [byte_of (Z.lor 224 (Z.shiftr c 12)); cont (Z.shiftr c 6); cont c]
  else if c <? 1114112 then
    Some [byte_of (Z.lor 240 (Z.shiftr c 18)); cont (Z.shiftr c 12);
          cont (Z.shiftr c 6); cont c]
  else None.

Fixpoint utf8_encode (s : str) : option bytes :=
  match s with
  | [] => Some []
  | c :: r =>
      match utf8_char c, utf8_encode r with
      | Some b, Some bs => Some (b ++ bs)
      | _, _ => None
      end
  end.

Definition BOM_UTF8 : bytes := [xef; xbb; xbf].

Definition semicolon : Z := 59.

(** [QUOTE_MINIMAL]: a field is quoted when it holds the delimiter, the
    quote character or a character of the line terminator. *)
Definition needs_quoting (field : str) : bool :=
  existsb (fun c => (c =? semicolon) || (c =? dquote) || (c =? 13)
                    || (c =? 10)) field.

Definition csv_field (field : str) : str :=
  if needs_quoting field
  then dquote :: flat_map (fun c => if c =? dquote then [dquote; dquote]
                                    else [c]) field ++ [dquote]
  else field.

(** The line [writer.writerow(row)] writes; a row of one empty field is
    written as a pair of quotes. *)
Definition csv_line (row : list str) : str :=
  (match row with
   | [[]] => [dquote; dquote]
   | _ => join [semicolon] (map csv_field row)
   end) ++ [13; 10].

(** [open(p, 'w', encoding='utf-8-sig', newline='')]: the file is created
    or truncated at once. *)
Definition open_text (p : str) : M unit :=
  fun w =>
    match writable_at (w_tree w) (w_cwd w) p with
    | Some k =>
        (Ok tt, set_csv (set_tree w (<[k := File []]> (w_tree w)))
                        (Some (Handle k true [])))
    | None => (Raise (open_error p), w)
    end.

(** Leaving the [with] block: what was written reaches the file. *)
Definition close_text (w : world) : world :=
  match w_csv w with
  | Some h => set_csv (set_tree w (<[h_key h := File (h_data h)]> (w_tree w)))
                      None
  | None => w
  end.

(** [with open(p, 'w', ...) as f: body] *)
Definition with_open_text {A} (p : str) (body : M A) : M A :=
  fun w =>
    match open_text p w with
    | (Ok _, w1) => let (r, w2) := body w1 in (r, close_text w2)
    | (Raise e, w1) => (Raise e, w1)
    end.

(** [f.write(text)]: the first write is preceded by the byte-order mark. *)
Definition write_text (text : str) : M unit :=
  fun w =>
    match w_csv w with
    | Some h =>
        match utf8_encode text with
        | Some b =>
            let b := if h_first h then BOM_UTF8 ++ b else b in
            (Ok tt, set_csv w (Some (Handle (h_key h) false (h_data h ++ b))))
        | None =>
            (Raise UnicodeEncodeError,
             set_csv w (Some (Handle (h_key h) false (h_data h))))
        end
    | None => (Raise ValueError, w)
    end.

(** [writer.writerow(row)] *)
Definition writerow (row : list str) : M unit := write_text (csv_line row).

(** ** The export script *)

(** [request(action, **params)]: one exchange with the host, whose
    outcome is what the callers can tell apart ([reply]).  Printing is not
    modelled. *)
Definition request (a : action) : M reply :=
  fun w => (Ok (w_anki w (w_calls w) a), add_call w a).

(** [base64.b64decode(response["result"])] *)
Definition decode_media (L : pylib) (r : json) : result bytes :=
  match r with
  | JStr s =>
      match b64decode L s with
      | Some data => Ok data
      | None => Raise ValueError
      end
  | _ => Raise TypeError
  end.

Definition retrieve_media_from_anki (L : pylib)
    (filename media_subfolder media_base_dir : str) : M bool :=
  let target_dir := path_join media_base_dir media_subfolder in
  do! os_makedirs target_dir in
  let target_path := path_join target_dir filename in
  let! cached := os_path_exists target_path in
  if cached then ret true
  else
    let! response := request (RetrieveMediaFile filename) in
    match response with
    | Failed => ret false
    | NoResult => ret false
    | Result r =>
        if negb (truthy r) then ret false
        else
          try_except
            (let! file_data := lift (decode_media L r) in
             do! write_binary target_path file_data in
             ret true)
            (fun _ => ret false)
    end.

(** The loop of [process_media_in_text] over the matches. *)
Fixpoint process_matches (L : pylib) (matches : list str)
    (modified_text media_subfolder media_base_dir : str) : M str :=
  match matches with
  | [] => ret modified_text
  | filename :: rest =>
      do! retrieve_media_from_anki L filename media_subfolder media_base_dir in
      process_matches L rest
        (rewrite_one media_subfolder modified_text filename)
        media_subfolder media_base_dir
  end.

Definition process_media_in_text (L : pylib)
    (source_text media_subfolder media_base_dir : str) : M str :=
  process_matches L (find_image_names source_text) source_text
    media_subfolder media_base_dir.

(** One field of a note: its value unescaped and rewritten.  A value that
    is not a string makes [html.unescape] or [re.findall] raise. *)
Definition field_column (L : pylib) (media_subfolder media_base_dir : str)
    (field_obj : json) : M str :=
  let! raw_value := lift (getitem field_obj (py "value")) in
  match raw_value with
  | JStr raw =>
      process_media_in_text L (html_unescape L raw)
        media_subfolder media_base_dir
  | _ => raise TypeError
  end.

(** The body of the loop over the notes, up to [writer.writerow]. *)
Definition note_row (L : pylib) (media_subfolder media_base_dir : str)
    (note : json) : M (list str) :=
  let! fields := lift (getitem note (py "fields")) in
  let! field_objs := lift (dict_values fields) in
  let! fields_values :=
    mapM (field_column L media_subfolder media_base_dir) field_objs in
  let! tag_list := lift (getitem note (py "tags")) in
  let! tags := lift (join_json (py " ") tag_list) in
  ret (fields_values ++ [tags]).

Fixpoint write_notes (L : pylib) (media_subfolder media_base_dir : str)
    (notes : list json) (count : Z) : M Z :=
  match notes with
  | [] => ret count
  | note :: rest =>
      let! row := note_row L media_subfolder media_base_dir note in
      do! writerow row in
      write_notes L media_subfolder media_base_dir rest (count + 1)
  end.

(** [response["result"]] on a response that tested true. *)
Definition result_field (response : reply) : result json :=
  match response with
  | Result r => Ok r
  | _ => Raise KeyError
  end.

(** The part of [export_deck] after the two lookups: the path, the
    directory, and the guarded writing of the file.  [notes_info] is read
    once the file is open. *)
Definition export_notes (L : pylib)
    (deck_name output_base_dir media_base_dir : str) (notes_info : reply)
  : M Z :=
  let media_subfolder := media_subfolder_of L deck_name in
  let matiere := fst (csv_target L deck_name) in
  let matiere_dir := path_join output_base_dir matiere in
  do! os_makedirs matiere_dir in
  let csv_path := path_join matiere_dir (csv_filename L deck_name) in
  try_except
    (with_open_text csv_path
       (let! notes := lift (result_field notes_info) in
        let! note_list := lift (iterate notes) in
        write_notes L media_subfolder media_base_dir note_list 0))
    (fun _ => ret 0).

Definition deck_query (deck_name : str) : str :=
  dquote :: py "deck:" ++ deck_name ++ [dquote].

Definition export_deck (L : pylib)
    (deck_name output_base_dir media_base_dir : str) : M Z :=
  let! find_notes := request (FindNotes (deck_query deck_name)) in
  match find_notes with
  | Failed => ret 0
  | NoResult => raise KeyError
  | Result note_ids =>
      let! notes_info := request (NotesInfo note_ids) in
      match notes_info with
      | Failed => ret 0
      | _ => export_notes L deck_name output_base_dir media_base_dir notes_info
      end
  end.

(** ** The collection driver: [main] *)

(** How a run ends: [sys.exit(code)], or the end of [main] with the total. *)
Inductive outcome :=
| Exit (code : Z)
| Finished (total : Z).

(** The selection step of [main]. *)
Inductive selected :=
| Decks (target_decks : json)
| Invalid.

Fixpoint parse_indices (L : pylib) (pieces : list str) : option (list Z) :=
  match pieces with
  | [] => Some []
  | x :: r =>
      match int_of_str L (strip x), parse_indices L r with
      | Some i, Some l => Some (i :: l)
      | _, _ => None
      end
  end.

(** [[all_decks[i] for i in indices if 0 <= i < len(all_decks)]] *)
Fixpoint pick (all_decks : json) (indices : list Z) : result (list json) :=
  match indices with
  | [] => Ok []
  | i :: r =>
      if 0 <=? i then
        match py_len all_decks with
        | Ok n =>
            if i <? n then
              match getitem_int all_decks i, pick all_decks r with
              | Ok d, Ok l => Ok (d :: l)
              | Raise e, _ => Raise e
              | _, Raise e => Raise e
              end
            else pick all_decks r
        | Raise e => Raise e
        end
      else pick all_decks r
  end.

(** [argv2] is [sys.argv[2]] when it is given.  An exception other than
    [ValueError] and [IndexError] is not caught. *)
Definition select_decks (L : pylib) (all_decks : json) (argv2 : option str)
  : result selected :=
  match argv2 with
  | Some arg =>
      let selection := str_lower L (strip arg) in
      if str_eqb selection (py "all") then Ok (Decks all_decks)
      else
        match parse_indices L (split (py ",") selection) with
        | Some indices =>
            match pick all_decks indices with
            | Ok l => Ok (Decks (JArr l))
            | Raise IndexError => Ok Invalid
            | Raise ValueError => Ok Invalid
            | Raise e => Raise e
            end
        | None => Ok Invalid
        end
  | None => Ok (Decks all_decks)
  end.

(** [export_deck(deck, ...)] on whatever the list holds: [deck_name.split]
    exists on strings only. *)
Definition export_deck_of (L : pylib) (deck : json)
    (output_dir media_dir : str) : M Z :=
  match deck with
  | JStr deck_name => export_deck L deck_name output_dir media_dir
  | _ => raise AttributeError
  end.

(** [for deck in target_decks: total += export_deck(...)] *)
Fixpoint export_all (L : pylib) (decks : list json)
    (output_dir media_dir : str) (total : Z) : M Z :=
  match decks with
  | [] => ret total
  | deck :: rest =>
      let! n := export_deck_of L deck output_dir media_dir in
      export_all L rest output_dir media_dir (total + n)
  end.

(** [main] with [sys.argv = argv]; a raised exception is one nothing
    catches. *)
Definition main (L : pylib) (argv : list str) : M outcome :=
  match argv with
  | _ :: target_dir :: rest =>
      let! is_dir := os_path_isdir target_dir in
      if negb is_dir then ret (Exit 1)
      else
        let output_dir := path_join target_dir (py "decks") in
        let media_dir := path_join target_dir (py "media") in
        do! os_makedirs output_dir in
        do! os_makedirs media_dir in
        let! response := request DeckNames in
        match response with
        | Failed => ret (Exit 1)
        | NoResult => raise KeyError
        | Result all_decks =>
            if negb (truthy all_decks) then ret (Exit 0)
            else
              let! sel := lift (select_decks L all_decks (head rest)) in
              match sel with
              | Invalid => ret (Exit 1)
              | Decks target_decks =>
                  if negb (truthy target_decks) then ret (Exit 0)
                  else
                    let! decks := lift (iterate target_decks) in
                    let! total := export_all L decks output_dir media_dir 0 in
                    ret (Finished total)
              end
        end
  | _ => ret (Exit 1)
  end.

(** ** The export logic of the desktop application

    [windows_app/anki_companion.py] repeats the export functions of the
    script over a transport that raises instead of returning [None]. *)
Module Gui.

(** [anki_request(action, **params)]: it raises where [request] returns
    [None], and looks [result] up itself. *)
Definition anki_request (a : action) : M json :=
  let! response := request a in
  match response with
  | Failed => raise HostError
  | NoResult => raise KeyError
  | Result r => ret r
  end.

Definition retrieve_media_from_anki (L : pylib)
    (filename media_subfolder media_base_dir : str) : M bool :=
  let target_dir := path_join media_base_dir media_subfolder in
  do! os_makedirs target_dir in
  let target_path := path_join target_dir filename in
  let! cached := os_path_exists target_path in
  if cached then ret true
  else
    let! fetched :=
      try_except
        (let! result := anki_request (RetrieveMediaFile filename) in
         ret (Some result))
        (fun _ => ret None) in
    match fetched with
    | None => ret false
    | Some result =>
        if negb (truthy result) then ret false
        else
          try_except
            (let! file_data := lift (decode_media L result) in
             do! write_binary target_path file_data in
             ret true)
            (fun _ => ret false)
    end.

Fixpoint process_matches (L : pylib) (matches : list str)
    (modified_text media_subfolder media_base_dir : str) : M str :=
  match matches with
  | [] => ret modified_text
  | filename :: rest =>
      do! retrieve_media_from_anki L filename media_subfolder media_base_dir in
      process_matches L rest
        (rewrite_one media_subfolder modified_text filename)
        media_subfolder media_base_dir
  end.

Definition process_media_in_text (L : pylib)
    (source_text media_subfolder media_base_dir : str) : M str :=
  process_matches L (find_image_names source_text) source_text
    media_subfolder media_base_dir.

Definition field_column (L : pylib) (media_subfolder media_base_dir : str)
    (field_obj : json) : M str :=
  let! raw_value := lift (getitem field_obj (py "value")) in
  match raw_value with
  | JStr raw =>
      process_media_in_text L (html_unescape L raw)
        media_subfolder media_base_dir
  | _ => raise TypeError
  end.

Definition note_row (L : pylib) (media_subfolder media_base_dir : str)
    (note : json) : M (list str) :=
  let! fields := lift (getitem note (py "fields")) in
  let! field_objs := lift (dict_values fields) in
  let! fields_values :=
    mapM (field_column L media_subfolder media_base_dir) field_objs in
  let! tag_list := lift (getitem note (py "tags")) in
  let! tags := lift (join_json (py " ") tag_list) in
  ret (fields_values ++ [tags]).

Fixpoint write_notes (L : pylib) (media_subfolder media_base_dir : str)
    (notes : list json) (count : Z) : M Z :=
  match notes with
  | [] => ret count
  | note :: rest =>
      let! row := note_row L media_subfolder media_base_dir note in
      do! writerow row in
      write_notes L media_subfolder media_base_dir rest (count + 1)
  end.

Definition export_notes (L : pylib)
    (deck_name output_base_dir media_base_dir : str) (notes : json) : M Z :=
  let media_subfolder := media_subfolder_of L deck_name in
  let matiere := fst (csv_target L deck_name) in
  let matiere_dir := path_join output_base_dir matiere in
  do! os_makedirs matiere_dir in
  let csv_path := path_join matiere_dir (csv_filename L deck_name) in
  try_except
    (with_open_text csv_path
       (let! note_list := lift (iterate notes) in
        write_notes L media_subfolder media_base_dir note_list 0))
    (fun _ => ret 0).

Definition export_deck (L : pylib)
    (deck_name output_base_dir media_base_dir : str) : M Z :=
  let! found :=
    try_except
      (let! note_ids := anki_request (FindNotes (deck_query deck_name)) in
       ret (Some note_ids))
      (fun _ => ret None) in
  match found with
  | None => ret 0
  | Some note_ids =>
      if negb (truthy note_ids) then ret 0
      else
        let! info :=
          try_except
            (let! notes_info := anki_request (NotesInfo note_ids) in
             ret (Some notes_info))
            (fun _ => ret None) in
        match info with
        | None => ret 0
        | Some notes =>
            export_notes L deck_name output_base_dir media_base_dir notes
        end
  end.

End Gui.

(** ** What an export should leave: rows and file contents *)

(** A field value as the file holds it: unescaped, its image references
    rewritten. *)
Definition rewritten (L : pylib) (media_subfolder raw : str) : str :=
  let clean := html_unescape L raw in
  fold_left (rewrite_one media_subfolder) (find_image_names clean) clean.

Definition and_then {A B} (r : result A) (k : A -> result B) : result B :=
  match r with
  | Ok a => k a
  | Raise e => Raise e
  end.

Definition column_of (L : pylib) (media_subfolder : str) (field_obj : json)
  : result str :=
  and_then (getitem field_obj (py "value")) (fun raw_value =>
  match raw_value with
  | JStr raw => Ok (rewritten L media_subfolder raw)
  | _ => Raise TypeError
  end).

Fixpoint columns_of (L : pylib) (media_subfolder : str) (objs : list json)
  : result (list str) :=
  match objs with
  | [] => Ok []
  | o :: r =>
      and_then (column_of L media_subfolder o) (fun c =>
      and_then (columns_of L media_subfolder r) (fun cs => Ok (c :: cs)))
  end.

(** The row of a note, or the exception its record causes. *)
Definition row_of (L : pylib) (media_subfolder : str) (note : json)
  : result (list str) :=
  and_then (getitem note (py "fields")) (fun fields =>
  and_then (dict_values fields) (fun field_objs =>
  and_then (columns_of L media_subfolder field_objs) (fun fields_values =>
  and_then (getitem note (py "tags")) (fun tag_list =>
  and_then (join_json (py " ") tag_list) (fun tags =>
  Ok (fields_values ++ [tags])))))).

(** The bytes that writing [rows] adds to a file; [first] tells that they
    are the first written to it. *)
Fixpoint appended (first : bool) (rows : list (list str)) : option bytes :=
  match rows with
  | [] => Some []
  | row :: rest =>
      match utf8_encode (csv_line row), appended false rest with
      | Some b, Some bs =>
          Some ((if first then BOM_UTF8 else []) ++ b ++ bs)
      | _, _ => None
      end
  end.

(** The bytes of a file that holds [rows]. *)
Definition csv_bytes (rows : list (list str)) : option bytes :=
  appended true rows.

(** The contents of the regular file at a path. *)
Definition read_file (t : gmap (list str) node) (cwd : list str) (p : str)
  : option bytes :=
  match resolve t cwd p with
  | Some k =>
      match lookup_node t k with
      | Some (File data) => Some data
      | _ => None
      end
  | None => None
  end.

(** The category directory and the CSV file of a deck. *)
Definition category_dir (L : pylib) (deck_name output_base_dir : str) : str :=
  path_join output_base_dir (fst (csv_target L deck_name)).

Definition csv_path_of (L : pylib) (deck_name output_base_dir : str) : str :=
  path_join (category_dir L deck_name output_base_dir)
    (csv_filename L deck_name).

(** The world once the file at [k] is open for writing. *)
Definition opened (w : world) (k : list str) : world :=
  set_csv (set_tree w (<[k := File []]> (w_tree w))) (Some (Handle k true [])).

(** The world after the two lookups of [export_deck]. *)
Definition looked_up (w : world) (deck_name : str) (note_ids : json) : world :=
  add_call (add_call w (FindNotes (deck_query deck_name)))
    (NotesInfo note_ids).

(** The host's answers to the two lookups of [export_deck], when both
    carry a result. *)
Definition notes_of (w : world) (deck_name : str) : option (json * json) :=
  match w_anki w (w_calls w) (FindNotes (deck_query deck_name)) with
  | Result note_ids =>
      match w_anki w (FindNotes (deck_query deck_name) :: w_calls w)
              (NotesInfo note_ids) with
      | Result notes => Some (note_ids, notes)
      | _ => None
      end
  | _ => None
  end.

(** ** A sample library

    Stand-ins for the library functions, exact on ASCII text (and on the
    two accented letters below); they instantiate the statements at
    concrete inputs. *)

Definition sample_nfkd (s : str) : str :=
  flat_map (fun c => if c =? 233 then [101; 769]
                     else if c =? 224 then [97; 768] else [c]) s.

Fixpoint digits_value (s : str) (acc : Z) : option Z :=
  match s with
  | [] => Some acc
  | c :: r =>
      if is_digit c then digits_value r (10 * acc + (c - 48)) else None
  end.

Definition sample_int (s : str) : option Z :=
  match s with
  | [] => None
  | c :: r =>
      if c =? 45 then
        match r with
        | [] => None
        | _ => option_map Z.opp (digits_value r 0)
        end
      else digits_value s 0
  end.

Definition sextet (c : Z) : option Z :=
  if is_upper c then Some (c - 65)
  else if is_lower c then Some (c - 71)
  else if is_digit c then Some (c + 4)
  else if c =? 43 then Some 62
  else if c =? 47 then Some 63
  else None.

Fixpoint sextets (s : str) : list Z :=
  match s with
  | [] => []
  | c :: r =>
      match sextet c with
      | Some v => v :: sextets r
      | None => sextets r
      end
  end.

Fixpoint octets (l : list Z) : option bytes :=
  match l with
  | a :: b :: c :: d :: r =>
      match octets r with
      | Some t =>
          Some (byte_of (Z.lor (Z.shiftl a 2) (Z.shiftr b 4))
                :: byte_of (Z.lor (Z.shiftl (Z.land b 15) 4) (Z.shiftr c 2))
                :: byte_of (Z.lor (Z.shiftl (Z.land c 3) 6) d) :: t)
      | None => None
      end
  | [a; b; c] =>
      Some [byte_of (Z.lor (Z.shiftl a 2) (Z.shiftr b 4));
            byte_of (Z.lor (Z.shiftl (Z.land b 15) 4) (Z.shiftr c 2))]
  | [a; b] => Some [byte_of (Z.lor (Z.shiftl a 2) (Z.shiftr b 4))]
  | [_] => None
  | [] => Some []
  end.

Definition sample_b64decode (s : str) : option bytes := octets (sextets s).

Definition sample_lib : pylib :=
  PyLib sample_nfkd (fun s => s) (map lower_ascii) sample_int
        sample_b64decode.

(** Sample hosts and worlds. *)

(** A host that cannot be reached, or holds no media. *)
Definition offline : list action -> action -> reply := fun _ _ => Failed.

(** A host with one deck of two notes and the media file the first note
    refers to. *)
Definition sample_notes : json :=
  JArr [JObj [(py "fields",
               JObj [(py "Front",
                      JObj [(py "value", JStr (py "<img src='a.png'>"))]);
                     (py "Back", JObj [(py "value", JStr (py "A;B"))])]);
              (py "tags", JArr [JStr (py "chapter1"); JStr (py "review")])];
        JObj [(py "fields",
               JObj [(py "Front", JObj [(py "value", JStr (py "Q2"))])]);
              (py "tags", JArr [])]].

Definition sample_host : list action -> action -> reply :=
  fun _ a =>
    match a with
    | DeckNames => Result (JArr [JStr (py "Math::Algebra")])
    | FindNotes _ => Result (JArr [JNum 1; JNum 2])
    | NotesInfo _ => Result sample_notes
    | RetrieveMediaFile _ => Result (JStr (py "aGVsbG8="))
    end.

(** An empty disk, the working directory at its root. *)
Definition fresh (anki : list action -> action -> reply) : world :=
  World ∅ [] anki [] None.

(** A note record with one field, and hosts that answer every lookup with
    the same notes and hold no media. *)
Definition note_record (front : str) (tags : list str) : json :=
  JObj [(py "fields", JObj [(py "Front", JObj [(py "value", JStr front)])]);
        (py "tags", JArr (map JStr tags))].

Definition host_with (notes : json) : list action -> action -> reply :=
  fun _ a =>
    match a with
    | DeckNames => Result (JArr [JStr (py "Math::Algebra");
                                  JStr (py "Vocabulary")])
    | FindNotes _ => Result (JArr [JNum 1])
    | NotesInfo _ => Result notes
    | RetrieveMediaFile _ => Failed
    end.

(** Three notes, the second without its fields. *)
Definition flawed_notes : json :=
  JArr [note_record (py "Q1") [py "t"];
        JObj [(py "tags", JArr [])];
        note_record (py "Q3") []].

(** A disk where a regular file stands where the category directory of the
    deck Math::Algebra should go. *)
Definition blocked (anki : list action -> action -> reply) : world :=
  World (<[[py "math"; py "decks"] := File []]> (<[[py "decks"] := Dir]> ∅))
        [] anki [] None.

(** A disk where a regular file stands where the media directory of the
    deck Math::Algebra should go. *)
Definition media_blocked (anki : list action -> action -> reply) : world :=
  World (<[[py "algebra"; py "media"] := File []]> (<[[py "media"] := Dir]> ∅))
        [] anki [] None.


(** ** Vocabulary of the statements *)

(** The characters a sanitized name is made of. *)
Definition is_slug (c : Z) : bool := is_digit c || is_lower c || (c =? 95).

(** [sep] occurs in [s]. *)
Definition occurs (sep s : str) : Prop := exists a b, s = a ++ sep ++ b.

(** The deck at a zero-based index, when there is one. *)
Definition deck_at (decks : list json) (i : Z) : option json :=
  if 0 <=? i then decks !! Z.to_nat i else None.

(** Every directory of [t] is a directory of [t']. *)
Definition dirs_kept (t t' : gmap (list str) node) : Prop :=
  forall k, is_dir_key t k = true -> is_dir_key t' k = true.

(** The world after the call [RetrieveMediaFile filename] was made. *)
Definition asked (w : world) (filename : str) : world :=
  add_call w (RetrieveMediaFile filename).

(** What a fetch leaves alone: the working directory, the host, the open
    CSV file; and it keeps the directories. *)
Definition frame (w w' : world) : Prop :=
  w_cwd w' = w_cwd w /\ w_anki w' = w_anki w /\ w_csv w' = w_csv w
  /\ dirs_kept (w_tree w) (w_tree w').

(** The outcome [r] is the expected one, unless a media directory could
    not be created. *)
Definition agrees {A} (r expected : result A) : Prop :=
  r = expected \/ r = Raise OSError \/ r = Raise ValueError
  \/ r = Raise UnicodeEncodeError.

(** [p] occurs in [s], as a test. *)
Fixpoint contains (p s : str) : bool :=
  starts_with p s
  || match s with
     | [] => false
     | _ :: r => contains p r
     end.

Definition is_media_call (a : action) : bool :=
  match a with
  | RetrieveMediaFile _ => true
  | _ => false
  end.

(** From [w] to [w'] every node of the tree was kept as it was, and the
    host was asked for media files only. *)
Definition media_only (w w' : world) : Prop :=
  (forall k n, w_tree w !! k = Some n -> w_tree w' !! k = Some n)
  /\ exists new,
       w_calls w' = new ++ w_calls w /\ forallb is_media_call new = true.

(** A name that is one path component: not empty, not [.] or [..],
    without slash, and not refused. *)
Definition plain_name (c : str) : bool :=
  negb (is_here c) && negb (is_up c) && negb (refused c)
  && forallb (fun x => negb (x =? 47)) c.

(** The host fails one of the two lookups of [export_deck]. *)
Definition lookup_fails (w : world) (deck_name : str) : Prop :=
  let q := FindNotes (deck_query deck_name) in
  w_anki w (w_calls w) q = Failed
  \/ exists note_ids,
       w_anki w (w_calls w) q = Result note_ids
       /\ w_anki w (q :: w_calls w) (NotesInfo note_ids) = Failed.

(** The world [v] comes after [w]: same working directory, and the
    directories of [w] are still there. *)
Definition later (w v : world) : Prop :=
  w_cwd v = w_cwd w /\ dirs_kept (w_tree w) (w_tree v).

(** * Properties *)

(** ** Characters *)

Ltac to_prop :=
  repeat
    (rewrite ?orb_true_iff, ?andb_true_iff, ?negb_true_iff, ?Z.leb_le,
       ?Z.ltb_lt, ?Z.eqb_eq in *).

Ltac char_case :=
  unfold is_sep, is_word, isspace, is_ascii, is_digit, is_upper, is_lower,
    in_range, hyphen, underscore in *;
  first [ apply not_true_iff_false; intro | idtac ];
  to_prop; lia.

Lemma slug_ascii c : is_slug c = true -> is_ascii c = true.
Proof. unfold is_slug. intros H. char_case. Qed.

Lemma slug_word c : is_slug c = true -> is_word c = true.
Proof. unfold is_slug. intros H. char_case. Qed.

Lemma slug_not_space c : is_slug c = true -> isspace c = false.
Proof. unfold is_slug. intros H. char_case. Qed.

Lemma slug_not_sep c : is_slug c = true -> is_sep c = false.
Proof. unfold is_slug. intros H. char_case. Qed.

Lemma slug_lower c : is_slug c = true -> lower_ascii c = c.
Proof.
  unfold is_slug, lower_ascii. intros H.
  replace (is_upper c) with false; [reflexivity|].
  symmetry. char_case.
Qed.

(** A character that survives the first substitution, once lowered, is a
    separator or a character of the result. *)
Lemma kept_lowered c :
  is_ascii c = true ->
  (is_word c || isspace c || (c =? hyphen)) = true ->
  is_sep (lower_ascii c) || is_slug (lower_ascii c) = true.
Proof.
  intros Ha Hk. unfold lower_ascii.
  destruct (is_upper c) eqn:Hu.
  - unfold is_slug. char_case.
  - unfold is_slug.
    assert (Hn : ~ is_upper c = true) by (rewrite Hu; discriminate).
    clear Hu. char_case.
Qed.

(** ** The sanitizer's result *)

Lemma lstrip_incl s c : In c (lstrip s) -> In c s.
Proof.
  induction s as [|d r IH]; simpl; [tauto|].
  destruct (isspace d); simpl; tauto.
Qed.

Lemma strip_incl s c : In c (strip s) -> In c s.
Proof.
  unfold strip, rstrip. intros H.
  apply in_rev, lstrip_incl, in_rev in H.
  now apply lstrip_incl.
Qed.

Lemma lstrip_fixed s :
  (forall c, In c s -> isspace c = false) -> lstrip s = s.
Proof.
  destruct s as [|d r]; simpl; [reflexivity|].
  intros H. now rewrite (H d (or_introl eq_refl)).
Qed.

Lemma strip_fixed s :
  (forall c, In c s -> isspace c = false) -> strip s = s.
Proof.
  intros H. unfold strip, rstrip.
  rewrite (lstrip_fixed s H), lstrip_fixed, rev_involutive; [reflexivity|].
  intros c Hc. apply H. now apply in_rev.
Qed.

Lemma filter_fixed (f : Z -> bool) s :
  (forall c, In c s -> f c = true) -> List.filter f s = s.
Proof.
  induction s as [|d r IH]; simpl; intros H; [reflexivity|].
  rewrite (H d (or_introl eq_refl)), IH; [reflexivity|].
  intros c Hc. apply H. now right.
Qed.

Lemma map_fixed (f : Z -> Z) s :
  (forall c, In c s -> f c = c) -> map f s = s.
Proof.
  induction s as [|d r IH]; simpl; intros H; [reflexivity|].
  rewrite (H d (or_introl eq_refl)), IH; [reflexivity|].
  intros c Hc. apply H. now right.
Qed.

Lemma collapse_runs_fixed b s :
  (forall c, In c s -> is_sep c = false) -> collapse_runs b s = s.
Proof.
  revert b. induction s as [|d r IH]; simpl; intros b H; [reflexivity|].
  rewrite (H d (or_introl eq_refl)), IH; [reflexivity|].
  intros c Hc. apply H. now right.
Qed.

Lemma collapse_runs_slug b s :
  (forall c, In c s -> is_sep c || is_slug c = true) ->
  forall c, In c (collapse_runs b s) -> is_slug c = true.
Proof.
  revert b. induction s as [|d r IH]; simpl; intros b H c Hc; [tauto|].
  assert (Hr : forall c, In c r -> is_sep c || is_slug c = true)
    by (intros; apply H; now right).
  pose proof (H d (or_introl eq_refl)) as Hd.
  destruct (is_sep d) eqn:Hs.
  - destruct b; simpl in Hc.
    + now apply (IH true Hr).
    + destruct Hc as [<-|Hc]; [reflexivity | now apply (IH true Hr)].
  - simpl in Hd, Hc. destruct Hc as [<-|Hc]; [assumption|].
    now apply (IH false Hr).
Qed.

(** Whatever the input, the result holds lowercase ASCII letters, digits
    and underscores only. *)
Lemma slugify_chars L x c : In c (slugify L x) -> is_slug c = true.
Proof.
  unfold slugify. apply collapse_runs_slug.
  intros d Hd. apply in_map_iff in Hd as (e & <- & He).
  apply strip_incl in He. unfold strip_specials, ascii_ignore in He.
  apply filter_In in He as [He Hk]. apply filter_In in He as [_ Ha].
  now apply kept_lowered.
Qed.

(** A string of such characters is its own sanitized form. *)
Lemma slugify_fixed L s :
  nfkd_fixes_ascii L ->
  (forall c, In c s -> is_slug c = true) -> slugify L s = s.
Proof.
  intros HL H. unfold slugify.
  rewrite HL.
  2:{ apply forallb_forall. intros c Hc. apply slug_ascii. auto. }
  unfold ascii_ignore, strip_specials.
  rewrite (filter_fixed is_ascii).
  2:{ intros c Hc. apply slug_ascii. auto. }
  rewrite filter_fixed.
  2:{ intros c Hc. rewrite (slug_word c); auto. }
  rewrite strip_fixed.
  2:{ intros c Hc. apply slug_not_space. auto. }
  rewrite map_fixed.
  2:{ intros c Hc. apply slug_lower. auto. }
  apply collapse_runs_fixed. intros c Hc. apply slug_not_sep. auto.
Qed.

(** C6. The name sanitizer is a total function on strings (it cannot fail
    and its result depends on its argument only), and it is idempotent:
    sanitizing a sanitized name changes nothing.  This holds for every
    input, the empty string and strings of punctuation included; the only
    fact used about the Unicode tables is that NFKD leaves ASCII text as it
    is. *)
Theorem slugify_idempotent (L : pylib) (x : str) :
  nfkd_fixes_ascii L ->
  slugify L (slugify L x) = slugify L x.
Proof.
  intros HL. apply slugify_fixed; [assumption|].
  intros c Hc. now apply slugify_chars in Hc.
Qed.

Lemma sample_nfkd_ascii : nfkd_fixes_ascii sample_lib.
Proof.
  intros s. simpl. unfold sample_nfkd.
  induction s as [|c r IH]; simpl; [reflexivity|].
  intros H. apply andb_true_iff in H as [Hc Hr].
  rewrite (IH Hr).
  assert ((c =? 233) = false) as -> by char_case.
  assert ((c =? 224) = false) as -> by char_case.
  reflexivity.
Qed.

(** [slugify_idempotent] at an accented, punctuated name. *)
Lemma slugify_idempotent_witness :
  slugify sample_lib (slugify sample_lib (233 :: py "te -- N/A !"))
  = slugify sample_lib (233 :: py "te -- N/A !").
Proof. apply (slugify_idempotent sample_lib), sample_nfkd_ascii. Defined.

(** ** Splitting and joining *)

Lemma starts_with_app p s : starts_with p s = true -> exists t, s = p ++ t.
Proof.
  revert s. induction p as [|a p IH]; intros s H; simpl in *.
  - now exists s.
  - destruct s as [|b s]; [discriminate|].
    apply andb_true_iff in H as [Hab H]. apply Z.eqb_eq in Hab as ->.
    destruct (IH _ H) as [t ->]. now exists t.
Qed.

Lemma starts_with_prefix p t : starts_with p (p ++ t) = true.
Proof.
  induction p as [|a p IH]; simpl; [reflexivity|].
  now rewrite Z.eqb_refl, IH.
Qed.

Lemma split_from_cons sep s cur k :
  exists p rest, split_from sep s cur k = p :: rest.
Proof.
  revert cur k. induction s as [|c r IH]; intros cur k; simpl.
  - eauto.
  - destruct k; [|apply IH].
    destruct (starts_with sep (c :: r)); [eauto | apply IH].
Qed.

Lemma join_cons sep p ps :
  ps <> [] -> join sep (p :: ps) = p ++ sep ++ join sep ps.
Proof. destruct ps; [congruence | reflexivity]. Qed.

(** Joining the segments with the separator gives the string back. *)
Lemma join_split_from sep s cur k :
  sep <> [] ->
  join sep (split_from sep s cur k) = rev cur ++ drop k s.
Proof.
  intros Hsep. revert cur k.
  induction s as [|c r IH]; intros cur k.
  - simpl. now rewrite drop_nil, app_nil_r.
  - simpl. destruct k as [|k]; [|apply IH].
    destruct (starts_with sep (c :: r)) eqn:Hst.
    + destruct (starts_with_app _ _ Hst) as [t Ht].
      destruct sep as [|a sep']; [congruence|].
      simpl in Ht. injection Ht as -> ->.
      destruct (split_from_cons (a :: sep') (sep' ++ t) [] (length sep'))
        as (p & rest & Hp).
      change (Nat.pred (length (a :: sep'))) with (length sep').
      rewrite join_cons by (rewrite Hp; discriminate).
      rewrite IH. simpl rev. rewrite drop_app_length. reflexivity.
    + rewrite IH. simpl. rewrite <- app_assoc. reflexivity.
Qed.

Lemma join_split sep s : sep <> [] -> join sep (split sep s) = s.
Proof. intros H. unfold split. now rewrite join_split_from. Qed.

Lemma split_from_absent sep s cur :
  ~ occurs sep s -> split_from sep s cur O = [rev cur ++ s].
Proof.
  revert cur. induction s as [|c r IH]; intros cur H; simpl.
  - now rewrite app_nil_r.
  - destruct (starts_with sep (c :: r)) eqn:Hst.
    + destruct (starts_with_app _ _ Hst) as [t Ht].
      exfalso. apply H. exists [], t. exact Ht.
    + rewrite IH; [simpl; now rewrite <- app_assoc|].
      intros (a & b & ->). apply H. now exists (c :: a), b.
Qed.

Lemma split_from_present sep a b cur :
  sep <> [] ->
  exists p q rest, split_from sep (a ++ sep ++ b) cur O = p :: q :: rest.
Proof.
  intros Hsep. revert cur. induction a as [|c a IH]; intros cur.
  - destruct sep as [|c sep']; [congruence|].
    simpl app. cbn [split_from].
    change (c :: sep' ++ b) with ((c :: sep') ++ b).
    rewrite starts_with_prefix.
    destruct (split_from_cons (c :: sep') (sep' ++ b) []
                (Nat.pred (length (c :: sep')))) as (q & rest & ->).
    eauto.
  - simpl app. cbn [split_from].
    destruct (starts_with sep (c :: a ++ sep ++ b)).
    + destruct (split_from_cons sep (a ++ sep ++ b) []
                  (Nat.pred (length sep))) as (q & rest & ->).
      eauto.
    + apply IH.
Qed.

(** ** Deck path derivation *)

Lemma slugify_ascii L s :
  nfkd_fixes_ascii L -> forallb is_ascii s = true ->
  slugify L s
  = collapse_runs false (map lower_ascii (strip (strip_specials s))).
Proof.
  intros HL Hs. unfold slugify. rewrite (HL s Hs).
  unfold ascii_ignore. rewrite filter_fixed; [reflexivity|].
  now apply forallb_forall.
Qed.

(** C1, as the code has it.  A deck name without the hierarchy separator
    goes to the fixed category directory "divers" and to the file named by
    its sanitized full name; a name with separators goes to the category
    named by its sanitized first segment and to the file named by the
    sanitized remaining segments joined by underscores.  The segments are
    those of the name: joined by the separator they give it back.  So
    "Math::Algebra::Linear" yields "math" and "algebra_linear.csv", and
    "Vocabulary" yields "divers" and "vocabulary.csv". *)
Theorem deck_path_derivation (L : pylib) (deck_name : str) :
  nfkd_fixes_ascii L ->
  (~ occurs hierarchy_sep deck_name ->
   csv_target L deck_name = (py "divers", slugify L deck_name)
   /\ csv_filename L deck_name = slugify L deck_name ++ py ".csv")
  /\ (occurs hierarchy_sep deck_name ->
      exists first rest,
        rest <> []
        /\ split hierarchy_sep deck_name = first :: rest
        /\ join hierarchy_sep (first :: rest) = deck_name
        /\ csv_target L deck_name
           = (slugify L first, join (py "_") (map (slugify L) rest))
        /\ csv_filename L deck_name
           = join (py "_") (map (slugify L) rest) ++ py ".csv")
  /\ (csv_target L (py "Math::Algebra::Linear") = (py "math", py "algebra_linear")
      /\ csv_filename L (py "Math::Algebra::Linear") = py "algebra_linear.csv")
  /\ (csv_target L (py "Vocabulary") = (py "divers", py "vocabulary")
      /\ csv_filename L (py "Vocabulary") = py "vocabulary.csv").
Proof.
  intros HL.
  assert (Hsep : hierarchy_sep <> []) by discriminate.
  split; [|split; [|split]].
  - intros Habs. unfold csv_filename, csv_target, split.
    rewrite (split_from_absent _ _ [] Habs). simpl. auto.
  - intros (a & b & Hocc).
    destruct (split_from_present hierarchy_sep a b [] Hsep)
      as (p & q & rest & Hsplit).
    rewrite <- Hocc in Hsplit. fold (split hierarchy_sep deck_name) in Hsplit.
    exists p, (q :: rest). split; [discriminate|]. split; [assumption|].
    split; [rewrite <- Hsplit; now apply join_split|].
    unfold csv_filename, csv_target. rewrite Hsplit. simpl. auto.
  - assert (E : csv_target L (py "Math::Algebra::Linear")
                = (py "math", py "algebra_linear")).
    { unfold csv_target.
      replace (split hierarchy_sep (py "Math::Algebra::Linear"))
        with [py "Math"; py "Algebra"; py "Linear"] by reflexivity.
      cbn [length Nat.eqb hd tl map].
      rewrite !(slugify_ascii L) by (assumption || reflexivity).
      reflexivity. }
    unfold csv_filename. rewrite E. split; reflexivity.
  - assert (E : csv_target L (py "Vocabulary") = (py "divers", py "vocabulary")).
    { unfold csv_target.
      replace (split hierarchy_sep (py "Vocabulary"))
        with [py "Vocabulary"] by reflexivity.
      cbn [length Nat.eqb hd tl map].
      rewrite !(slugify_ascii L) by (assumption || reflexivity).
      reflexivity. }
    unfold csv_filename. rewrite E. split; reflexivity.
Qed.

(** [deck_path_derivation] at the deck "Langues::Anglais::Verbes". *)
Lemma deck_path_derivation_witness :
  exists first rest,
    rest <> []
    /\ split hierarchy_sep (py "Langues::Anglais::Verbes") = first :: rest
    /\ join hierarchy_sep (first :: rest) = py "Langues::Anglais::Verbes"
    /\ csv_target sample_lib (py "Langues::Anglais::Verbes")
       = (slugify sample_lib first,
          join (py "_") (map (slugify sample_lib) rest))
    /\ csv_filename sample_lib (py "Langues::Anglais::Verbes")
       = join (py "_") (map (slugify sample_lib) rest) ++ py ".csv".
Proof.
  apply (proj1 (proj2 (deck_path_derivation sample_lib
                         (py "Langues::Anglais::Verbes") sample_nfkd_ascii))).
  exists (py "Langues"), (py "Anglais::Verbes"). reflexivity.
Defined.

(** The category of a deck without hierarchy is not "uncategorized". *)
Lemma deck_category_counterexample :
  ~ occurs hierarchy_sep (py "Vocabulary")
  /\ csv_target sample_lib (py "Vocabulary") = (py "divers", py "vocabulary")
  /\ py "divers" <> py "uncategorized".
Proof.
  split; [|split; [reflexivity | discriminate]].
  intros (a & b & H).
  assert (Hs : split hierarchy_sep (py "Vocabulary") = [py "Vocabulary"])
    by reflexivity.
  destruct (split_from_present hierarchy_sep a b []) as (p & q & r & E);
    [discriminate|].
  rewrite <- H in E. unfold split in Hs. rewrite Hs in E. discriminate.
Qed.

(** ** Deck selection *)

Lemma pick_in_range decks indices :
  pick (JArr decks) indices = Ok (omap (deck_at decks) indices).
Proof.
  induction indices as [|i r IH]; [reflexivity|].
  change (omap (deck_at decks) (i :: r))
    with (match deck_at decks i with
          | Some d => d :: omap (deck_at decks) r
          | None => omap (deck_at decks) r
          end).
  cbn [pick]. unfold deck_at at 1.
  destruct (0 <=? i) eqn:H0; [|now rewrite IH].
  apply Z.leb_le in H0. cbn [py_len getitem_int].
  destruct (i <? Z.of_nat (length decks)) eqn:Hlt.
  - apply Z.ltb_lt in Hlt.
    destruct (lookup_lt_is_Some_2 decks (Z.to_nat i)) as [d Hd]; [lia|].
    rewrite Hd, IH. reflexivity.
  - apply Z.ltb_ge in Hlt.
    rewrite (lookup_ge_None_2 decks (Z.to_nat i)) by lia.
    now rewrite IH.
Qed.

(** C7. With the enumerated deck list [decks]: no selection argument, or
    one that reads "all" once stripped and lowered, selects every deck in
    order; a comma-separated list of integers selects the decks at those
    zero-based indices that are in range, in the order the indices are
    given, and the indices out of range (negative ones included) are
    dropped without any error. *)
Theorem selection_filtering (L : pylib) (decks : list json) :
  select_decks L (JArr decks) None = Ok (Decks (JArr decks))
  /\ (forall arg,
        str_lower L (strip arg) = py "all" ->
        select_decks L (JArr decks) (Some arg) = Ok (Decks (JArr decks)))
  /\ (forall arg indices,
        str_lower L (strip arg) <> py "all" ->
        parse_indices L (split (py ",") (str_lower L (strip arg)))
        = Some indices ->
        select_decks L (JArr decks) (Some arg)
        = Ok (Decks (JArr (omap (deck_at decks) indices)))).
Proof.
  split; [reflexivity|]. split.
  - intros arg H. unfold select_decks. rewrite H. reflexivity.
  - intros arg indices Hne Hp. unfold select_decks, str_eqb.
    rewrite bool_decide_eq_false_2 by assumption.
    rewrite Hp, pick_in_range. reflexivity.
Qed.

(** [selection_filtering] with five decks and the selection "1,3,9":
    exactly the decks at indices 1 and 3 are selected. *)
Lemma selection_filtering_witness :
  select_decks sample_lib
    (JArr [JStr (py "A"); JStr (py "B"); JStr (py "C"); JStr (py "D");
           JStr (py "E")])
    (Some (py "1,3,9"))
  = Ok (Decks (JArr [JStr (py "B"); JStr (py "D")])).
Proof.
  apply (proj2 (proj2 (selection_filtering sample_lib
           [JStr (py "A"); JStr (py "B"); JStr (py "C"); JStr (py "D");
            JStr (py "E")])) (py "1,3,9") [1; 3; 9]).
  - discriminate.
  - reflexivity.
Defined.

(** ** The filesystem *)

Lemma dirs_kept_refl t : dirs_kept t t.
Proof. intros k H. exact H. Qed.

Lemma dirs_kept_trans t1 t2 t3 :
  dirs_kept t1 t2 -> dirs_kept t2 t3 -> dirs_kept t1 t3.
Proof. intros H1 H2 k H. apply H2, H1, H. Qed.

Lemma lookup_node_insert_eq t k n :
  k <> [] -> lookup_node (<[k := n]> t) k = Some n.
Proof.
  intros H. destruct k; [congruence|]. simpl. apply lookup_insert_eq.
Qed.

Lemma lookup_node_insert_ne t k k' n :
  k <> k' -> lookup_node (<[k := n]> t) k' = lookup_node t k'.
Proof.
  intros H. destruct k'; [reflexivity|]. simpl. now apply lookup_insert_ne.
Qed.

Lemma insert_dirs_kept t k n :
  is_dir_key t k = false -> dirs_kept t (<[k := n]> t).
Proof.
  intros Hk k' H. unfold is_dir_key in *.
  rewrite lookup_node_insert_ne; [assumption|].
  intros ->. rewrite Hk in H. discriminate.
Qed.

Lemma walk_dirs_kept t t' cur comps k :
  dirs_kept t t' -> walk t cur comps = Some k -> walk t' cur comps = Some k.
Proof.
  intros Hk. revert cur. induction comps as [|c rest IH]; intros cur; simpl.
  - auto.
  - destruct (refused c); [discriminate|].
    destruct (is_dir_key t cur) eqn:Hd; [|discriminate].
    rewrite (Hk _ Hd).
    destruct (is_here c); [apply IH|]. destruct (is_up c); apply IH.
Qed.

Lemma walk_start_dir t cur comps k :
  walk t cur comps = Some k -> is_dir_key t k = true ->
  is_dir_key t cur = true.
Proof.
  destruct comps as [|c rest]; simpl.
  - intros [= ->]. auto.
  - destruct (refused c); [discriminate|].
    destruct (is_dir_key t cur); [auto | discriminate].
Qed.

Lemma mkdirs_cons t cur c rest :
  mkdirs t cur (c :: rest)
  = if refused c then (t, Some (name_error c))
    else if is_dir_key t cur then
      if is_here c then mkdirs t cur rest
      else if is_up c then mkdirs t (tl cur) rest
      else match lookup_node t (c :: cur) with
           | None => mkdirs (<[c :: cur := Dir]> t) (c :: cur) rest
           | Some _ => mkdirs t (c :: cur) rest
           end
    else (t, Some OSError).
Proof. reflexivity. Qed.

Lemma mkdirs_extends comps t cur k n :
  t !! k = Some n -> (mkdirs t cur comps).1 !! k = Some n.
Proof.
  revert t cur. induction comps as [|c rest IH]; intros t cur H;
    [exact H | rewrite mkdirs_cons].
  destruct (refused c); [exact H|].
  destruct (is_dir_key t cur); [|exact H].
  destruct (is_here c); [now apply IH|].
  destruct (is_up c); [now apply IH|].
  destruct (lookup_node t (c :: cur)) as [x|] eqn:Hl; [now apply IH|].
  apply IH. rewrite lookup_insert_ne; [assumption|].
  intros <-. simpl in Hl. congruence.
Qed.

Lemma mkdirs_new comps t cur k n :
  (mkdirs t cur comps).1 !! k = Some n -> t !! k = Some n \/ n = Dir.
Proof.
  revert t cur. induction comps as [|c rest IH]; intros t cur;
    [simpl; auto | rewrite mkdirs_cons].
  destruct (refused c); [auto|].
  destruct (is_dir_key t cur); [|auto].
  destruct (is_here c); [apply IH|].
  destruct (is_up c); [apply IH|].
  destruct (lookup_node t (c :: cur)) as [x|] eqn:Hl; [apply IH|].
  intros H. apply IH in H as [H| ->]; [|auto].
  destruct (decide (c :: cur = k)) as [<-|Hne].
  - rewrite lookup_insert_eq in H. injection H as <-. auto.
  - rewrite lookup_insert_ne in H by assumption. auto.
Qed.

Lemma mkdirs_dirs_kept comps t cur : dirs_kept t (mkdirs t cur comps).1.
Proof.
  intros k. unfold is_dir_key. destruct k as [|c k]; [auto|]. simpl.
  destruct (t !! (c :: k)) as [[|d]|] eqn:H; try discriminate.
  intros _. now rewrite (mkdirs_extends comps t cur _ _ H).
Qed.

Lemma mkdirs_raises comps t cur e :
  (mkdirs t cur comps).2 = Some e ->
  e = OSError \/ e = ValueError \/ e = UnicodeEncodeError.
Proof.
  revert t cur. induction comps as [|c rest IH]; intros t cur;
    [simpl | rewrite mkdirs_cons].
  - destruct (is_dir_key t cur); [discriminate | intros [= <-]; auto].
  - destruct (refused c);
      [intros [= <-]; unfold name_error; destruct (forallb _ _); auto|].
    destruct (is_dir_key t cur); [|intros [= <-]; auto].
    destruct (is_here c); [apply IH|].
    destruct (is_up c); [apply IH|].
    destruct (lookup_node t (c :: cur)); apply IH.
Qed.

(** After a successful creation the path leads to a directory. *)
Lemma mkdirs_walk comps t cur t' :
  mkdirs t cur comps = (t', None) ->
  exists k, walk t' cur comps = Some k /\ is_dir_key t' k = true.
Proof.
  revert t cur. induction comps as [|c rest IH]; intros t cur;
    [simpl | rewrite mkdirs_cons; cbn [walk]].
  - destruct (is_dir_key t cur) eqn:Hd; [|discriminate].
    intros [= <-]. eauto.
  - destruct (refused c); [discriminate|].
    destruct (is_dir_key t cur) eqn:Hd; [|discriminate].
    intros H.
    assert (Hd' : is_dir_key t' cur = true).
    { revert H.
      destruct (is_here c); [|destruct (is_up c);
        [|destruct (lookup_node t (c :: cur)) as [x|] eqn:Hl]]; intros H.
      - pose proof (mkdirs_dirs_kept rest t cur) as K.
        rewrite H in K. now apply K.
      - pose proof (mkdirs_dirs_kept rest t (tl cur)) as K.
        rewrite H in K. now apply K.
      - pose proof (mkdirs_dirs_kept rest t (c :: cur)) as K.
        rewrite H in K. now apply K.
      - pose proof (mkdirs_dirs_kept rest (<[c :: cur := Dir]> t) (c :: cur))
          as K.
        rewrite H in K. apply K. apply insert_dirs_kept; [|assumption].
        unfold is_dir_key. now rewrite Hl. }
    rewrite Hd'.
    destruct (is_here c); [now apply IH in H|].
    destruct (is_up c); [now apply IH in H|].
    destruct (lookup_node t (c :: cur)) as [x|]; now apply IH in H.
Qed.

(** After a failed creation the path does not lead to a directory. *)
Lemma mkdirs_failed comps t cur t' e :
  mkdirs t cur comps = (t', Some e) ->
  match walk t' cur comps with
  | Some k => is_dir_key t' k = false
  | None => True
  end.
Proof.
  revert t cur. induction comps as [|c rest IH]; intros t cur;
    [simpl | rewrite mkdirs_cons; cbn [walk]].
  - destruct (is_dir_key t cur) eqn:Hd; [discriminate|].
    now intros [= <- _].
  - destruct (refused c); [auto|].
    destruct (is_dir_key t cur) eqn:Hd;
      [|intros [= <- _]; now rewrite Hd].
    intros H. destruct (is_dir_key t' cur); [|exact I].
    destruct (is_here c); [now apply IH in H|].
    destruct (is_up c); [now apply IH in H|].
    destruct (lookup_node t (c :: cur)) as [x|]; now apply IH in H.
Qed.

(** Creating a directory that exists changes nothing. *)
Lemma mkdirs_done comps t cur k :
  walk t cur comps = Some k -> is_dir_key t k = true ->
  mkdirs t cur comps = (t, None).
Proof.
  revert cur. induction comps as [|c rest IH]; intros cur;
    [simpl | rewrite mkdirs_cons; cbn [walk]].
  - intros [= ->] ->. reflexivity.
  - destruct (refused c); [discriminate|].
    destruct (is_dir_key t cur) eqn:Hd; [|discriminate].
    destruct (is_here c); [apply IH|].
    destruct (is_up c); [apply IH|].
    intros Hw Hk. pose proof (walk_start_dir _ _ _ _ Hw Hk) as Hc.
    unfold is_dir_key in Hc.
    destruct (lookup_node t (c :: cur)) as [[|d]|]; try discriminate.
    now apply IH.
Qed.

Lemma set_tree_same w : set_tree w (w_tree w) = w.
Proof. now destruct w. Qed.

Lemma os_makedirs_tree p w r w' :
  os_makedirs p w = (r, w') ->
  w' = set_tree w (w_tree w')
  /\ dirs_kept (w_tree w) (w_tree w')
  /\ (forall k n, w_tree w !! k = Some n -> w_tree w' !! k = Some n)
  /\ (forall k n, w_tree w' !! k = Some n -> w_tree w !! k = Some n \/ n = Dir)
  /\ (r = Ok tt \/ r = Raise OSError \/ r = Raise ValueError
      \/ r = Raise UnicodeEncodeError).
Proof.
  unfold os_makedirs. destruct (str_eqb p []).
  - intros [= <- <-]. rewrite set_tree_same.
    repeat split; auto using dirs_kept_refl.
  - pose proof (mkdirs_dirs_kept (split slash p) (w_tree w)
                  (path_start (w_cwd w) p)) as K.
    pose proof (mkdirs_extends (split slash p) (w_tree w)
                  (path_start (w_cwd w) p)) as E.
    pose proof (mkdirs_new (split slash p) (w_tree w)
                  (path_start (w_cwd w) p)) as N.
    pose proof (mkdirs_raises (split slash p) (w_tree w)
                  (path_start (w_cwd w) p)) as R.
    destruct (mkdirs _ _ _) as [t [e|]]; intros [= <- <-]; simpl in *;
      repeat split; auto.
    destruct (R e eq_refl) as [-> | [-> | ->]]; auto.
Qed.

Lemma os_makedirs_isdir p w w' :
  os_makedirs p w = (Ok tt, w') ->
  isdir_in (w_tree w') (w_cwd w') p = true.
Proof.
  unfold os_makedirs, isdir_in, resolve.
  destruct (str_eqb p []); [discriminate|].
  destruct (mkdirs _ _ _) as [t [e|]] eqn:Hm; intros [= <-]; simpl.
  apply mkdirs_walk in Hm as (k & -> & Hk). exact Hk.
Qed.

(** When [os.makedirs] raises, the directory is not there afterwards. *)
Lemma os_makedirs_raised p w e w' :
  os_makedirs p w = (Raise e, w') ->
  isdir_in (w_tree w') (w_cwd w') p = false.
Proof.
  unfold os_makedirs, isdir_in, resolve.
  destruct (str_eqb p []); [reflexivity|].
  destruct (mkdirs _ _ _) as [t [e'|]] eqn:Hm; intros [= <- <-]; simpl.
  apply mkdirs_failed in Hm. now destruct (walk _ _ _).
Qed.

(** [os.makedirs] on an existing directory succeeds and changes nothing. *)
Lemma os_makedirs_exists p w :
  isdir_in (w_tree w) (w_cwd w) p = true -> os_makedirs p w = (Ok tt, w).
Proof.
  unfold os_makedirs, isdir_in, resolve.
  destruct (str_eqb p []); [discriminate|].
  destruct (walk _ _ _) as [k|] eqn:Hw; [|discriminate].
  intros Hk. rewrite (mkdirs_done _ _ _ _ Hw Hk). now rewrite set_tree_same.
Qed.

Lemma isdir_in_kept t t' cwd p :
  dirs_kept t t' -> isdir_in t cwd p = true -> isdir_in t' cwd p = true.
Proof.
  unfold isdir_in, resolve. intros K.
  destruct (str_eqb p []); [auto|].
  destruct (walk t _ _) as [k|] eqn:Hw; [|discriminate].
  rewrite (walk_dirs_kept _ _ _ _ _ K Hw). apply K.
Qed.

Lemma writable_at_spec t cwd p k :
  writable_at t cwd p = Some k ->
  resolve t cwd p = Some k /\ is_dir_key t k = false /\ k <> [].
Proof.
  unfold writable_at, is_dir_key.
  destruct (resolve t cwd p) as [k'|]; [|discriminate].
  destruct (_ || _); [discriminate|].
  destruct (lookup_node t k') as [[|d]|] eqn:E; try discriminate;
    intros [= <-]; rewrite E; (split; [|split]);
    first [reflexivity | intros ->; discriminate E].
Qed.

(** Once a file is written there, the path exists. *)
Lemma exists_after_write t cwd p k data :
  writable_at t cwd p = Some k ->
  exists_in (<[k := File data]> t) cwd p = true.
Proof.
  intros H. apply writable_at_spec in H as (Hr & Hd & Hk).
  unfold exists_in, resolve in *.
  destruct (str_eqb p []); [discriminate|].
  rewrite (walk_dirs_kept t _ _ _ k (insert_dirs_kept t k _ Hd) Hr).
  rewrite lookup_node_insert_eq by assumption.
  apply bool_decide_eq_true. eauto.
Qed.

(** *** Names that are refused *)

Lemma refused_app a b : refused (a ++ b) = refused a || refused b.
Proof. apply existsb_app. Qed.

Lemma refused_join parts :
  refused (join slash parts) = existsb refused parts.
Proof.
  induction parts as [|p rest IH]; [reflexivity|].
  destruct rest as [|q rest]; [simpl; now rewrite orb_false_r|].
  rewrite join_cons by discriminate. rewrite !refused_app, IH.
  reflexivity.
Qed.

Lemma walk_no_nul t cur comps k :
  walk t cur comps = Some k -> existsb refused comps = false.
Proof.
  revert cur. induction comps as [|c rest IH]; intros cur; [reflexivity|].
  cbn [walk existsb]. destruct (refused c); [discriminate|].
  destruct (is_dir_key t cur); [|discriminate].
  destruct (is_here c); [apply IH|]. destruct (is_up c); apply IH.
Qed.

(** No path with a refused character leads anywhere: it does not exist,
    is no directory, and cannot be opened. *)
Lemma resolve_nul t cwd p : refused p = true -> resolve t cwd p = None.
Proof.
  intros H. unfold resolve. destruct (str_eqb p []); [reflexivity|].
  destruct (walk _ _ _) as [k|] eqn:Hw; [|reflexivity].
  apply walk_no_nul in Hw. rewrite <- refused_join in Hw.
  rewrite join_split in Hw by discriminate. congruence.
Qed.

(** A file name that holds NUL, or a surrogate that cannot be encoded, is
    asked for and then not stored: [open] refuses it and the fetcher
    returns false; no regular file is on the disk afterwards. *)
Example refused_name_is_not_stored :
  let fetch name := retrieve_media_from_anki sample_lib name (py "algebra")
                      (py "media") (fresh sample_host) in
  let nul := py "a" ++ 0 :: py ".png" in
  let surrogate := py "a" ++ 55296 :: py ".png" in
  (fetch nul).1 = Ok false
  /\ w_calls (fetch nul).2 = [RetrieveMediaFile nul]
  /\ omap (fun kv => match kv.2 with File _ => Some kv.1 | Dir => None end)
       (map_to_list (w_tree (fetch nul).2)) = []
  /\ (fetch surrogate).1 = Ok false
  /\ w_calls (fetch surrogate).2 = [RetrieveMediaFile surrogate]
  /\ omap (fun kv => match kv.2 with File _ => Some kv.1 | Dir => None end)
       (map_to_list (w_tree (fetch surrogate).2)) = [].
Proof. vm_compute. repeat split. Qed.

(** A directory whose name is refused is not made: the directories before
    it are, then the exception of the name is raised, also when the name is
    to be taken from a regular file; a surrogate that stands for a byte is
    accepted. *)
Example refused_directory_is_not_made :
  let out := os_makedirs (py "media/" ++ 0 :: py "x") (fresh offline) in
  out.1 = Raise ValueError
  /\ map_to_list (w_tree out.2) = [([py "media"], Dir)]
  /\ (os_makedirs (py "media/" ++ [0; 55296]) (fresh offline)).1
     = Raise UnicodeEncodeError
  /\ (os_makedirs (0 :: py "/" ++ [55296]) (fresh offline)).1
     = Raise ValueError
  /\ (os_makedirs (py "media/" ++ [56448]) (fresh offline)).1 = Ok tt
  /\ (os_makedirs (py "decks/math/" ++ 0 :: py "x") (blocked offline)).1
     = Raise ValueError
  /\ (os_makedirs (py "decks/math/x/" ++ 0 :: py "y") (blocked offline)).1
     = Raise OSError.
Proof. vm_compute. repeat split. Qed.

(** ** The media fetcher *)

(** The steps of [retrieve_media_from_anki], one case each. *)
Lemma retrieve_cases L filename sub base w :
  let target_dir := path_join base sub in
  let target_path := path_join target_dir filename in
  match os_makedirs target_dir w with
  | (Raise e, w1) =>
      retrieve_media_from_anki L filename sub base w = (Raise e, w1)
  | (Ok _, w1) =>
      if exists_in (w_tree w1) (w_cwd w1) target_path
      then retrieve_media_from_anki L filename sub base w = (Ok true, w1)
      else
        match w_anki w1 (w_calls w1) (RetrieveMediaFile filename) with
        | Result r =>
            match (if truthy r then decode_media L r else Raise ValueError),
                  writable_at (w_tree w1) (w_cwd w1) target_path with
            | Ok data, Some k =>
                retrieve_media_from_anki L filename sub base w
                = (Ok true,
                   set_tree (asked w1 filename)
                     (<[k := File data]> (w_tree w1)))
            | _, _ =>
                retrieve_media_from_anki L filename sub base w
                = (Ok false, asked w1 filename)
            end
        | _ =>
            retrieve_media_from_anki L filename sub base w
            = (Ok false, asked w1 filename)
        end
  end.
Proof.
  intros target_dir target_path.
  unfold retrieve_media_from_anki, bind.
  fold target_dir. fold target_path.
  destruct (os_makedirs target_dir w) as [[[]|e] w1]; [|reflexivity].
  unfold os_path_exists.
  destruct (exists_in (w_tree w1) (w_cwd w1) target_path); [reflexivity|].
  unfold request.
  destruct (w_anki w1 (w_calls w1) (RetrieveMediaFile filename)) as [| |r];
    [reflexivity | reflexivity |].
  destruct (truthy r); simpl; [|reflexivity].
  unfold try_except, bind, lift, write_binary, ret, asked.
  destruct (decode_media L r) as [data|e]; [|reflexivity].
  simpl. destruct (writable_at _ _ _); reflexivity.
Qed.

(** *** Creating one directory inside an existing one *)

Lemma split_slash_plain b cur :
  forallb (fun x => negb (x =? 47)) b = true ->
  split_from slash b cur O = [rev cur ++ b].
Proof.
  revert cur. induction b as [|c b IH]; intros cur H.
  - simpl. now rewrite app_nil_r.
  - cbn [forallb] in H. apply andb_true_iff in H as [Hc H].
    change slash with [47]. cbn [split_from starts_with].
    rewrite Z.eqb_sym. apply negb_true_iff in Hc. rewrite Hc. cbn [andb].
    change [47] with slash. rewrite IH by exact H.
    simpl. now rewrite <- app_assoc.
Qed.

Lemma split_slash_snoc a b cur :
  forallb (fun x => negb (x =? 47)) b = true ->
  split_from slash (a ++ slash ++ b) cur O = split_from slash a cur O ++ [b].
Proof.
  intros Hb. revert cur. induction a as [|c a IH]; intros cur.
  - change slash with [47]. cbn [app split_from starts_with length Nat.pred].
    rewrite Z.eqb_refl. cbn [andb]. change [47] with slash.
    now rewrite split_slash_plain.
  - change slash with [47]. cbn [app split_from starts_with length Nat.pred].
    change [47] with slash. change (47 :: b) with (slash ++ b).
    destruct (47 =? c); cbn [andb]; rewrite IH; reflexivity.
Qed.

Lemma walk_app t cur x y :
  walk t cur (x ++ y)
  = match walk t cur x with
    | Some k => walk t k y
    | None => None
    end.
Proof.
  revert cur. induction x as [|c x IH]; intros cur; [reflexivity|].
  cbn [app walk]. destruct (refused c); [reflexivity|].
  destruct (is_dir_key t cur); [|reflexivity].
  destruct (is_here c); [apply IH|]. destruct (is_up c); apply IH.
Qed.

(** Along a path that leads to a directory nothing is created. *)
Lemma mkdirs_walked t cur x y k :
  walk t cur x = Some k -> is_dir_key t k = true ->
  mkdirs t cur (x ++ y) = mkdirs t k y.
Proof.
  revert cur. induction x as [|c x IH]; intros cur.
  - simpl. now intros [= ->].
  - cbn [app walk]. rewrite mkdirs_cons.
    destruct (refused c); [discriminate|].
    destruct (is_dir_key t cur); [|discriminate].
    destruct (is_here c); [apply IH|].
    destruct (is_up c); [apply IH|].
    intros Hw Hk. pose proof (walk_start_dir _ _ _ _ Hw Hk) as Hc.
    unfold is_dir_key in Hc.
    destruct (lookup_node t (c :: cur)) as [[|d]|]; try discriminate.
    now apply IH.
Qed.

(** The components of a path joined with a plain name: those that lead to
    the first path, then the name. *)
Lemma path_join_plain t cwd base sub kb :
  resolve t cwd base = Some kb -> is_dir_key t kb = true ->
  plain_name sub = true ->
  str_eqb (path_join base sub) [] = false
  /\ exists x,
       split slash (path_join base sub) = x ++ [sub]
       /\ walk t (path_start cwd (path_join base sub)) x = Some kb.
Proof.
  unfold plain_name, resolve. intros Hr Hk Hp.
  apply andb_true_iff in Hp as [Hp Hs]. apply andb_true_iff in Hp as [Hp _].
  apply andb_true_iff in Hp as [Hh _].
  destruct sub as [|c sub]; [discriminate|].
  destruct (str_eqb base []) eqn:Hb; [discriminate|].
  destruct base as [|b0 base]; [discriminate|].
  assert (Hns : starts_with slash (c :: sub) = false).
  { cbn [forallb] in Hs. apply andb_true_iff in Hs as [Hc _].
    apply negb_true_iff in Hc. change slash with [47]. cbn [starts_with].
    now rewrite Z.eqb_sym, Hc. }
  unfold path_join. rewrite Hns, Hb. cbn [orb].
  destruct (starts_with slash (rev (b0 :: base))) eqn:Hts.
  - apply starts_with_app in Hts as [r Hrev].
    apply (f_equal (@rev Z)) in Hrev. rewrite rev_involutive in Hrev.
    change slash with [47] in Hrev. simpl rev in Hrev.
    assert (Hbase : b0 :: base = rev r ++ slash ++ []) by exact Hrev.
    split.
    { unfold str_eqb. apply bool_decide_eq_false. rewrite Hrev.
      intros E. apply (f_equal (@length Z)) in E.
      rewrite !length_app in E. simpl in E. lia. }
    exists (split slash (rev r)). split.
    + rewrite Hrev. rewrite <- app_assoc. unfold split.
      now apply split_slash_snoc.
    + assert (Hst : path_start cwd ((b0 :: base) ++ c :: sub)
                    = path_start cwd (b0 :: base)) by reflexivity.
      rewrite Hst. rewrite Hbase in Hr at 2. unfold split in Hr.
      rewrite split_slash_snoc in Hr by reflexivity.
      rewrite walk_app in Hr.
      unfold split.
      destruct (walk t _ (split_from slash (rev r) [] 0)) as [k'|];
        [|discriminate].
      cbn [walk refused existsb] in Hr.
      destruct (is_dir_key t k'); [|discriminate].
      change (is_here []) with true in Hr. exact Hr.
  - split.
    { unfold str_eqb. now apply bool_decide_eq_false. }
    exists (split slash (b0 :: base)). split.
    + unfold split. now apply split_slash_snoc.
    + exact Hr.
Qed.

(** In an existing directory, creating a plain name makes it a directory,
    unless a regular file stands there. *)
Lemma os_makedirs_plain base sub w kb :
  resolve (w_tree w) (w_cwd w) base = Some kb ->
  is_dir_key (w_tree w) kb = true ->
  plain_name sub = true ->
  os_makedirs (path_join base sub) w
  = match lookup_node (w_tree w) (sub :: kb) with
    | Some (File _) => (Raise OSError, w)
    | _ => (Ok tt, set_tree w (<[sub :: kb := Dir]> (w_tree w)))
    end.
Proof.
  intros Hr Hk Hp.
  destruct (path_join_plain _ _ _ _ _ Hr Hk Hp) as (Hne & x & Hx & Hw).
  unfold os_makedirs. rewrite Hne, Hx, (mkdirs_walked _ _ _ _ _ Hw Hk).
  unfold plain_name in Hp.
  apply andb_true_iff in Hp as [Hp _]. apply andb_true_iff in Hp as [Hp Hn].
  apply andb_true_iff in Hp as [Hh Hu].
  apply negb_true_iff in Hn, Hh, Hu.
  rewrite mkdirs_cons, Hn, Hk, Hh, Hu. cbn [mkdirs].
  destruct (lookup_node (w_tree w) (sub :: kb)) as [[|d]|] eqn:Hl.
  - unfold is_dir_key. rewrite Hl. simpl in Hl.
    now rewrite (insert_id _ _ _ Hl).
  - unfold is_dir_key. rewrite Hl. now rewrite set_tree_same.
  - unfold is_dir_key. now rewrite lookup_node_insert_eq.
Qed.

(** Once its directory is made, the fetcher returns, and the directory is
    there afterwards. *)
Lemma retrieve_returns L filename sub base w w1 :
  os_makedirs (path_join base sub) w = (Ok tt, w1) ->
  let target_dir := path_join base sub in
  let target_path := path_join target_dir filename in
  let out := retrieve_media_from_anki L filename sub base w in
  (out.1 = Ok true \/ out.1 = Ok false)
  /\ isdir_in (w_tree out.2) (w_cwd out.2) target_dir = true
  /\ (exists_in (w_tree w1) (w_cwd w1) target_path = true ->
      out = (Ok true, w1))
  /\ (out.1 = Ok false -> w_tree out.2 = w_tree w1).
Proof.
  intros Hm target_dir target_path out.
  pose proof (retrieve_cases L filename sub base w) as C.
  cbv zeta in C. fold target_dir target_path out in C.
  unfold target_dir in C at 1. rewrite Hm in C.
  pose proof (os_makedirs_isdir _ _ _ Hm) as Hd.
  destruct (exists_in (w_tree w1) (w_cwd w1) target_path) eqn:Hex.
  { rewrite C. cbn [fst snd]. auto. }
  assert (Hfalse :
    out = (Ok false, asked w1 filename) ->
    (out.1 = Ok true \/ out.1 = Ok false)
    /\ isdir_in (w_tree out.2) (w_cwd out.2) target_dir = true
    /\ (false = true -> out = (Ok true, w1))
    /\ (out.1 = Ok false -> w_tree out.2 = w_tree w1)).
  { intros ->. cbn [fst snd asked add_call w_tree w_cwd].
    repeat split; auto; discriminate. }
  destruct (w_anki w1 (w_calls w1) (RetrieveMediaFile filename)) as [| |r];
    [exact (Hfalse C) | exact (Hfalse C) |].
  destruct (if truthy r then decode_media L r else Raise ValueError)
    as [data|e]; [|exact (Hfalse C)].
  destruct (writable_at (w_tree w1) (w_cwd w1) target_path) as [k|] eqn:Hwr;
    [|exact (Hfalse C)].
  rewrite C. cbn [fst snd asked add_call set_tree w_tree w_cwd].
  apply writable_at_spec in Hwr as (_ & Hk & _).
  split; [auto|]. split; [|split; discriminate].
  exact (isdir_in_kept _ _ _ _ (insert_dirs_kept _ k _ Hk) Hd).
Qed.

(** C9, as the code has it.  Every call of the media fetcher begins with
    the creation of the destination directory, before the cache check and
    before any call to the host; the creation keeps every node that was
    there and adds directories only.  The fetcher returns, true or false,
    exactly when the creation succeeded, and the directory exists
    afterwards, whether the file was cached, fetched or not obtained; a
    fetch that returns false leaves the filesystem as the creation left
    it.  The creation succeeds when the directory is there already, and
    makes it when the media base directory exists, the subfolder is a plain
    name and no regular file stands at the destination.  When the creation
    fails, as it does when a regular file stands there, the fetcher raises
    that exception: the cache is not checked, the host is not asked, and
    the directory does not exist afterwards. *)
Theorem fetch_creates_directory (L : pylib)
    (filename sub base : str) (w : world) :
  let target_dir := path_join base sub in
  let target_path := path_join target_dir filename in
  let made := os_makedirs target_dir w in
  let out := retrieve_media_from_anki L filename sub base w in
  (w_calls made.2 = w_calls w
   /\ (forall k n, w_tree w !! k = Some n -> w_tree made.2 !! k = Some n)
   /\ (forall k n, w_tree made.2 !! k = Some n ->
                   w_tree w !! k = Some n \/ n = Dir))
  /\ (forall b, out.1 = Ok b ->
        made.1 = Ok tt
        /\ isdir_in (w_tree out.2) (w_cwd out.2) target_dir = true)
  /\ (made.1 = Ok tt ->
      (out.1 = Ok true \/ out.1 = Ok false)
      /\ (exists_in (w_tree made.2) (w_cwd made.2) target_path = true ->
          out = (Ok true, made.2))
      /\ (out.1 = Ok false -> w_tree out.2 = w_tree made.2))
  /\ (forall e, made.1 = Raise e ->
        out = (Raise e, made.2)
        /\ isdir_in (w_tree out.2) (w_cwd out.2) target_dir = false)
  /\ (isdir_in (w_tree w) (w_cwd w) target_dir = true -> made = (Ok tt, w))
  /\ (forall kb,
        resolve (w_tree w) (w_cwd w) base = Some kb ->
        is_dir_key (w_tree w) kb = true ->
        plain_name sub = true ->
        match lookup_node (w_tree w) (sub :: kb) with
        | Some (File _) => made = (Raise OSError, w)
        | _ => made = (Ok tt, set_tree w (<[sub :: kb := Dir]> (w_tree w)))
        end).
Proof.
  intros target_dir target_path made out.
  pose proof (retrieve_cases L filename sub base w) as C.
  cbv zeta in C. fold target_dir target_path made out in C.
  assert (Hlast : forall kb,
    resolve (w_tree w) (w_cwd w) base = Some kb ->
    is_dir_key (w_tree w) kb = true ->
    plain_name sub = true ->
    match lookup_node (w_tree w) (sub :: kb) with
    | Some (File _) => made = (Raise OSError, w)
    | _ => made = (Ok tt, set_tree w (<[sub :: kb := Dir]> (w_tree w)))
    end).
  { intros kb Hr Hk Hp. unfold made, target_dir.
    rewrite (os_makedirs_plain _ _ _ _ Hr Hk Hp).
    now destruct (lookup_node _ _) as [[|d]|]. }
  assert (Hthere : isdir_in (w_tree w) (w_cwd w) target_dir = true ->
                   made = (Ok tt, w)) by apply os_makedirs_exists.
  destruct made as [r1 w1] eqn:Hm.
  destruct (os_makedirs_tree _ _ _ _ Hm) as (Hw1 & K & E & N & Hr).
  cbn [fst snd].
  split; [split; [rewrite Hw1; reflexivity | split; [exact E | exact N]]|].
  assert (Hfail : forall e, r1 = Raise e ->
    out = (Raise e, w1)
    /\ isdir_in (w_tree out.2) (w_cwd out.2) target_dir = false).
  { intros e ->. rewrite C. split; [reflexivity|]. cbn [snd].
    exact (os_makedirs_raised _ _ _ _ Hm). }
  assert (Hok : r1 = Ok tt ->
    (out.1 = Ok true \/ out.1 = Ok false)
    /\ isdir_in (w_tree out.2) (w_cwd out.2) target_dir = true
    /\ (exists_in (w_tree w1) (w_cwd w1) target_path = true ->
        out = (Ok true, w1))
    /\ (out.1 = Ok false -> w_tree out.2 = w_tree w1)).
  { intros ->. exact (retrieve_returns L filename sub base w w1 Hm). }
  split; [|split; [|split; [exact Hfail | split; [exact Hthere | exact Hlast]]]].
  - intros b Hb. destruct r1 as [[]|e].
    + split; [reflexivity|]. now destruct (Hok eq_refl) as (_ & ? & _).
    + destruct (Hfail e eq_refl) as [Ho _]. rewrite Ho in Hb. discriminate.
  - intros H. destruct (Hok H) as (? & _ & ? & ?). auto.
Qed.

(** [fetch_creates_directory] on a disk that holds the media base directory
    only: the first fetch makes "media/algebra". *)
Lemma fetch_creates_directory_witness :
  let w := World (<[[py "media"] := Dir]> ∅) [] offline [] None in
  os_makedirs (path_join (py "media") (py "algebra")) w
  = (Ok tt,
     set_tree w (<[[py "algebra"; py "media"] := Dir]> (w_tree w))).
Proof.
  intros w.
  exact (proj2 (proj2 (proj2 (proj2 (proj2
           (fetch_creates_directory sample_lib (py "a.png") (py "algebra")
              (py "media") w)))))
           [py "media"] eq_refl eq_refl eq_refl).
Defined.

(** A regular file where the media directory should go: the fetcher raises,
    the host is not asked, and no directory is there afterwards. *)
Lemma fetch_directory_counterexample :
  let w := media_blocked sample_host in
  let out := retrieve_media_from_anki sample_lib (py "a.png") (py "algebra")
               (py "media") w in
  out = (Raise OSError, w)
  /\ isdir_in (w_tree out.2) (w_cwd out.2)
       (path_join (py "media") (py "algebra")) = false.
Proof. vm_compute. split; reflexivity. Qed.

(** A fetch asks the host at most once. *)
Lemma retrieve_calls L filename sub base w :
  let out := retrieve_media_from_anki L filename sub base w in
  w_calls out.2 = w_calls w
  \/ w_calls out.2 = RetrieveMediaFile filename :: w_calls w.
Proof.
  pose proof (retrieve_cases L filename sub base w) as C.
  cbv zeta in *.
  destruct (os_makedirs _ w) as [r1 w1] eqn:Hm.
  destruct (os_makedirs_tree _ _ _ _ Hm) as (Hw1 & _).
  assert (Hc : w_calls w1 = w_calls w) by (rewrite Hw1; reflexivity).
  destruct r1 as [[]|e]; [|rewrite C; auto].
  destruct (exists_in _ _ _); [rewrite C; auto|].
  destruct (w_anki _ _ _) as [| |r];
    [rewrite C; simpl; rewrite Hc; auto | rewrite C; simpl; rewrite Hc; auto |].
  destruct (if truthy r then _ else _); [|rewrite C; simpl; rewrite Hc; auto].
  destruct (writable_at _ _ _); rewrite C; simpl; rewrite Hc; auto.
Qed.

(** C2, as the code has it.  A file that exists at the destination (in an
    existing destination directory) makes the fetcher return true at once,
    the world unchanged and the host not asked.  After a fetch that
    returned true, a second fetch of the same name to the same place
    returns true without asking the host, so the two make one call at
    most.  Any single fetch asks the host at most once.  A fetch that
    returned false has asked the host once and cached nothing: a second
    fetch asks the host again. *)
Theorem media_caching (L : pylib) (filename sub base : str) (w : world) :
  let target_dir := path_join base sub in
  let target_path := path_join target_dir filename in
  (isdir_in (w_tree w) (w_cwd w) target_dir = true ->
   exists_in (w_tree w) (w_cwd w) target_path = true ->
   retrieve_media_from_anki L filename sub base w = (Ok true, w))
  /\ (forall w1,
        retrieve_media_from_anki L filename sub base w = (Ok true, w1) ->
        retrieve_media_from_anki L filename sub base w1 = (Ok true, w1)
        /\ (network_calls w1 <= network_calls w + 1)%nat)
  /\ (forall r w1,
        retrieve_media_from_anki L filename sub base w = (r, w1) ->
        (network_calls w <= network_calls w1 <= network_calls w + 1)%nat)
  /\ (forall w1,
        retrieve_media_from_anki L filename sub base w = (Ok false, w1) ->
        w_calls w1 = RetrieveMediaFile filename :: w_calls w
        /\ w_calls (retrieve_media_from_anki L filename sub base w1).2
           = RetrieveMediaFile filename :: w_calls w1).
Proof.
  intros target_dir target_path.
  assert (Hhit : forall v,
    isdir_in (w_tree v) (w_cwd v) target_dir = true ->
    exists_in (w_tree v) (w_cwd v) target_path = true ->
    retrieve_media_from_anki L filename sub base v = (Ok true, v)).
  { intros v Hd Hex.
    pose proof (retrieve_cases L filename sub base v) as C. cbv zeta in C.
    fold target_dir target_path in C.
    rewrite (os_makedirs_exists _ _ Hd), Hex in C. exact C. }
  assert (Hcalls : forall r w1,
    retrieve_media_from_anki L filename sub base w = (r, w1) ->
    (network_calls w <= network_calls w1 <= network_calls w + 1)%nat).
  { intros r w1 H.
    pose proof (retrieve_calls L filename sub base w) as C. cbv zeta in C.
    rewrite H in C. cbn [snd] in C. unfold network_calls.
    destruct C as [-> | ->]; simpl; lia. }
  split; [apply Hhit|]. split; [|split; [exact Hcalls|]].
  2:{ intros w' H.
      pose proof (retrieve_cases L filename sub base w) as C. cbv zeta in C.
      fold target_dir target_path in C. rewrite H in C.
      destruct (os_makedirs target_dir w) as [[[]|e] w1] eqn:Hm;
        [|discriminate].
      pose proof (os_makedirs_isdir _ _ _ Hm) as Hd.
      destruct (os_makedirs_tree _ _ _ _ Hm) as (Hw1 & _).
      assert (Hc1 : w_calls w1 = w_calls w) by (rewrite Hw1; reflexivity).
      destruct (exists_in (w_tree w1) (w_cwd w1) target_path) eqn:Hex;
        [discriminate|].
      assert (Hw' : w' = asked w1 filename).
      { destruct (w_anki _ _ _) as [| |r]; [congruence | congruence |].
        destruct (if truthy r then _ else _); [|congruence].
        destruct (writable_at _ _ _); congruence. }
      clear C. subst w'. split; [simpl; now rewrite Hc1|].
      pose proof (retrieve_cases L filename sub base (asked w1 filename)) as C.
      cbv zeta in C. fold target_dir target_path in C.
      rewrite (os_makedirs_exists target_dir (asked w1 filename)) in C
        by exact Hd.
      cbn [asked add_call w_tree w_cwd] in C. rewrite Hex in C.
      destruct (w_anki _ _ _) as [| |r]; [now rewrite C | now rewrite C |].
      destruct (if truthy r then _ else _); [|now rewrite C].
      destruct (writable_at _ _ _); now rewrite C. }
  intros w' H. split; [|apply (Hcalls _ _ H)].
  pose proof (retrieve_cases L filename sub base w) as C. cbv zeta in C.
  fold target_dir target_path in C. rewrite H in C.
  destruct (os_makedirs target_dir w) as [[[]|e] w1] eqn:Hm;
    [|discriminate].
  pose proof (os_makedirs_isdir _ _ _ Hm) as Hd.
  destruct (exists_in (w_tree w1) (w_cwd w1) target_path) eqn:Hex.
  { injection C as <-. now apply Hhit. }
  destruct (w_anki _ _ _) as [| |r]; [discriminate | discriminate |].
  destruct (if truthy r then _ else _) as [data|e]; [|discriminate].
  destruct (writable_at _ _ _) as [k|] eqn:Hwr; [|discriminate].
  injection C as ->. apply Hhit; cbn [set_tree asked add_call w_tree w_cwd].
  - apply writable_at_spec in Hwr as (_ & Hk & _).
    exact (isdir_in_kept _ _ _ _ (insert_dirs_kept _ k _ Hk) Hd).
  - now apply exists_after_write.
Qed.

(** [media_caching] on an empty disk with a host that holds the file: the
    first fetch asks once, the second not at all. *)
Lemma media_caching_witness :
  let w1 :=
    (retrieve_media_from_anki sample_lib (py "a.png") (py "algebra")
       (py "media") (fresh sample_host)).2 in
  retrieve_media_from_anki sample_lib (py "a.png") (py "algebra")
    (py "media") w1 = (Ok true, w1)
  /\ (network_calls w1 <= network_calls (fresh sample_host) + 1)%nat.
Proof.
  intros w1.
  apply (proj1 (proj2 (media_caching sample_lib (py "a.png") (py "algebra")
                         (py "media") (fresh sample_host)))).
  vm_compute. reflexivity.
Defined.

(** Two fetches of a file the host does not give make two calls. *)
Lemma media_caching_counterexample :
  let w0 := fresh offline in
  let first := retrieve_media_from_anki sample_lib (py "a.png")
                 (py "algebra") (py "media") w0 in
  let second := retrieve_media_from_anki sample_lib (py "a.png")
                  (py "algebra") (py "media") first.2 in
  first.1 = Ok false /\ second.1 = Ok false
  /\ network_calls w0 = 0%nat /\ network_calls second.2 = 2%nat.
Proof. vm_compute. repeat split. Qed.

(** ** Replacing *)

Lemma replace_from_skip old new x b :
  replace_from old new (x ++ b) (length x) = replace_from old new b O.
Proof.
  induction x as [|c x IH]; [reflexivity|]. simpl.
  destruct x as [|d x]; [reflexivity|]. exact IH.
Qed.

(** A text without the old string is left as it is. *)
Lemma replace_absent old new s : ~ occurs old s -> replace old new s = s.
Proof.
  unfold replace. induction s as [|c r IH]; intros H; [reflexivity|].
  simpl. destruct (starts_with old (c :: r)) eqn:Hst.
  - destruct (starts_with_app _ _ Hst) as [t Ht].
    exfalso. apply H. now exists [], t.
  - rewrite IH; [reflexivity|].
    intros (a & b & ->). apply H. now exists (c :: a), b.
Qed.

(** The leftmost occurrence is replaced, and the replacing goes on after
    it. *)
Lemma replace_first old new a b :
  old <> [] ->
  (forall a1 a2, a = a1 ++ a2 -> a2 <> [] ->
                 starts_with old (a2 ++ old ++ b) = false) ->
  replace old new (a ++ old ++ b) = a ++ new ++ replace old new b.
Proof.
  intros Hold. unfold replace. induction a as [|c a IH]; intros H.
  - destruct old as [|c old']; [congruence|].
    change ([] ++ (c :: old') ++ b) with (c :: old' ++ b).
    cbn [replace_from].
    change (c :: old' ++ b) with ((c :: old') ++ b).
    rewrite starts_with_prefix. cbn [length Nat.pred app].
    now rewrite replace_from_skip.
  - assert (Hc : starts_with old ((c :: a) ++ old ++ b) = false)
      by (apply (H [] (c :: a)); [reflexivity | discriminate]).
    change ((c :: a) ++ old ++ b) with (c :: a ++ old ++ b) in *.
    cbn [replace_from]. rewrite Hc, IH; [reflexivity|].
    intros a1 a2 -> Ha2. apply (H (c :: a1) a2); [reflexivity | assumption].
Qed.

(** ** The content rewriter *)

Lemma frame_refl w : frame w w.
Proof. repeat split; auto using dirs_kept_refl. Qed.

Lemma frame_trans w1 w2 w3 : frame w1 w2 -> frame w2 w3 -> frame w1 w3.
Proof.
  intros (A1 & B1 & C1 & D1) (A2 & B2 & C2 & D2).
  repeat split; try congruence. eapply dirs_kept_trans; eassumption.
Qed.

Lemma retrieve_frame L filename sub base w r w' :
  retrieve_media_from_anki L filename sub base w = (r, w') ->
  frame w w'
  /\ (forall e, r = Raise e ->
        (e = OSError \/ e = ValueError \/ e = UnicodeEncodeError)
        /\ isdir_in (w_tree w) (w_cwd w) (path_join base sub) = false).
Proof.
  intros H.
  pose proof (retrieve_cases L filename sub base w) as C. cbv zeta in C.
  split.
  - destruct (os_makedirs _ w) as [r1 w1] eqn:Hm.
    destruct (os_makedirs_tree _ _ _ _ Hm) as (Hw1 & K & _).
    assert (F1 : frame w w1) by (rewrite Hw1; repeat split; auto).
    destruct r1 as [[]|e]; [|rewrite C in H; injection H as <- <-; auto].
    destruct (exists_in _ _ _);
      [rewrite C in H; injection H as <- <-; auto|].
    assert (F2 : frame w (asked w1 filename)).
    { destruct F1 as (A & B & D & E). repeat split; auto. }
    destruct (w_anki _ _ _) as [| |v];
      [rewrite C in H; injection H as <- <-; auto
      |rewrite C in H; injection H as <- <-; auto|].
    destruct (if truthy v then _ else _);
      [|rewrite C in H; injection H as <- <-; auto].
    destruct (writable_at _ _ _) as [k|] eqn:Hwr;
      rewrite C in H; injection H as <- <-; auto.
    apply writable_at_spec in Hwr as (_ & Hk & _).
    destruct F1 as (A & B & D & E). repeat split; auto.
    cbn [set_tree asked add_call w_tree].
    eapply dirs_kept_trans; [exact E | now apply insert_dirs_kept].
  - intros e ->.
    destruct (isdir_in (w_tree w) (w_cwd w) (path_join base sub)) eqn:Hd.
    { pose proof (retrieve_returns L filename sub base w w
                    (os_makedirs_exists _ _ Hd)) as (Hr & _).
      cbv zeta in Hr. rewrite H in Hr. now destruct Hr. }
    split; [|reflexivity].
    destruct (os_makedirs _ w) as [r1 w1] eqn:Hm.
    destruct (os_makedirs_tree _ _ _ _ Hm) as (_ & _ & _ & _ & Hr1).
    destruct r1 as [[]|e1].
    { pose proof (retrieve_returns L filename sub base w w1 Hm) as (Hr & _).
      cbv zeta in Hr. rewrite H in Hr. now destruct Hr. }
    rewrite C in H. injection H as <- _.
    destruct Hr1 as [|[|[|]]];
      [discriminate | left | right; left | right; right]; congruence.
Qed.

Lemma process_matches_result L matches text sub base w r w' :
  process_matches L matches text sub base w = (r, w') ->
  frame w w'
  /\ agrees r (Ok (fold_left (rewrite_one sub) matches text))
  /\ (isdir_in (w_tree w) (w_cwd w) (path_join base sub) = true ->
      r = Ok (fold_left (rewrite_one sub) matches text)).
Proof.
  revert text w. induction matches as [|f rest IH]; intros text w.
  - simpl. unfold ret. intros [= <- <-].
    split; [apply frame_refl|]. split; [now left | auto].
  - cbn [process_matches fold_left]. unfold bind.
    destruct (retrieve_media_from_anki L f sub base w) as [r1 w1] eqn:Hf.
    destruct (retrieve_frame _ _ _ _ _ _ _ Hf) as (F & Hr).
    destruct r1 as [b|e].
    + intros H. apply IH in H as (F' & Hr' & Hd').
      split; [eapply frame_trans; eassumption|]. split; [assumption|].
      intros D. apply Hd'.
      destruct F as (A & _ & _ & K). rewrite A.
      exact (isdir_in_kept _ _ _ _ K D).
    + intros [= <- <-]. split; [assumption|].
      destruct (Hr e eq_refl) as (He & Hd).
      split; [right; destruct He as [-> | [-> | ->]]; auto|].
      intros D. congruence.
Qed.

(** The rewriting of a fragment with at least one match: what the creation
    of the media directory raises, or else the rewritten fragment. *)
Lemma process_matches_cases L f rest text sub base w :
  let out := process_matches L (f :: rest) text sub base w in
  match os_makedirs (path_join base sub) w with
  | (Ok _, _) => out.1 = Ok (fold_left (rewrite_one sub) (f :: rest) text)
  | (Raise e, w1) => out = (Raise e, w1)
  end.
Proof.
  cbv zeta. cbn [process_matches]. unfold bind.
  pose proof (retrieve_cases L f sub base w) as C. cbv zeta in C.
  destruct (os_makedirs _ w) as [[[]|e] w1] eqn:Hm; [|now rewrite C].
  clear C.
  pose proof (retrieve_returns L f sub base w w1 Hm) as (Hr & Hd & _).
  cbv zeta in Hr, Hd.
  destruct (retrieve_media_from_anki L f sub base w) as [r1 wa].
  cbn [fst snd] in Hr, Hd.
  destruct r1 as [b|e]; [|now destruct Hr].
  destruct (process_matches L rest _ sub base wa) as [r w'] eqn:Hp.
  apply process_matches_result in Hp as (_ & _ & Hp). exact (Hp Hd).
Qed.

(** C5, as the code has it.  A fragment without image references comes
    back unchanged, the world untouched.  Otherwise the rewriter begins
    with the creation of the media directory.  When the creation succeeds,
    as it does when the directory exists, the result is the fragment after
    one rewriting step per match, in the order of the scan, whatever the
    fetches returned.  When it fails, the rewriter raises that exception
    and returns no fragment.  One step replaces every occurrence of the
    attribute holding the file name between double quotes by the attribute
    holding the new relative path between double quotes, then every
    occurrence between single quotes by the new path between single
    quotes: the quote style is kept.  Replacing takes the occurrences from
    the left; a text without any is left as it is. *)
Theorem content_rewriting (L : pylib) (source sub base : str) (w : world) :
  let matches := find_image_names source in
  let made := os_makedirs (path_join base sub) w in
  let out := process_media_in_text L source sub base w in
  (matches = [] -> out = (Ok source, w))
  /\ (made.1 = Ok tt ->
      out.1 = Ok (fold_left (rewrite_one sub) matches source))
  /\ (forall e, matches <> [] -> made.1 = Raise e -> out = (Raise e, made.2))
  /\ (isdir_in (w_tree w) (w_cwd w) (path_join base sub) = true ->
      out.1 = Ok (fold_left (rewrite_one sub) matches source))
  /\ (forall text filename,
        rewrite_one sub text filename
        = replace (src_attr squote filename)
            (src_attr squote (new_relative_path sub filename))
            (replace (src_attr dquote filename)
               (src_attr dquote (new_relative_path sub filename)) text))
  /\ (forall q filename new a b,
        (forall a1 a2, a = a1 ++ a2 -> a2 <> [] ->
           starts_with (src_attr q filename)
             (a2 ++ src_attr q filename ++ b) = false) ->
        replace (src_attr q filename) new (a ++ src_attr q filename ++ b)
        = a ++ new ++ replace (src_attr q filename) new b)
  /\ (forall q filename new text,
        ~ occurs (src_attr q filename) text ->
        replace (src_attr q filename) new text = text).
Proof.
  intros matches made out.
  assert (Hcases : match matches with
                   | [] => out = (Ok source, w)
                   | _ :: _ =>
                       match made with
                       | (Ok _, _) =>
                           out.1 = Ok (fold_left (rewrite_one sub) matches
                                         source)
                       | (Raise e, w1) => out = (Raise e, w1)
                       end
                   end).
  { unfold out, process_media_in_text. fold matches.
    destruct matches as [|f rest]; [reflexivity|].
    apply process_matches_cases. }
  split; [|split; [|split; [|split; [|split; [|split]]]]].
  - intros H. now rewrite H in Hcases.
  - intros Hm. destruct matches as [|f rest]; [now rewrite Hcases|].
    destruct made as [[[]|e] w1]; [exact Hcases | discriminate].
  - intros e Hne Hm. destruct matches as [|f rest]; [congruence|].
    destruct made as [[[]|e1] w1]; [discriminate|].
    cbn [fst snd] in *. congruence.
  - intros D. destruct out as [r w'] eqn:Ho.
    unfold out, process_media_in_text in Ho.
    apply process_matches_result in Ho as (_ & _ & Hr). exact (Hr D).
  - reflexivity.
  - intros q filename new a b H. apply replace_first; [discriminate | exact H].
  - intros q filename new text H. now apply replace_absent.
Qed.

(** A reference between single quotes keeps its single quotes; and with
    a regular file where the media directory should go, the fragment is
    not rewritten: the rewriter raises. *)
Lemma content_rewriting_counterexample :
  (process_media_in_text sample_lib (py "<img src='a.png'>") (py "algebra")
     (py "media") (fresh offline)).1
  = Ok (py "<img src='../media/algebra/a.png'>")
  /\ py "<img src='../media/algebra/a.png'>"
     <> py "<img src=" ++ dquote :: py "../media/algebra/a.png"
        ++ dquote :: py ">"
  /\ (process_media_in_text sample_lib (py "<img src='a.png'>") (py "algebra")
        (py "media") (media_blocked offline)).1
     = Raise OSError.
Proof.
  split; [vm_compute; reflexivity|].
  split; [discriminate | vm_compute; reflexivity].
Qed.

(** The fragment of the rewrite-completeness test: the two names are found
    (one of them twice) and the three references are rewritten. *)
Example rewrite_completeness :
  let img x := py "<img src=" ++ dquote :: x ++ dquote :: py ">" in
  let source := img (py "photo.JPG") ++ img (py "photo.JPG")
                ++ img (py "diagram.svg") in
  find_image_names source = [py "photo.JPG"; py "photo.JPG"; py "diagram.svg"]
  /\ (process_media_in_text sample_lib source (py "algebra") (py "media")
        (fresh offline)).1
     = Ok (img (py "../media/algebra/photo.JPG")
           ++ img (py "../media/algebra/photo.JPG")
           ++ img (py "../media/algebra/diagram.svg")).
Proof. vm_compute. split; reflexivity. Qed.

(** ** Rows *)

(** An exception agrees with what comes after as it does with what came
    before. *)
Ltac agrees_raise H :=
  destruct H as [<-|[H|[H|H]]];
  [now left | right; left | right; right; left | right; right; right];
  injection H as ->; reflexivity.

Lemma field_column_result L sub base o w r w' :
  field_column L sub base o w = (r, w') ->
  frame w w' /\ agrees r (column_of L sub o).
Proof.
  unfold field_column, column_of, bind, lift, and_then, agrees.
  destruct (getitem o (py "value")) as [v|e];
    [|intros [= <- <-]; auto using frame_refl].
  destruct v; try (intros [= <- <-]; auto using frame_refl).
  unfold process_media_in_text, rewritten. intros H.
  apply process_matches_result in H as (F & Hr & _). auto.
Qed.

Lemma columns_result L sub base objs w r w' :
  mapM (field_column L sub base) objs w = (r, w') ->
  frame w w' /\ agrees r (columns_of L sub objs).
Proof.
  revert w r w'. induction objs as [|o rest IH]; intros w r w'.
  - simpl. intros [= <- <-]. split; [apply frame_refl | now left].
  - cbn [mapM columns_of]. unfold bind at 1.
    destruct (field_column L sub base o w) as [r1 w1] eqn:H1.
    apply field_column_result in H1 as (F1 & A1).
    destruct r1 as [c|e].
    + unfold bind at 1.
      destruct (mapM (field_column L sub base) rest w1) as [r2 w2] eqn:H2.
      apply IH in H2 as (F2 & A2).
      assert (F : frame w w2) by (eapply frame_trans; eassumption).
      destruct A1 as [<-|[?|[?|?]]]; [|discriminate..]. unfold and_then at 1.
      destruct r2 as [cs|e]; intros [= <- <-]; (split; [exact F|]).
      * destruct A2 as [<-|[?|[?|?]]]; [now left | discriminate..].
      * agrees_raise A2.
    + intros [= <- <-]. split; [exact F1|].
      agrees_raise A1.
Qed.

Lemma note_row_result L sub base note w r w' :
  note_row L sub base note w = (r, w') ->
  frame w w' /\ agrees r (row_of L sub note).
Proof.
  unfold note_row, row_of, lift.
  unfold bind at 1. unfold and_then at 1.
  destruct (getitem note (py "fields")) as [fields|e];
    [|intros [= <- <-]; split; [apply frame_refl | now left]].
  unfold bind at 1. unfold and_then at 1.
  destruct (dict_values fields) as [objs|e];
    [|intros [= <- <-]; split; [apply frame_refl | now left]].
  unfold bind at 1.
  destruct (mapM (field_column L sub base) objs w) as [r1 w1] eqn:H1.
  apply columns_result in H1 as (F & A).
  destruct r1 as [cols|e].
  - destruct A as [<-|[?|[?|?]]]; [|discriminate..]. unfold and_then at 1.
    unfold bind at 1. unfold and_then at 1.
    destruct (getitem note (py "tags")) as [tl|e];
      [|intros [= <- <-]; split; [exact F | now left]].
    unfold bind, and_then, ret.
    destruct (join_json (py " ") tl) as [tags|e]; intros [= <- <-];
      (split; [exact F | now left]).
  - intros [= <- <-]. split; [exact F|].
    agrees_raise A.
Qed.

(** ** Writing the rows *)

Lemma write_notes_spec L sub base notes count w h r w' :
  w_csv w = Some h ->
  write_notes L sub base notes count w = (r, w') ->
  w_cwd w' = w_cwd w
  /\ dirs_kept (w_tree w) (w_tree w')
  /\ exists done rest rows data h',
       notes = done ++ rest
       /\ Forall2 (fun note row => row_of L sub note = Ok row) done rows
       /\ appended (h_first h) rows = Some data
       /\ w_csv w' = Some h'
       /\ h_key h' = h_key h
       /\ h_data h' = h_data h ++ data
       /\ ((r = Ok (count + Z.of_nat (length notes)) /\ rest = [])
           \/ ((exists e, r = Raise e) /\ rest <> [])).
Proof.
  revert count w h. induction notes as [|note rest IH]; intros count w h Hh.
  - simpl. intros [= <- <-]. split; [reflexivity|].
    split; [apply dirs_kept_refl|].
    exists [], [], [], [], h.
    repeat split; rewrite ?app_nil_r, ?Z.add_0_r; auto.
  - cbn [write_notes]. unfold bind at 1.
    destruct (note_row L sub base note w) as [r1 w1] eqn:H1.
    apply note_row_result in H1 as ((Fc & _ & Fh & Fd) & A).
    destruct r1 as [row|e].
    2:{ intros [= <- <-]. split; [exact Fc|]. split; [exact Fd|].
        exists [], (note :: rest), [], [], h.
        repeat split; rewrite ?app_nil_r; auto; try congruence.
        right. split; [eauto | discriminate]. }
    destruct A as [A|[?|[?|?]]]; [|discriminate..].
    unfold bind at 1. unfold writerow, write_text. rewrite Fh, Hh.
    destruct (utf8_encode (csv_line row)) as [b|] eqn:Hb.
    2:{ intros [= <- <-]. split; [exact Fc|]. split; [exact Fd|].
        exists [], (note :: rest), [], [], (Handle (h_key h) false (h_data h)).
        repeat split; rewrite ?app_nil_r; auto.
        right. split; [eauto | discriminate]. }
    intros H.
    apply (IH _ _ (Handle (h_key h) false
                     (h_data h ++ (if h_first h then BOM_UTF8 ++ b else b))))
      in H; [|reflexivity].
    destruct H as (Hc & Hd & done & rest' & rows & data & h' & E & F2 & Ha
                   & Hh' & Hk & Hdata & Hr).
    cbn [set_csv w_cwd w_tree h_key h_data h_first] in *.
    split; [congruence|]. split; [eapply dirs_kept_trans; eassumption|].
    exists (note :: done), rest', (row :: rows),
      ((if h_first h then BOM_UTF8 else []) ++ b ++ data), h'.
    split; [rewrite E; reflexivity|].
    split; [constructor; [symmetry; exact A | exact F2]|].
    split; [cbn [appended]; rewrite Hb, Ha; reflexivity|].
    split; [exact Hh'|]. split; [exact Hk|].
    split; [rewrite Hdata; destruct (h_first h);
            rewrite <- ?app_assoc; reflexivity|].
    destruct Hr as [[-> ->]|Hr]; [left | right; exact Hr].
    split; [|reflexivity]. f_equal. cbn [length]. lia.
Qed.

(** ** The deck exporter *)

(** The steps of the guarded part of [export_deck], one case each. *)
Lemma export_notes_cases L deck out media notes_info w :
  match os_makedirs (category_dir L deck out) w with
  | (Raise e, w1) => export_notes L deck out media notes_info w = (Raise e, w1)
  | (Ok _, w1) =>
      match writable_at (w_tree w1) (w_cwd w1) (csv_path_of L deck out) with
      | None => export_notes L deck out media notes_info w = (Ok 0, w1)
      | Some k =>
          match and_then (result_field notes_info) iterate with
          | Raise _ =>
              export_notes L deck out media notes_info w
              = (Ok 0, close_text (opened w1 k))
          | Ok note_list =>
              match write_notes L (media_subfolder_of L deck) media
                      note_list 0 (opened w1 k) with
              | (Ok n, w3) =>
                  export_notes L deck out media notes_info w
                  = (Ok n, close_text w3)
              | (Raise _, w3) =>
                  export_notes L deck out media notes_info w
                  = (Ok 0, close_text w3)
              end
          end
      end
  end.
Proof.
  unfold export_notes, category_dir, csv_path_of, bind.
  destruct (os_makedirs _ w) as [[[]|e] w1]; [|reflexivity].
  unfold try_except, with_open_text, open_text, opened, lift.
  destruct (writable_at _ _ _) as [k|]; [|reflexivity].
  destruct (result_field notes_info) as [notes|e]; [|reflexivity].
  cbn [and_then].
  destruct (iterate notes) as [nl|e]; [|reflexivity].
  destruct (write_notes _ _ _ _ _ _) as [[n|e] w3]; reflexivity.
Qed.

Lemma dirs_kept_insert t1 t3 k n :
  dirs_kept t1 t3 -> is_dir_key t1 k = false -> dirs_kept t1 (<[k := n]> t3).
Proof.
  intros K Hk k' H. unfold is_dir_key.
  rewrite lookup_node_insert_ne; [apply K, H|].
  intros ->. rewrite Hk in H. discriminate.
Qed.

(** Reading back a file that was written at [k], where [p] led when the
    directories of [t1] were there. *)
Lemma read_file_written t1 t3 cwd p k data :
  writable_at t1 cwd p = Some k -> dirs_kept t1 t3 ->
  read_file (<[k := File data]> t3) cwd p = Some data.
Proof.
  intros H K. apply writable_at_spec in H as (Hr & Hd & Hk).
  unfold read_file, resolve in *. destruct (str_eqb p []); [discriminate|].
  rewrite (walk_dirs_kept t1 _ _ _ k (dirs_kept_insert _ _ _ _ K Hd) Hr).
  now rewrite lookup_node_insert_eq.
Qed.

(** The file once the loop over the notes has ended and the file is
    closed: the rows of the notes before the first failure. *)
Lemma loop_file L deck out media note_list w1 k r w3 :
  writable_at (w_tree w1) (w_cwd w1) (csv_path_of L deck out) = Some k ->
  write_notes L (media_subfolder_of L deck) media note_list 0 (opened w1 k)
  = (r, w3) ->
  exists done rest rows data,
    note_list = done ++ rest
    /\ Forall2 (fun note row =>
                  row_of L (media_subfolder_of L deck) note = Ok row)
               done rows
    /\ csv_bytes rows = Some data
    /\ w_tree (close_text w3) !! k = Some (File data)
    /\ read_file (w_tree (close_text w3)) (w_cwd (close_text w3))
         (csv_path_of L deck out) = Some data
    /\ ((r = Ok (Z.of_nat (length note_list)) /\ rest = [])
        \/ ((exists e, r = Raise e) /\ rest <> [])).
Proof.
  intros Hwr Hloop.
  apply (write_notes_spec _ _ _ _ _ _ (Handle k true [])) in Hloop;
    [|reflexivity].
  destruct Hloop as (Hc & Hd & done & rest & rows & data & h' & E & F & Ha
                     & Hh' & Hk & Hdata & Hr).
  cbn [opened set_csv set_tree w_cwd w_tree h_key h_data h_first] in *.
  pose proof (writable_at_spec _ _ _ _ Hwr) as (_ & Hnd & Hne).
  exists done, rest, rows, data.
  split; [exact E|]. split; [exact F|]. split; [exact Ha|].
  unfold close_text. rewrite Hh', Hk, Hdata.
  cbn [set_csv set_tree w_tree w_cwd app].
  split; [apply lookup_insert_eq|]. split; [|exact Hr].
  rewrite Hc. apply (read_file_written (w_tree w1)); [exact Hwr|].
  eapply dirs_kept_trans; [|exact Hd]. now apply insert_dirs_kept.
Qed.

(** Once the category directory is there and the file can be opened, the
    export returns a count and leaves in the file the rows of the notes
    up to the first failure: all of them and their number, or fewer and
    zero. *)
Lemma export_notes_spec L deck out media notes note_list w w1 k :
  os_makedirs (category_dir L deck out) w = (Ok tt, w1) ->
  writable_at (w_tree w1) (w_cwd w1) (csv_path_of L deck out) = Some k ->
  iterate notes = Ok note_list ->
  exists n w' done rest rows data,
    export_notes L deck out media (Result notes) w = (Ok n, w')
    /\ note_list = done ++ rest
    /\ Forall2 (fun note row =>
                  row_of L (media_subfolder_of L deck) note = Ok row)
               done rows
    /\ csv_bytes rows = Some data
    /\ w_tree w' !! k = Some (File data)
    /\ read_file (w_tree w') (w_cwd w') (csv_path_of L deck out) = Some data
    /\ ((n = Z.of_nat (length note_list) /\ rest = [])
        \/ (n = 0 /\ rest <> [])).
Proof.
  intros Hm Hwr Hit.
  pose proof (export_notes_cases L deck out media (Result notes) w) as C.
  cbn [result_field and_then] in C. rewrite Hm, Hwr, Hit in C.
  destruct (write_notes _ _ _ _ _ _) as [r w3] eqn:Hloop.
  destruct (loop_file _ _ _ _ _ _ _ _ _ Hwr Hloop)
    as (done & rest & rows & data & E & F & Hb & Hf1 & Hf2 & Hr).
  destruct Hr as [[-> ->]|[[e ->] Hrest]].
  - exists (Z.of_nat (length note_list)), (close_text w3),
      done, [], rows, data. auto 10.
  - exists 0, (close_text w3), done, rest, rows, data. auto 10.
Qed.

(** The two lookups of [export_deck], one case each. *)
Lemma export_deck_cases L deck out media w :
  let q := FindNotes (deck_query deck) in
  match w_anki w (w_calls w) q with
  | Failed => export_deck L deck out media w = (Ok 0, add_call w q)
  | NoResult => export_deck L deck out media w = (Raise KeyError, add_call w q)
  | Result note_ids =>
      match w_anki w (q :: w_calls w) (NotesInfo note_ids) with
      | Failed =>
          export_deck L deck out media w = (Ok 0, looked_up w deck note_ids)
      | notes_info =>
          export_deck L deck out media w
          = export_notes L deck out media notes_info
              (looked_up w deck note_ids)
      end
  end.
Proof.
  unfold export_deck, bind, request, looked_up.
  cbn [w_anki w_calls add_call].
  destruct (w_anki w (w_calls w) (FindNotes (deck_query deck))) as [| |ids];
    [reflexivity | reflexivity |].
  cbn [w_anki w_calls add_call].
  destruct (w_anki w _ (NotesInfo ids)); reflexivity.
Qed.

Lemma export_deck_found L deck out media w note_ids notes :
  notes_of w deck = Some (note_ids, notes) ->
  export_deck L deck out media w
  = export_notes L deck out media (Result notes) (looked_up w deck note_ids).
Proof.
  unfold notes_of. intros H.
  pose proof (export_deck_cases L deck out media w) as C. cbv zeta in C.
  destruct (w_anki w (w_calls w) _) as [| |ids]; try discriminate.
  destruct (w_anki w _ (NotesInfo ids)) as [| |ns]; try discriminate.
  now injection H as <- <-.
Qed.

(** What the guarded part raises is the exception of the creation of the
    category directory. *)
Lemma export_notes_raise L deck out media notes_info w e w' :
  export_notes L deck out media notes_info w = (Raise e, w') ->
  os_makedirs (category_dir L deck out) w = (Raise e, w').
Proof.
  pose proof (export_notes_cases L deck out media notes_info w) as C.
  destruct (os_makedirs _ w) as [[[]|e1] w1]; [|congruence].
  destruct (writable_at _ _ _); [|congruence].
  destruct (and_then _ _); [|congruence].
  destruct (write_notes _ _ _ _ _ _) as [[?|?] ?]; congruence.
Qed.

(** A response without result to the second lookup: the file is opened and
    the loop raises at once. *)
Lemma export_notes_no_result L deck out media w n w' :
  export_notes L deck out media NoResult w = (Ok n, w') -> n = 0.
Proof.
  pose proof (export_notes_cases L deck out media NoResult w) as C.
  cbn [result_field and_then] in C.
  destruct (os_makedirs _ w) as [[[]|e] w1]; [|congruence].
  destruct (writable_at _ _ _); congruence.
Qed.

(** An export that returns a count other than zero got a result from both
    lookups. *)
Lemma export_deck_counted L deck out media w n w' :
  export_deck L deck out media w = (Ok n, w') -> n <> 0 ->
  exists note_ids notes, notes_of w deck = Some (note_ids, notes).
Proof.
  unfold notes_of. intros H Hn.
  pose proof (export_deck_cases L deck out media w) as C. cbv zeta in C.
  destruct (w_anki w (w_calls w) _) as [| |ids]; [congruence | congruence |].
  destruct (w_anki w _ (NotesInfo ids)) as [| |ns]; [congruence | | eauto].
  rewrite H in C. symmetry in C. apply export_notes_no_result in C.
  contradiction.
Qed.

(** [total += export_deck(deck, ...)], then the next deck. *)
Lemma export_all_cons L deck others out media total w :
  export_all L (JStr deck :: others) out media total w
  = match export_deck L deck out media w with
    | (Ok n, w') => export_all L others out media (total + n) w'
    | (Raise e, w') => (Raise e, w')
    end.
Proof. reflexivity. Qed.

(** ** The desktop application's copy *)

Lemma gui_retrieve L filename sub base w :
  Gui.retrieve_media_from_anki L filename sub base w
  = retrieve_media_from_anki L filename sub base w.
Proof.
  unfold Gui.retrieve_media_from_anki, retrieve_media_from_anki, bind.
  destruct (os_makedirs _ w) as [[[]|e] w1]; [|reflexivity].
  destruct (os_path_exists _ w1) as [[[|]|e] w2]; try reflexivity.
  unfold try_except, Gui.anki_request, bind, request, raise, ret.
  destruct (w_anki w2 (w_calls w2) (RetrieveMediaFile filename));
    reflexivity.
Qed.

Lemma gui_process_matches L matches text sub base w :
  Gui.process_matches L matches text sub base w
  = process_matches L matches text sub base w.
Proof.
  revert text w. induction matches as [|f rest IH]; intros text w;
    [reflexivity|].
  cbn [Gui.process_matches process_matches]. unfold bind.
  rewrite gui_retrieve.
  destruct (retrieve_media_from_anki L f sub base w) as [[b|e] w1];
    [apply IH | reflexivity].
Qed.

Lemma gui_field_column L sub base o w :
  Gui.field_column L sub base o w = field_column L sub base o w.
Proof.
  unfold Gui.field_column, field_column, bind.
  destruct (lift _ w) as [[v|e] w1]; [|reflexivity].
  destruct v; try reflexivity. apply gui_process_matches.
Qed.

Lemma mapM_ext {A B} (f g : A -> M B) l w :
  (forall a v, f a v = g a v) -> mapM f l w = mapM g l w.
Proof.
  intros H. revert w. induction l as [|a r IH]; intros w; [reflexivity|].
  cbn [mapM]. unfold bind. rewrite H.
  destruct (g a w) as [[b|e] w1]; [|reflexivity].
  rewrite IH. reflexivity.
Qed.

Lemma gui_note_row L sub base note w :
  Gui.note_row L sub base note w = note_row L sub base note w.
Proof.
  unfold Gui.note_row, note_row, bind.
  destruct (lift _ w) as [[fields|e] w1]; [|reflexivity].
  destruct (lift _ w1) as [[objs|e] w2]; [|reflexivity].
  rewrite (mapM_ext _ _ _ _ (gui_field_column L sub base)). reflexivity.
Qed.

Lemma gui_write_notes L sub base notes count w :
  Gui.write_notes L sub base notes count w
  = write_notes L sub base notes count w.
Proof.
  revert count w. induction notes as [|note rest IH]; intros count w;
    [reflexivity|].
  cbn [Gui.write_notes write_notes]. unfold bind. rewrite gui_note_row.
  destruct (note_row L sub base note w) as [[row|e] w1]; [|reflexivity].
  destruct (writerow row w1) as [[[]|e] w2]; [apply IH | reflexivity].
Qed.

Lemma gui_export_notes L deck out media notes w :
  Gui.export_notes L deck out media notes w
  = export_notes L deck out media (Result notes) w.
Proof.
  unfold Gui.export_notes, export_notes, bind.
  destruct (os_makedirs _ w) as [[[]|e] w1]; [|reflexivity].
  unfold try_except, with_open_text.
  destruct (open_text _ w1) as [[[]|e] w2]; [|reflexivity].
  cbn [result_field]. unfold bind, lift.
  destruct (iterate notes) as [nl|e]; [|reflexivity].
  rewrite gui_write_notes. reflexivity.
Qed.

(** The desktop copy of [export_deck], one case each: it returns zero
    where a lookup gives no result or finds no note, and does as the
    script where both lookups give a result. *)
Lemma gui_export_deck L deck out media w :
  let q := FindNotes (deck_query deck) in
  match w_anki w (w_calls w) q with
  | Result note_ids =>
      if truthy note_ids then
        match w_anki w (q :: w_calls w) (NotesInfo note_ids) with
        | NoResult =>
            Gui.export_deck L deck out media w
            = (Ok 0, looked_up w deck note_ids)
        | _ =>
            Gui.export_deck L deck out media w
            = export_deck L deck out media w
        end
      else Gui.export_deck L deck out media w = (Ok 0, add_call w q)
  | _ => Gui.export_deck L deck out media w = (Ok 0, add_call w q)
  end.
Proof.
  unfold Gui.export_deck, export_deck, try_except, Gui.anki_request, bind,
    request, raise, ret, looked_up.
  destruct (w_anki w (w_calls w) (FindNotes (deck_query deck))) as [| |ids];
    [reflexivity | reflexivity |].
  destruct (truthy ids); [|reflexivity]. cbn [negb w_anki w_calls add_call].
  destruct (w_anki _ _ (NotesInfo ids)); [reflexivity | reflexivity |].
  apply gui_export_notes.
Qed.


(** ** UTF-8 of a whole text *)

Lemma utf8_encode_app a b :
  utf8_encode (a ++ b)
  = match utf8_encode a, utf8_encode b with
    | Some x, Some y => Some (x ++ y)
    | _, _ => None
    end.
Proof.
  induction a as [|c a IH]; simpl.
  - destruct (utf8_encode b); reflexivity.
  - rewrite IH. destruct (utf8_char c); [|reflexivity].
    destruct (utf8_encode a); [|reflexivity].
    destruct (utf8_encode b); [|reflexivity].
    now rewrite app_assoc.
Qed.

Lemma appended_text rows :
  appended false rows = utf8_encode (concat (map csv_line rows)).
Proof.
  induction rows as [|row rest IH]; [reflexivity|].
  cbn [appended map concat]. rewrite utf8_encode_app, IH.
  destruct (utf8_encode (csv_line row)); [|reflexivity].
  destruct (utf8_encode _); reflexivity.
Qed.

(** A file that holds at least one row is the byte-order mark followed by
    the UTF-8 encoding of its lines. *)
Lemma csv_bytes_text rows data :
  rows <> [] -> csv_bytes rows = Some data ->
  exists encoded,
    utf8_encode (concat (map csv_line rows)) = Some encoded
    /\ data = BOM_UTF8 ++ encoded.
Proof.
  unfold csv_bytes. destruct rows as [|row rest]; [congruence|].
  intros _. cbn [appended map concat]. rewrite utf8_encode_app, appended_text.
  destruct (utf8_encode (csv_line row)); [|discriminate].
  destruct (utf8_encode _); [|discriminate].
  intros [= <-]. eauto.
Qed.




(** C3, as the code has it.  A note whose record makes the row
    construction raise ends the export of its deck: [export_deck] returns
    zero (the exception is caught there), and the file is left with the
    rows of notes that came before the failing one; neither that note nor
    any note after it is written or counted. *)
Theorem note_failure_aborts_deck (L : pylib) (deck out media : str)
    (w : world) (note_ids notes : json) (pre post : list json) (bad : json)
    (e : exn) (w1 : world) (k : list str) :
  notes_of w deck = Some (note_ids, notes) ->
  iterate notes = Ok (pre ++ bad :: post) ->
  row_of L (media_subfolder_of L deck) bad = Raise e ->
  os_makedirs (category_dir L deck out) (looked_up w deck note_ids)
  = (Ok tt, w1) ->
  writable_at (w_tree w1) (w_cwd w1) (csv_path_of L deck out) = Some k ->
  exists w' done skipped rows data,
    export_deck L deck out media w = (Ok 0, w')
    /\ pre = done ++ skipped
    /\ Forall2 (fun note row =>
                  row_of L (media_subfolder_of L deck) note = Ok row)
               done rows
    /\ csv_bytes rows = Some data
    /\ read_file (w_tree w') (w_cwd w') (csv_path_of L deck out) = Some data.
Proof.
  intros Hn Hit Hbad Hm Hwr.
  pose proof (export_deck_found L deck out media w _ _ Hn) as C.
  destruct (export_notes_spec L deck out media notes _ _ _ k Hm Hwr Hit)
    as (n & w' & done & rest & rows & data & E & Hnl & F & Hb & _ & Hrd & Hr).
  assert (Hpre : exists skipped, pre = done ++ skipped /\ rest <> []).
  { apply app_eq_app in Hnl as [l [[-> Hl]|[-> Hl]]].
    - exists l. split; [reflexivity|]. subst rest. now destruct l.
    - destruct l as [|b l].
      + exists []. rewrite !app_nil_r. simpl in Hl. subst rest.
        split; [reflexivity | discriminate].
      + injection Hl as <- _. exfalso.
        apply Forall2_app_inv_l in F as (r1 & r2 & _ & F2 & _).
        inversion F2 as [|? row ? ? Hrow]. congruence. }
  destruct Hpre as (skipped & -> & Hrest).
  destruct Hr as [[_ ->]|[-> _]]; [congruence|].
  exists w', done, skipped, rows, data. rewrite C. auto.
Qed.

(** [note_failure_aborts_deck] with three notes, the second flawed. *)
Lemma note_failure_aborts_deck_witness :
  let w := fresh (host_with flawed_notes) in
  exists w' done skipped rows data,
    export_deck sample_lib (py "Math::Algebra") (py "decks") (py "media") w
    = (Ok 0, w')
    /\ [note_record (py "Q1") [py "t"]] = done ++ skipped
    /\ Forall2 (fun note row =>
                  row_of sample_lib
                    (media_subfolder_of sample_lib (py "Math::Algebra")) note
                  = Ok row)
               done rows
    /\ csv_bytes rows = Some data
    /\ read_file (w_tree w') (w_cwd w')
         (csv_path_of sample_lib (py "Math::Algebra") (py "decks"))
       = Some data.
Proof.
  intros w.
  refine (note_failure_aborts_deck sample_lib (py "Math::Algebra")
            (py "decks") (py "media") w (JArr [JNum 1]) flawed_notes
            [note_record (py "Q1") [py "t"]] [note_record (py "Q3") []]
            (JObj [(py "tags", JArr [])]) KeyError
            (os_makedirs (py "decks/math")
               (looked_up w (py "Math::Algebra") (JArr [JNum 1]))).2
            [py "algebra.csv"; py "math"; py "decks"] _ _ _ _ _);
    vm_compute; reflexivity.
Defined.

(** The third note is well formed, yet after the flawed second one it is
    neither written nor counted. *)
Lemma note_isolation_counterexample :
  let out := export_deck sample_lib (py "Math::Algebra") (py "decks")
               (py "media") (fresh (host_with flawed_notes)) in
  out.1 = Ok 0
  /\ row_of sample_lib (py "algebra") (note_record (py "Q3") [])
     = Ok [py "Q3"; []]
  /\ read_file (w_tree out.2) (w_cwd out.2)
       (csv_path_of sample_lib (py "Math::Algebra") (py "decks"))
     = csv_bytes [[py "Q1"; py "t"]].
Proof. vm_compute. repeat split. Qed.

(** An exception in the loop over the notes is caught: zero. *)
Lemma export_deck_loop_raise L deck out media w note_ids notes w1 k
    note_list e w3 :
  notes_of w deck = Some (note_ids, notes) ->
  os_makedirs (category_dir L deck out) (looked_up w deck note_ids)
  = (Ok tt, w1) ->
  writable_at (w_tree w1) (w_cwd w1) (csv_path_of L deck out) = Some k ->
  iterate notes = Ok note_list ->
  write_notes L (media_subfolder_of L deck) media note_list 0 (opened w1 k)
  = (Raise e, w3) ->
  export_deck L deck out media w = (Ok 0, close_text w3).
Proof.
  intros Hn Hm Hwr Hit Hloop.
  pose proof (export_deck_found L deck out media w _ _ Hn) as C.
  pose proof (export_notes_cases L deck out media (Result notes)
                (looked_up w deck note_ids)) as D.
  cbn [result_field and_then] in D.
  rewrite Hm, Hwr, Hit, Hloop in D. congruence.
Qed.

(** C4, as the code has it.  A failure to open the CSV file, or any
    exception raised while its rows are written, ends the export of that
    deck only: [export_deck] returns zero and raises nothing, and the
    driver goes on with the next deck, its total unchanged.  What
    [export_deck] can raise comes from before the guarded block: the
    exception of the creation of the category directory, or the missing
    result of the response to the first lookup. *)
Theorem write_failure_is_contained (L : pylib) (deck out media : str)
    (w : world) :
  (forall e w',
     export_deck L deck out media w = (Raise e, w') ->
     (w_anki w (w_calls w) (FindNotes (deck_query deck)) = NoResult
      /\ e = KeyError
      /\ w' = add_call w (FindNotes (deck_query deck)))
     \/ exists note_ids,
          w_anki w (w_calls w) (FindNotes (deck_query deck)) = Result note_ids
          /\ os_makedirs (category_dir L deck out) (looked_up w deck note_ids)
             = (Raise e, w'))
  /\ (forall note_ids notes w1,
        notes_of w deck = Some (note_ids, notes) ->
        os_makedirs (category_dir L deck out) (looked_up w deck note_ids)
        = (Ok tt, w1) ->
        writable_at (w_tree w1) (w_cwd w1) (csv_path_of L deck out) = None ->
        export_deck L deck out media w = (Ok 0, w1))
  /\ (forall note_ids notes w1 k note_list e w3,
        notes_of w deck = Some (note_ids, notes) ->
        os_makedirs (category_dir L deck out) (looked_up w deck note_ids)
        = (Ok tt, w1) ->
        writable_at (w_tree w1) (w_cwd w1) (csv_path_of L deck out)
        = Some k ->
        iterate notes = Ok note_list ->
        write_notes L (media_subfolder_of L deck) media note_list 0
          (opened w1 k) = (Raise e, w3) ->
        export_deck L deck out media w = (Ok 0, close_text w3))
  /\ (forall n w' others total,
        export_deck L deck out media w = (Ok n, w') ->
        export_all L (JStr deck :: others) out media total w
        = export_all L others out media (total + n) w').
Proof.
  split; [|split; [|split]].
  - intros e w' H.
    pose proof (export_deck_cases L deck out media w) as C. cbv zeta in C.
    destruct (w_anki w (w_calls w) _) as [| |ids];
      [congruence | left; rewrite H in C; now injection C as -> -> | right].
    exists ids. split; [reflexivity|].
    assert (D : exists info,
      export_deck L deck out media w
      = export_notes L deck out media info (looked_up w deck ids)).
    { destruct (w_anki w _ (NotesInfo ids)); [congruence | eauto | eauto]. }
    destruct D as (info & D). rewrite H in D. symmetry in D.
    now apply export_notes_raise in D.
  - intros ids notes w1 Hn Hm Hwr.
    pose proof (export_deck_found L deck out media w _ _ Hn) as C.
    pose proof (export_notes_cases L deck out media (Result notes)
                  (looked_up w deck ids)) as D.
    rewrite Hm, Hwr in D. congruence.
  - intros ids notes w1 k nl e w3. apply export_deck_loop_raise.
  - intros n w' others total H. rewrite export_all_cons, H. reflexivity.
Qed.

(** A regular file in the place of the category directory: the export of
    the deck raises, the run stops, and the next deck is not exported. *)
Lemma directory_failure_counterexample :
  let w := blocked (host_with flawed_notes) in
  let run := export_all sample_lib
               [JStr (py "Math::Algebra"); JStr (py "Vocabulary")]
               (py "decks") (py "media") 0 w in
  (export_deck sample_lib (py "Math::Algebra") (py "decks") (py "media") w).1
  = Raise OSError
  /\ run.1 = Raise OSError
  /\ read_file (w_tree run.2) (w_cwd run.2)
       (csv_path_of sample_lib (py "Vocabulary") (py "decks")) = None.
Proof. vm_compute. repeat split. Qed.

(** *** The loop up to the note that raises *)

Lemma write_notes_app L sub base first later count w :
  write_notes L sub base (first ++ later) count w
  = match write_notes L sub base first count w with
    | (Ok n, w') => write_notes L sub base later n w'
    | (Raise e, w') => (Raise e, w')
    end.
Proof.
  revert count w. induction first as [|note first IH]; intros count w;
    [reflexivity|].
  cbn [app write_notes]. unfold bind.
  destruct (note_row L sub base note w) as [[row|e] w1]; [|reflexivity].
  destruct (writerow row w1) as [[[]|e] w2]; [apply IH | reflexivity].
Qed.

(** A loop that raises wrote the rows of the notes before one note, and
    raised at that note. *)
Lemma write_notes_raise_split L sub base notes count w e w3 :
  write_notes L sub base notes count w = (Raise e, w3) ->
  exists done bad rest n w2,
    notes = done ++ bad :: rest
    /\ write_notes L sub base done count w = (Ok n, w2)
    /\ write_notes L sub base [bad] n w2 = (Raise e, w3).
Proof.
  revert count w. induction notes as [|note notes IH]; intros count w;
    [discriminate|].
  intros H.
  destruct (write_notes L sub base [note] count w) as [[n|e1] w1] eqn:H1.
  - change (note :: notes) with ([note] ++ notes) in H.
    rewrite write_notes_app, H1 in H.
    destruct (IH _ _ H) as (done & bad & rest & n' & w2 & -> & Hd & Hb).
    exists (note :: done), bad, rest, n', w2.
    split; [reflexivity|]. split; [|exact Hb].
    change (note :: done) with ([note] ++ done).
    now rewrite write_notes_app, H1.
  - change (note :: notes) with ([note] ++ notes) in H.
    rewrite write_notes_app, H1 in H. injection H as -> ->.
    now exists [], note, notes, count, w.
Qed.

(** C10.  When the loop over the notes has written the rows of the first
    notes and raises at the next one, [export_deck] returns zero, so the
    deck adds nothing to the total of the run, and the file stays on disk
    with exactly what was written: one row for each of the notes before
    the one that raised, in order, after the byte-order mark when there is
    at least one.  Every loop that raises is of this kind. *)
Theorem partial_file_left (L : pylib) (deck out media : str) (w : world)
    (note_ids notes : json) (w1 : world) (k : list str)
    (done rest : list json) (bad : json) (n : Z) (w2 : world)
    (e : exn) (w3 : world) :
  notes_of w deck = Some (note_ids, notes) ->
  os_makedirs (category_dir L deck out) (looked_up w deck note_ids)
  = (Ok tt, w1) ->
  writable_at (w_tree w1) (w_cwd w1) (csv_path_of L deck out) = Some k ->
  iterate notes = Ok (done ++ bad :: rest) ->
  write_notes L (media_subfolder_of L deck) media done 0 (opened w1 k)
  = (Ok n, w2) ->
  write_notes L (media_subfolder_of L deck) media [bad] n w2
  = (Raise e, w3) ->
  export_deck L deck out media w = (Ok 0, close_text w3)
  /\ (exists rows data,
        Forall2 (fun note row =>
                   row_of L (media_subfolder_of L deck) note = Ok row)
                done rows
        /\ n = Z.of_nat (length rows)
        /\ csv_bytes rows = Some data
        /\ read_file (w_tree (close_text w3)) (w_cwd (close_text w3))
             (csv_path_of L deck out) = Some data
        /\ (done <> [] ->
            exists encoded,
              utf8_encode (concat (map csv_line rows)) = Some encoded
              /\ data = BOM_UTF8 ++ encoded))
  /\ (forall others total,
        export_all L (JStr deck :: others) out media total w
        = export_all L others out media total (close_text w3))
  /\ (forall note_list e' w',
        write_notes L (media_subfolder_of L deck) media note_list 0
          (opened w1 k) = (Raise e', w') ->
        exists done' bad' rest' n' w2',
          note_list = done' ++ bad' :: rest'
          /\ write_notes L (media_subfolder_of L deck) media done' 0
               (opened w1 k) = (Ok n', w2')
          /\ write_notes L (media_subfolder_of L deck) media [bad'] n' w2'
             = (Raise e', w')).
Proof.
  intros Hn Hm Hwr Hit Hdone Hbad.
  assert (Hloop : write_notes L (media_subfolder_of L deck) media
                    (done ++ bad :: rest) 0 (opened w1 k) = (Raise e, w3)).
  { rewrite write_notes_app, Hdone.
    change (bad :: rest) with ([bad] ++ rest).
    now rewrite write_notes_app, Hbad. }
  assert (Hexp : export_deck L deck out media w = (Ok 0, close_text w3)).
  { exact (export_deck_loop_raise _ _ _ _ _ _ _ _ _ _ _ _
             Hn Hm Hwr Hit Hloop). }
  split; [exact Hexp|]. split; [|split].
  - pose proof Hdone as Hs.
    apply (write_notes_spec _ _ _ _ _ _ (Handle k true [])) in Hs;
      [|reflexivity].
    destruct Hs as (Hc2 & Hd2 & done1 & rest1 & rows & data & h2 & E1 & F1
                    & Ha1 & Hh2 & Hk2 & Hdata2 & Hr1).
    destruct Hr1 as [[Hcount ->]|[[e1 [=]] _]].
    rewrite app_nil_r in E1. subst done1.
    pose proof Hbad as Hs.
    apply (write_notes_spec _ _ _ _ _ _ h2) in Hs; [|exact Hh2].
    destruct Hs as (Hc3 & Hd3 & done2 & rest2 & rows2 & data2 & h3 & E2 & F2
                    & Ha2 & Hh3 & Hk3 & Hdata3 & Hr2).
    destruct Hr2 as [[[=] _]|[_ Hrest2]].
    assert (done2 = []) as ->.
    { destruct done2 as [|x [|y l]]; [reflexivity | |discriminate].
      injection E2 as _ <-. congruence. }
    inversion F2. subst rows2. cbn [appended] in Ha2. injection Ha2 as <-.
    rewrite app_nil_r in Hdata3.
    cbn [opened set_csv set_tree w_cwd w_tree h_key h_data h_first] in *.
    exists rows, data. split; [exact F1|].
    split.
    { injection Hcount as ->. rewrite Z.add_0_l.
      now rewrite (Forall2_length _ _ _ F1). }
    split; [exact Ha1|]. split.
    + unfold close_text. rewrite Hh3, Hk3, Hk2, Hdata3, Hdata2.
      cbn [set_csv set_tree w_tree w_cwd app].
      rewrite Hc3, Hc2. apply (read_file_written (w_tree w1)); [exact Hwr|].
      pose proof (writable_at_spec _ _ _ _ Hwr) as (_ & Hnd & _).
      eapply dirs_kept_trans; [|exact Hd3].
      eapply dirs_kept_trans; [|exact Hd2]. now apply insert_dirs_kept.
    + intros Hne. apply csv_bytes_text; [|exact Ha1].
      intros ->. inversion F1. congruence.
  - intros others total. rewrite export_all_cons, Hexp.
    now rewrite Z.add_0_r.
  - intros nl e' w'. apply write_notes_raise_split.
Qed.

(** [partial_file_left] with three notes, the second flawed: the file is
    left with the row of the first. *)
Lemma partial_file_left_witness :
  let w := fresh (host_with flawed_notes) in
  let out := export_deck sample_lib (py "Math::Algebra") (py "decks")
               (py "media") w in
  out.1 = Ok 0
  /\ read_file (w_tree out.2) (w_cwd out.2)
       (csv_path_of sample_lib (py "Math::Algebra") (py "decks"))
     = csv_bytes [[py "Q1"; py "t"]].
Proof.
  intros w out.
  pose (w1 := (os_makedirs (py "decks/math")
                 (looked_up w (py "Math::Algebra") (JArr [JNum 1]))).2).
  pose (first := write_notes sample_lib (py "algebra") (py "media")
                   [note_record (py "Q1") [py "t"]] 0
                   (opened w1 [py "algebra.csv"; py "math"; py "decks"])).
  pose (second := write_notes sample_lib (py "algebra") (py "media")
                    [JObj [(py "tags", JArr [])]] 1 first.2).
  destruct (partial_file_left sample_lib (py "Math::Algebra") (py "decks")
              (py "media") w (JArr [JNum 1]) flawed_notes w1
              [py "algebra.csv"; py "math"; py "decks"]
              [note_record (py "Q1") [py "t"]] [note_record (py "Q3") []]
              (JObj [(py "tags", JArr [])]) 1 first.2 KeyError second.2)
    as (Hexp & (rows & data & F & _ & Hb & Hrd & _) & _);
    try (vm_compute; reflexivity).
  unfold out. rewrite Hexp. cbn [fst snd]. split; [reflexivity|].
  rewrite Hrd, <- Hb.
  inversion F as [|? row ? rows' Hrow F']. subst. inversion F'. subst.
  vm_compute in Hrow. now injection Hrow as <-.
Defined.

(** ** The run *)

(** Once the destination is there and the host has listed its decks, the
    run exports the selected decks, in their order, and ends with their
    total. *)
Lemma main_runs_selection L prog target_dir rest w w1 w2 all_decks decks :
  isdir_in (w_tree w) (w_cwd w) target_dir = true ->
  os_makedirs (path_join target_dir (py "decks")) w = (Ok tt, w1) ->
  os_makedirs (path_join target_dir (py "media")) w1 = (Ok tt, w2) ->
  w_anki w2 (w_calls w2) DeckNames = Result all_decks ->
  truthy all_decks = true ->
  select_decks L all_decks (head rest) = Ok (Decks (JArr decks)) ->
  decks <> [] ->
  main L (prog :: target_dir :: rest) w
  = match export_all L decks (path_join target_dir (py "decks"))
            (path_join target_dir (py "media")) 0 (add_call w2 DeckNames) with
    | (Ok total, w') => (Ok (Finished total), w')
    | (Raise e, w') => (Raise e, w')
    end.
Proof.
  intros Hd H1 H2 Hr Ht Hs Hne.
  unfold main, bind, os_path_isdir. rewrite Hd. cbn [negb].
  rewrite H1, H2. unfold request. rewrite Hr, Ht. cbn [negb].
  unfold lift. rewrite Hs.
  destruct decks as [|d ds]; [congruence|]. cbn [truthy negb iterate].
  destruct (export_all _ _ _ _ _ _) as [[total|e] w']; reflexivity.
Qed.

(** * Further properties of the code *)

(** ** Sanitized names as path segments *)

Lemma join_chars (P : Z -> Prop) sep parts :
  (forall c, In c sep -> P c) ->
  (forall p c, In p parts -> In c p -> P c) ->
  forall c, In c (join sep parts) -> P c.
Proof.
  intros Hsep. induction parts as [|p rest IH]; intros Hp c; [simpl; tauto|].
  destruct rest as [|q rest].
  - simpl. intros H. apply (Hp p); [now left | assumption].
  - rewrite join_cons by discriminate. rewrite !in_app_iff.
    intros [H|[H|H]].
    + apply (Hp p); [now left | assumption].
    + now apply Hsep.
    + apply IH; [|assumption]. intros p' c' Hin. apply Hp. now right.
Qed.

(** Every path segment the exporter derives from a deck name (the
    category directory, the stem of the CSV file, the media folder) is made
    of lowercase ASCII letters, digits and underscores only, whatever the
    deck name: it holds no slash, no dot, no whitespace, and is never a
    reference to the current or the parent directory. *)
Theorem deck_segments_are_safe (L : pylib) (deck_name : str) :
  let seg_ok (seg : str) :=
    (forall c, In c seg -> is_slug c = true)
    /\ ~ In 47 seg /\ ~ In 46 seg /\ ~ In 92 seg
    /\ (forall c, In c seg -> isspace c = false)
    /\ is_here seg = str_eqb seg [] /\ is_up seg = false in
  seg_ok (csv_target L deck_name).1
  /\ seg_ok (csv_target L deck_name).2
  /\ seg_ok (media_subfolder_of L deck_name)
  /\ seg_ok (slugify L deck_name).
Proof.
  assert (Hok : forall seg,
    (forall c, In c seg -> is_slug c = true) ->
    (forall c, In c seg -> is_slug c = true)
    /\ ~ In 47 seg /\ ~ In 46 seg /\ ~ In 92 seg
    /\ (forall c, In c seg -> isspace c = false)
    /\ is_here seg = str_eqb seg [] /\ is_up seg = false).
  { intros seg H. split; [exact H|].
    split; [intros Hc; apply H in Hc; discriminate|].
    split; [intros Hc; apply H in Hc; discriminate|].
    split; [intros Hc; apply H in Hc; discriminate|].
    split; [intros c Hc; apply slug_not_space; auto|].
    split.
    - unfold is_here. destruct (str_eqb seg []); [reflexivity|]. simpl.
      apply bool_decide_eq_false. intros ->.
      specialize (H 46 (or_introl eq_refl)). discriminate.
    - unfold is_up. apply bool_decide_eq_false. intros ->.
      specialize (H 46 (or_introl eq_refl)). discriminate. }
  assert (Hdivers : forall c, In c (py "divers") -> is_slug c = true).
  { intros c Hc. vm_compute in Hc.
    repeat (destruct Hc as [<-|Hc]; [reflexivity|]). destruct Hc. }
  assert (Hjoin : forall parts c,
    In c (join (py "_") (map (slugify L) parts)) -> is_slug c = true).
  { intros parts. apply (join_chars (fun c => is_slug c = true)).
    - intros c Hc. vm_compute in Hc. destruct Hc as [<-|[]]. reflexivity.
    - intros p c Hp. apply in_map_iff in Hp as (q & <- & _).
      apply slugify_chars. }
  cbv zeta. unfold csv_target, media_subfolder_of.
  destruct (length (split hierarchy_sep deck_name) =? 1)%nat; cbn [fst snd].
  - split; [apply Hok, Hdivers|].
    repeat split; apply Hok; intros c; apply slugify_chars.
  - split; [apply Hok; intros c; apply slugify_chars|].
    split; [apply Hok, Hjoin|].
    split; apply Hok; intros c; apply slugify_chars.
Qed.

(** ** Names that sanitize alike *)

Lemma lower_ascii_kept c :
  (is_word (lower_ascii c) || isspace (lower_ascii c)
   || (lower_ascii c =? hyphen))
  = (is_word c || isspace c || (c =? hyphen)).
Proof.
  unfold lower_ascii. destruct (is_upper c) eqn:Hu; [|reflexivity].
  assert (Hw : is_word c = true) by (unfold is_word; rewrite Hu; now rewrite orb_true_r).
  assert (Hw' : is_word (c + 32) = true) by char_case.
  now rewrite Hw, Hw'.
Qed.

Lemma lower_ascii_space c : isspace (lower_ascii c) = isspace c.
Proof.
  unfold lower_ascii. destruct (is_upper c) eqn:Hu; [|reflexivity].
  assert (H1 : isspace c = false) by char_case.
  assert (H2 : isspace (c + 32) = false) by char_case.
  now rewrite H1, H2.
Qed.

Lemma lower_ascii_ascii c : is_ascii c = true -> is_ascii (lower_ascii c) = true.
Proof.
  unfold lower_ascii. destruct (is_upper c) eqn:Hu; [|auto].
  intros _. char_case.
Qed.

Lemma lower_ascii_twice c : lower_ascii (lower_ascii c) = lower_ascii c.
Proof.
  unfold lower_ascii. destruct (is_upper c) eqn:Hu; [|now rewrite Hu].
  assert (H : is_upper (c + 32) = false) by char_case. now rewrite H.
Qed.

Lemma strip_specials_lower s :
  strip_specials (map lower_ascii s) = map lower_ascii (strip_specials s).
Proof.
  unfold strip_specials. induction s as [|c r IH]; [reflexivity|].
  cbn [map List.filter]. rewrite lower_ascii_kept, IH.
  destruct (is_word c || isspace c || (c =? hyphen)); reflexivity.
Qed.

Lemma lstrip_lower s : lstrip (map lower_ascii s) = map lower_ascii (lstrip s).
Proof.
  induction s as [|c r IH]; [reflexivity|].
  cbn [map lstrip]. rewrite lower_ascii_space, IH.
  destruct (isspace c); reflexivity.
Qed.

Lemma strip_lower s : strip (map lower_ascii s) = map lower_ascii (strip s).
Proof.
  unfold strip, rstrip.
  now rewrite lstrip_lower, <- map_rev, lstrip_lower, map_rev.
Qed.

(** The sanitizer ignores the case of ASCII letters: a name and its
    lowercased form sanitize to the same token, so two deck names that
    differ by letter case only are given the same file name. *)
Theorem slugify_ignores_case (L : pylib) (x : str) :
  nfkd_fixes_ascii L ->
  forallb is_ascii x = true ->
  slugify L (map lower_ascii x) = slugify L x.
Proof.
  intros HL Hx.
  assert (Hl : forallb is_ascii (map lower_ascii x) = true).
  { apply forallb_forall. intros c Hc.
    apply in_map_iff in Hc as (d & <- & Hd).
    apply lower_ascii_ascii. now apply (proj1 (forallb_forall _ _) Hx). }
  rewrite !slugify_ascii by assumption.
  rewrite strip_specials_lower, strip_lower. f_equal.
  rewrite map_map. apply map_ext. intros c. apply lower_ascii_twice.
Qed.

(** [slugify_ignores_case] at the name "Math Basics". *)
Lemma slugify_ignores_case_witness :
  slugify sample_lib (map lower_ascii (py "Math Basics"))
  = slugify sample_lib (py "Math Basics").
Proof.
  apply (slugify_ignores_case sample_lib (py "Math Basics")
           sample_nfkd_ascii).
  reflexivity.
Defined.

Lemma lstrip_spaces s : (forall c, In c s -> isspace c = true) -> lstrip s = [].
Proof.
  induction s as [|c r IH]; [reflexivity|]. intros H. simpl.
  rewrite (H c (or_introl eq_refl)). apply IH. intros d Hd. apply H. now right.
Qed.

(** A name in which nothing is a letter, a digit, an underscore or a
    hyphen (punctuation and whitespace only, or characters outside ASCII
    that NFKD does not bring back to ASCII letters; the empty name)
    sanitizes to the empty string, and a deck so named, without hierarchy,
    is written to the file named ".csv" of the fallback category. *)
Theorem slugify_without_word_chars (L : pylib) (x : str) :
  (forall c, In c (normalize_NFKD L x) -> is_ascii c = true ->
             is_word c = false /\ c <> hyphen) ->
  slugify L x = []
  /\ (~ occurs hierarchy_sep x ->
      csv_target L x = (py "divers", [])
      /\ csv_filename L x = py ".csv").
Proof.
  intros H.
  assert (Hs : slugify L x = []).
  { unfold slugify.
    assert (Hsp : forall c,
      In c (strip_specials (ascii_ignore (normalize_NFKD L x))) ->
      isspace c = true).
    { intros c Hc. unfold strip_specials, ascii_ignore in Hc.
      apply filter_In in Hc as [Hc Hk]. apply filter_In in Hc as [Hc Ha].
      destruct (H c Hc Ha) as [Hw Hh]. rewrite Hw in Hk.
      apply Z.eqb_neq in Hh. rewrite Hh, orb_false_r in Hk. exact Hk. }
    unfold strip. rewrite (lstrip_spaces _ Hsp). reflexivity. }
  split; [exact Hs|]. intros Habs.
  unfold csv_filename, csv_target, split.
  rewrite (split_from_absent _ _ [] Habs). cbn [rev app length Nat.eqb hd fst snd].
  rewrite Hs. split; reflexivity.
Qed.

(** [slugify_without_word_chars] at the name "?! (...)". *)
Lemma slugify_without_word_chars_witness :
  slugify sample_lib (py "?! (...)") = []
  /\ (~ occurs hierarchy_sep (py "?! (...)") ->
      csv_target sample_lib (py "?! (...)") = (py "divers", [])
      /\ csv_filename sample_lib (py "?! (...)") = py ".csv").
Proof.
  apply (slugify_without_word_chars sample_lib (py "?! (...)")).
  intros c Hc Ha. vm_compute in Hc.
  repeat (destruct Hc as [<-|Hc]; [split; [reflexivity | discriminate]|]).
  destruct Hc.
Defined.

(** ** What the scan finds *)

Lemma span_unquoted_spec s a b :
  span_unquoted s = (a, b) ->
  s = a ++ b
  /\ (forall c, In c a -> is_quote c = false)
  /\ match b with
     | [] => True
     | q :: _ => is_quote q = true
     end.
Proof.
  revert a b. induction s as [|c r IH]; intros a b; simpl.
  - intros [= <- <-]. repeat split. intros c [].
  - destruct (is_quote c) eqn:Hq.
    + intros [= <- <-]. repeat split; [intros d []| exact Hq].
    + destruct (span_unquoted r) as [a' b'].
      intros [= <- <-]. destruct (IH _ _ eq_refl) as (-> & Ha & Hb).
      repeat split; [|exact Hb].
      intros d [<-|Hd]; [exact Hq | now apply Ha].
Qed.

Lemma istarts_with_take p s :
  istarts_with p s = true ->
  length (take (length p) s) = length p
  /\ istarts_with p (take (length p) s) = true.
Proof.
  revert s. induction p as [|a p IH]; intros s H.
  - now rewrite take_0.
  - destruct s as [|b s]; [discriminate|]. simpl in H.
    apply andb_true_iff in H as [Hab H]. destruct (IH _ H) as [Hl Hi].
    simpl. now rewrite Hl, Hab, Hi.
Qed.

Lemma match_image_src_spec s name :
  match_image_src s = Some name ->
  exists attr q1 q2 rest,
    s = attr ++ q1 :: name ++ q2 :: rest
    /\ length attr = 4%nat
    /\ istarts_with (py "src=") attr = true
    /\ is_quote q1 = true /\ is_quote q2 = true
    /\ is_image_name name = true
    /\ (forall c, In c name -> is_quote c = false).
Proof.
  unfold match_image_src.
  destruct (istarts_with (py "src=") s) eqn:Hs; [|discriminate].
  destruct (istarts_with_take _ _ Hs) as [Hl Hi].
  change (length (py "src=")) with 4%nat in Hl, Hi.
  destruct (drop 4 s) as [|q1 rest] eqn:Hd; [discriminate|].
  destruct (is_quote q1) eqn:Hq1; [|discriminate].
  destruct (span_unquoted rest) as [nm [|q2 rest']] eqn:Hsp; [discriminate|].
  destruct (is_image_name nm) eqn:Hn; [|discriminate].
  intros [= <-].
  destruct (span_unquoted_spec _ _ _ Hsp) as (-> & Ha & Hq2).
  exists (take 4 s), q1, q2, rest'.
  rewrite <- Hd, take_drop. auto 10.
Qed.

Lemma findall_from_spec s skip name :
  In name (findall_from s skip) ->
  exists pre suf, s = pre ++ suf /\ match_image_src suf = Some name.
Proof.
  revert skip. induction s as [|c r IH]; intros skip; [intros []|].
  cbn [findall_from].
  assert (Hrec : forall k, In name (findall_from r k) ->
    exists pre suf, c :: r = pre ++ suf /\ match_image_src suf = Some name).
  { intros k H. destruct (IH _ H) as (pre & suf & -> & Hm).
    now exists (c :: pre), suf. }
  destruct skip as [|k]; [|apply Hrec].
  destruct (match_image_src (c :: r)) as [nm|] eqn:Hm; [|apply Hrec].
  intros [<-|H]; [|now apply (Hrec _ H)].
  now exists [], (c :: r).
Qed.

(** Every name the scan returns stands in the fragment between two quote
    characters, right after [src=] written in any letter case; it holds no
    quote character itself and ends, after at least one character, with a
    dot and one of the image extensions in any letter case.  The two
    quotes need not be the same, and the name may hold slashes. *)
Theorem scan_finds_quoted_image_names (source name : str) :
  In name (find_image_names source) ->
  (exists before attr q1 q2 after,
     source = before ++ attr ++ q1 :: name ++ q2 :: after
     /\ length attr = 4%nat
     /\ istarts_with (py "src=") attr = true
     /\ is_quote q1 = true /\ is_quote q2 = true)
  /\ is_image_name name = true
  /\ (forall c, In c name -> is_quote c = false)
  /\ (5 <= length name)%nat.
Proof.
  intros H. apply findall_from_spec in H as (pre & suf & -> & Hm).
  apply match_image_src_spec in Hm
    as (attr & q1 & q2 & rest & -> & Hl & Hi & Hq1 & Hq2 & Hn & Hc).
  split; [exists pre, attr, q1, q2, rest; auto|].
  split; [exact Hn|]. split; [exact Hc|].
  unfold is_image_name in Hn. apply existsb_exists in Hn as (ext & He & Hx).
  unfold has_extension in Hx. apply andb_true_iff in Hx as [_ Hx].
  apply Nat.ltb_lt in Hx.
  assert (3 <= length ext)%nat; [|lia].
  vm_compute in He.
  repeat (destruct He as [<-|He]; [simpl; lia|]). destruct He.
Qed.

(** [scan_finds_quoted_image_names] at a reference written in capitals with
    a path in front of the file name. *)
Lemma scan_finds_quoted_image_names_witness :
  (exists before attr q1 q2 after,
     py "<IMG SRC='img/Photo.JPG'>"
     = before ++ attr ++ q1 :: py "img/Photo.JPG" ++ q2 :: after
     /\ length attr = 4%nat
     /\ istarts_with (py "src=") attr = true
     /\ is_quote q1 = true /\ is_quote q2 = true)
  /\ is_image_name (py "img/Photo.JPG") = true
  /\ (forall c, In c (py "img/Photo.JPG") -> is_quote c = false)
  /\ (5 <= length (py "img/Photo.JPG"))%nat.
Proof.
  apply (scan_finds_quoted_image_names (py "<IMG SRC='img/Photo.JPG'>")).
  vm_compute. now left.
Defined.

(** ** References the rewriting misses *)

Lemma contains_head p s : contains p s = false -> starts_with p s = false.
Proof.
  destruct s; cbn [contains]; intros H; now apply orb_false_iff in H.
Qed.

Lemma contains_occurs p s : contains p s = false -> ~ occurs p s.
Proof.
  intros H (a & b & ->). revert H. induction a as [|c a IH]; intros H.
  - apply contains_head in H. simpl app in H.
    now rewrite starts_with_prefix in H.
  - simpl app in H. cbn [contains] in H.
    apply orb_false_iff in H as [_ H]. now apply IH.
Qed.

Lemma rewriting_unchanged sub names text :
  (forall name, In name names ->
     contains (src_attr dquote name) text = false
     /\ contains (src_attr squote name) text = false) ->
  fold_left (rewrite_one sub) names text = text.
Proof.
  induction names as [|name rest IH]; intros H; [reflexivity|].
  cbn [fold_left]. destruct (H name (or_introl eq_refl)) as [Hd Hs].
  assert (E : rewrite_one sub text name = text).
  { unfold rewrite_one.
    rewrite (replace_absent (src_attr dquote name)) by now apply contains_occurs.
    now apply replace_absent, contains_occurs. }
  rewrite E. apply IH. intros n Hn. apply H. now right.
Qed.

(** The scan is more lenient than the rewriting: it ignores letter case
    in [src=] and accepts two different quotes, whereas only the literal
    lowercase attribute with the same quote on both sides is replaced.  So
    a fragment in which no found name stands in such a literal attribute
    comes back unchanged, although its references were found (and
    fetched); unless the media directory cannot be created, the exception
    of that creation being then raised. *)
Theorem found_but_not_rewritten (L : pylib) (source sub base : str)
    (w : world) :
  (forall name, In name (find_image_names source) ->
     contains (src_attr dquote name) source = false
     /\ contains (src_attr squote name) source = false) ->
  let out := process_media_in_text L source sub base w in
  (out.1 = Ok source
   \/ exists e,
        out.1 = Raise e /\ (os_makedirs (path_join base sub) w).1 = Raise e)
  /\ (isdir_in (w_tree w) (w_cwd w) (path_join base sub) = true ->
      out.1 = Ok source).
Proof.
  intros H out. split.
  - unfold out, process_media_in_text.
    pose proof (rewriting_unchanged sub _ _ H) as E.
    destruct (find_image_names source) as [|f rest]; [now left|].
    pose proof (process_matches_cases L f rest source sub base w) as C.
    cbv zeta in C.
    destruct (os_makedirs _ w) as [[[]|e] w1].
    + left. now rewrite C, E.
    + right. exists e. now rewrite C.
  - destruct out as [r w'] eqn:Ho.
    unfold out, process_media_in_text in Ho.
    apply process_matches_result in Ho as (_ & _ & Hd).
    rewrite (rewriting_unchanged sub _ _ H) in Hd. exact Hd.
Qed.

(** [found_but_not_rewritten] at a reference written in capitals: it is
    found, and the text stays as it was. *)
Lemma found_but_not_rewritten_witness :
  let out := process_media_in_text sample_lib (py "<IMG SRC='a.png'>")
               (py "algebra") (py "media") (fresh sample_host) in
  (out.1 = Ok (py "<IMG SRC='a.png'>")
   \/ exists e,
        out.1 = Raise e
        /\ (os_makedirs (path_join (py "media") (py "algebra"))
              (fresh sample_host)).1 = Raise e)
  /\ (isdir_in (w_tree (fresh sample_host)) (w_cwd (fresh sample_host))
        (path_join (py "media") (py "algebra")) = true ->
      out.1 = Ok (py "<IMG SRC='a.png'>")).
Proof.
  apply (found_but_not_rewritten sample_lib (py "<IMG SRC='a.png'>")
           (py "algebra") (py "media") (fresh sample_host)).
  intros name Hn. vm_compute in Hn. destruct Hn as [<-|[]].
  split; vm_compute; reflexivity.
Defined.

(** ** What a fetch leaves on disk *)

Lemma fresh_key t cwd p k :
  writable_at t cwd p = Some k -> exists_in t cwd p = false -> t !! k = None.
Proof.
  intros Hw He. apply writable_at_spec in Hw as (Hr & _ & Hk).
  unfold exists_in in He. rewrite Hr in He.
  apply bool_decide_eq_false in He.
  destruct k as [|c k]; [congruence|]. simpl in He.
  destruct (t !! (c :: k)) eqn:E; [|reflexivity].
  exfalso. apply He. eauto.
Qed.

Lemma insert_fresh_kept (t : gmap (list str) node) k v k' n :
  t !! k = None -> t !! k' = Some n -> <[k := v]> t !! k' = Some n.
Proof.
  intros Hk H. rewrite lookup_insert_ne; [exact H|]. congruence.
Qed.

Lemma retrieve_keeps_nodes L filename sub base w k n :
  w_tree w !! k = Some n ->
  w_tree (retrieve_media_from_anki L filename sub base w).2 !! k = Some n.
Proof.
  intros H.
  pose proof (retrieve_cases L filename sub base w) as C. cbv zeta in C.
  destruct (os_makedirs _ w) as [r1 w1] eqn:Hm.
  destruct (os_makedirs_tree _ _ _ _ Hm) as (_ & _ & E & _).
  apply E in H.
  destruct r1 as [[]|e]; [|now rewrite C].
  destruct (exists_in _ _ _) eqn:Hex; [now rewrite C|].
  destruct (w_anki _ _ _) as [| |v]; [now rewrite C | now rewrite C |].
  destruct (if truthy v then _ else _); [|now rewrite C].
  destruct (writable_at _ _ _) as [k'|] eqn:Hwr; rewrite C; [|exact H].
  cbn [snd set_tree asked add_call w_tree].
  apply insert_fresh_kept; [|exact H]. now apply (fresh_key _ _ _ _ Hwr).
Qed.

(** A fetch that returns true either found the file, or asked the host
    and stored the decoded payload. *)
Lemma retrieve_true L filename sub base w :
  let target_path := path_join (path_join base sub) filename in
  let out := retrieve_media_from_anki L filename sub base w in
  out.1 = Ok true ->
  (w_calls out.2 = w_calls w
   /\ out.2 = (os_makedirs (path_join base sub) w).2)
  \/ (w_calls out.2 = RetrieveMediaFile filename :: w_calls w
      /\ exists r data,
           w_anki w (w_calls w) (RetrieveMediaFile filename) = Result r
           /\ decode_media L r = Ok data
           /\ read_file (w_tree out.2) (w_cwd out.2) target_path = Some data).
Proof.
  intros target_path out.
  pose proof (retrieve_cases L filename sub base w) as C. cbv zeta in C.
  fold target_path out in C.
  destruct (os_makedirs _ w) as [r1 w1] eqn:Hm.
  destruct (os_makedirs_tree _ _ _ _ Hm) as (Hw1 & _).
  assert (Hc : w_calls w1 = w_calls w) by (rewrite Hw1; reflexivity).
  assert (Ha : w_anki w1 = w_anki w) by (rewrite Hw1; reflexivity).
  destruct r1 as [[]|e]; [|rewrite C; discriminate].
  destruct (exists_in _ _ _) eqn:Hex; [rewrite C; left; cbn; auto|].
  rewrite Ha, Hc in C.
  destruct (w_anki w (w_calls w) (RetrieveMediaFile filename)) as [| |r]
    eqn:Hr; [rewrite C; discriminate | rewrite C; discriminate |].
  destruct (truthy r); [|rewrite C; discriminate].
  destruct (decode_media L r) as [data|e] eqn:Hdec;
    [|rewrite C; discriminate].
  destruct (writable_at _ _ _) as [k|] eqn:Hwr; [|rewrite C; discriminate].
  rewrite C. intros _. right.
  cbn [fst snd set_tree asked add_call w_tree w_cwd w_calls].
  split; [now rewrite Hc|]. exists r, data.
  split; [reflexivity|]. split; [exact Hdec|].
  apply (read_file_written (w_tree w1)); [exact Hwr | apply dirs_kept_refl].
Qed.

(** The fetcher never removes, replaces or truncates anything that is on
    disk: whatever it returns or raises, every file keeps its contents and
    every directory stays.  When it returns true after asking the host,
    the host gave a payload that decodes, and the file at the destination
    path holds exactly the decoded bytes; when it returns true without
    asking, the world is as the directory creation left it. *)
Theorem fetch_writes_only_the_new_file (L : pylib)
    (filename sub base : str) (w : world) :
  let target_path := path_join (path_join base sub) filename in
  let out := retrieve_media_from_anki L filename sub base w in
  (forall k n, w_tree w !! k = Some n -> w_tree out.2 !! k = Some n)
  /\ (out.1 = Ok true ->
      (w_calls out.2 = w_calls w
       /\ out.2 = (os_makedirs (path_join base sub) w).2)
      \/ (w_calls out.2 = RetrieveMediaFile filename :: w_calls w
          /\ exists r data,
               w_anki w (w_calls w) (RetrieveMediaFile filename) = Result r
               /\ decode_media L r = Ok data
               /\ read_file (w_tree out.2) (w_cwd out.2) target_path
                  = Some data)).
Proof.
  intros target_path out.
  split; [intros k n; apply retrieve_keeps_nodes|].
  apply retrieve_true.
Qed.


(** Nothing confines the file name of a reference to the media folder:
    when it is an absolute path, the path the fetcher checks and writes is
    that very path.  A file already there counts as cached, and a fetched
    payload is stored there, outside the media directory. *)
Theorem absolute_name_leaves_media_directory (L : pylib)
    (filename sub base : str) (w : world) :
  starts_with slash filename = true ->
  let made := os_makedirs (path_join base sub) w in
  let out := retrieve_media_from_anki L filename sub base w in
  path_join (path_join base sub) filename = filename
  /\ (made.1 = Ok tt ->
      exists_in (w_tree made.2) (w_cwd made.2) filename = true ->
      out = (Ok true, made.2))
  /\ (out.1 = Ok true ->
      w_calls out.2 <> w_calls w ->
      exists r data,
        w_anki w (w_calls w) (RetrieveMediaFile filename) = Result r
        /\ decode_media L r = Ok data
        /\ read_file (w_tree out.2) (w_cwd out.2) filename = Some data).
Proof.
  intros Habs made out.
  assert (E : path_join (path_join base sub) filename = filename)
    by (unfold path_join at 1; now rewrite Habs).
  split; [exact E|]. split.
  - intros Hm Hex.
    pose proof (retrieve_cases L filename sub base w) as C. cbv zeta in C.
    rewrite E in C. fold made out in C.
    destruct made as [r1 w1]. cbn [fst snd] in *. subst r1.
    now rewrite Hex in C.
  - intros Ht Hc.
    destruct (retrieve_true L filename sub base w Ht) as [[H _]|[_ H]];
      [contradiction|].
    rewrite E in H. exact H.
Qed.

(** [absolute_name_leaves_media_directory] with the name "/x.png": the
    payload lands at the root of the disk. *)
Lemma absolute_name_leaves_media_directory_witness :
  let w := fresh sample_host in
  let out := retrieve_media_from_anki sample_lib (py "/x.png") (py "algebra")
               (py "media") w in
  exists r data,
    w_anki w (w_calls w) (RetrieveMediaFile (py "/x.png")) = Result r
    /\ decode_media sample_lib r = Ok data
    /\ read_file (w_tree out.2) (w_cwd out.2) (py "/x.png") = Some data.
Proof.
  intros w out.
  refine (proj2 (proj2 (absolute_name_leaves_media_directory sample_lib
                          (py "/x.png") (py "algebra") (py "media") w _))
            _ _).
  - reflexivity.
  - vm_compute. reflexivity.
  - vm_compute. discriminate.
Defined.

(** ** What the rewriting asks and leaves *)

Lemma process_matches_effects L matches text sub base w :
  let out := process_matches L matches text sub base w in
  (forall k n, w_tree w !! k = Some n -> w_tree out.2 !! k = Some n)
  /\ exists new,
       w_calls out.2 = new ++ w_calls w
       /\ (length new <= length matches)%nat
       /\ forall a, In a new ->
            exists name, In name matches /\ a = RetrieveMediaFile name.
Proof.
  revert text w. induction matches as [|f rest IH]; intros text w.
  - simpl. split; [auto|]. exists []. repeat split; auto. intros a [].
  - cbn [process_matches]. unfold bind.
    pose proof (retrieve_keeps_nodes L f sub base w) as K.
    pose proof (retrieve_calls L f sub base w) as Hc. cbv zeta in Hc.
    destruct (retrieve_media_from_anki L f sub base w) as [r1 w1].
    cbn [snd] in K, Hc.
    assert (Hnew : exists new1,
      w_calls w1 = new1 ++ w_calls w /\ (length new1 <= 1)%nat
      /\ forall a, In a new1 -> a = RetrieveMediaFile f).
    { destruct Hc as [Hc|Hc].
      - exists []. repeat split; auto. intros a [].
      - exists [RetrieveMediaFile f]. repeat split; auto.
        intros a [<-|[]]. reflexivity. }
    destruct Hnew as (new1 & E1 & L1 & A1).
    destruct r1 as [b|e].
    + specialize (IH (rewrite_one sub text f) w1). cbv zeta in IH.
      destruct (process_matches L rest _ sub base w1) as [r2 w2].
      cbn [snd] in *. destruct IH as (K2 & new2 & E2 & L2 & A2).
      split; [intros k n H; apply K2, K, H|].
      exists (new2 ++ new1). rewrite E2, E1, app_assoc.
      split; [reflexivity|]. split; [rewrite length_app; simpl; lia|].
      intros a Ha. apply in_app_iff in Ha as [Ha|Ha].
      * destruct (A2 a Ha) as (name & Hn & ->). exists name. split; [now right | reflexivity].
      * exists f. split; [now left | now apply A1].
    + cbn [snd]. split; [exact K|].
      exists new1. split; [exact E1|]. split; [simpl; lia|].
      intros a Ha. exists f. split; [now left | now apply A1].
Qed.

(** Rewriting a fragment asks the host for nothing but the files whose
    names the scan found in it, at most once per reference found, and
    never removes or alters anything that is on disk. *)
Theorem rewriting_asks_for_found_names_only (L : pylib)
    (source sub base : str) (w : world) :
  let out := process_media_in_text L source sub base w in
  (forall k n, w_tree w !! k = Some n -> w_tree out.2 !! k = Some n)
  /\ exists new,
       w_calls out.2 = new ++ w_calls w
       /\ (length new <= length (find_image_names source))%nat
       /\ forall a, In a new ->
            exists name,
              In name (find_image_names source) /\ a = RetrieveMediaFile name.
Proof. apply process_matches_effects. Qed.

(** ** What an export asks and leaves *)

Lemma media_only_refl w : media_only w w.
Proof. split; [auto|]. now exists []. Qed.

Lemma media_only_trans w1 w2 w3 :
  media_only w1 w2 -> media_only w2 w3 -> media_only w1 w3.
Proof.
  intros (K1 & n1 & E1 & F1) (K2 & n2 & E2 & F2). split; [auto|].
  exists (n2 ++ n1). rewrite E2, E1, app_assoc. split; [reflexivity|].
  rewrite forallb_app. now rewrite F1, F2.
Qed.

Lemma process_matches_media_only L matches text sub base w :
  media_only w (process_matches L matches text sub base w).2.
Proof.
  destruct (process_matches_effects L matches text sub base w)
    as (K & new & E & _ & A).
  split; [exact K|]. exists new. split; [exact E|].
  apply forallb_forall. intros a Ha. now destruct (A a Ha) as (name & _ & ->).
Qed.

Lemma field_column_media_only L sub base o w :
  media_only w (field_column L sub base o w).2.
Proof.
  unfold field_column, bind, lift.
  destruct (getitem o (py "value")) as [v|e]; [|apply media_only_refl].
  destruct v; try apply media_only_refl. apply process_matches_media_only.
Qed.

Lemma columns_media_only L sub base objs w :
  media_only w (mapM (field_column L sub base) objs w).2.
Proof.
  revert w. induction objs as [|o rest IH]; intros w; [apply media_only_refl|].
  cbn [mapM]. unfold bind at 1.
  pose proof (field_column_media_only L sub base o w) as H1.
  destruct (field_column L sub base o w) as [[c|e] w1]; [|exact H1].
  unfold bind at 1. specialize (IH w1).
  destruct (mapM (field_column L sub base) rest w1) as [[cs|e] w2];
    cbn [snd] in *; eapply media_only_trans; eassumption.
Qed.

Lemma note_row_media_only L sub base note w :
  media_only w (note_row L sub base note w).2.
Proof.
  unfold note_row, lift. unfold bind at 1.
  destruct (getitem note (py "fields")) as [fields|e]; [|apply media_only_refl].
  unfold bind at 1.
  destruct (dict_values fields) as [objs|e]; [|apply media_only_refl].
  unfold bind at 1.
  pose proof (columns_media_only L sub base objs w) as H.
  destruct (mapM (field_column L sub base) objs w) as [[cols|e] w1];
    [|exact H].
  unfold bind, ret.
  destruct (getitem note (py "tags")) as [tl|e]; [|exact H].
  destruct (join_json (py " ") tl); exact H.
Qed.

Lemma writerow_media_only row w : media_only w (writerow row w).2.
Proof.
  unfold writerow, write_text.
  destruct (w_csv w) as [h|]; [|apply media_only_refl].
  destruct (utf8_encode (csv_line row)); (split; [auto | now exists []]).
Qed.

Lemma write_notes_media_only L sub base notes count w :
  media_only w (write_notes L sub base notes count w).2.
Proof.
  revert count w. induction notes as [|note rest IH]; intros count w;
    [apply media_only_refl|].
  cbn [write_notes]. unfold bind at 1.
  pose proof (note_row_media_only L sub base note w) as H1.
  destruct (note_row L sub base note w) as [[row|e] w1]; [|exact H1].
  unfold bind at 1. pose proof (writerow_media_only row w1) as H2.
  destruct (writerow row w1) as [[[]|e] w2]; cbn [snd] in *.
  - eapply media_only_trans; [exact H1|].
    eapply media_only_trans; [exact H2 | apply IH].
  - eapply media_only_trans; eassumption.
Qed.

Lemma resolve_written t1 t3 cwd p k data :
  writable_at t1 cwd p = Some k -> dirs_kept t1 t3 ->
  resolve (<[k := File data]> t3) cwd p = Some k.
Proof.
  intros H K. apply writable_at_spec in H as (Hr & Hd & Hk).
  unfold resolve in *. destruct (str_eqb p []); [discriminate|].
  exact (walk_dirs_kept t1 _ _ _ k (dirs_kept_insert _ _ _ _ K Hd) Hr).
Qed.

(** The body of [export_deck] after the lookups: every node but the one
    the CSV path leads to is kept, and the host is asked for media only. *)
Lemma export_notes_effects L deck out media notes w :
  let res := export_notes L deck out media notes w in
  (forall k n,
     w_tree w !! k = Some n ->
     w_tree res.2 !! k = Some n
     \/ resolve (w_tree res.2) (w_cwd res.2) (csv_path_of L deck out) = Some k)
  /\ exists new,
       w_calls res.2 = new ++ w_calls w /\ forallb is_media_call new = true.
Proof.
  pose proof (export_notes_cases L deck out media notes w) as C.
  cbv zeta.
  destruct (os_makedirs _ w) as [r1 w1] eqn:Hm.
  destruct (os_makedirs_tree _ _ _ _ Hm) as (Hw1 & _ & E & _).
  assert (Hc1 : w_calls w1 = w_calls w) by (rewrite Hw1; reflexivity).
  destruct r1 as [[]|e].
  2:{ rewrite C. cbn [snd]. split; [auto|]. now exists []. }
  destruct (writable_at _ _ _) as [k|] eqn:Hwr.
  2:{ rewrite C. cbn [snd]. split; [auto|]. now exists []. }
  assert (Hclosed : forall w3,
    media_only (opened w1 k) w3 -> w_cwd w3 = w_cwd w1 ->
    dirs_kept (w_tree w1) (w_tree w3) ->
    (exists h, w_csv w3 = Some h /\ h_key h = k) ->
    (forall k' n,
       w_tree w !! k' = Some n ->
       w_tree (close_text w3) !! k' = Some n
       \/ resolve (w_tree (close_text w3)) (w_cwd (close_text w3))
            (csv_path_of L deck out) = Some k')
    /\ exists new,
         w_calls (close_text w3) = new ++ w_calls w
         /\ forallb is_media_call new = true).
  { intros w3 (K & new & Ec & Fm) Hcwd Hdk (h & Hh & Hk).
    unfold close_text. rewrite Hh, Hk.
    cbn [set_csv set_tree w_tree w_cwd w_calls]. split.
    - intros k' n Hn. destruct (decide (k = k')) as [<-|Hne].
      + right. rewrite Hcwd. now apply (resolve_written (w_tree w1)).
      + left. rewrite lookup_insert_ne by assumption. apply K.
        cbn [opened set_csv set_tree w_tree].
        rewrite lookup_insert_ne by assumption. now apply E.
    - exists new. cbn [opened set_csv set_tree w_calls] in Ec.
      now rewrite Ec, Hc1. }
  pose proof (writable_at_spec _ _ _ _ Hwr) as (_ & Hnd & _).
  destruct (and_then (result_field notes) iterate) as [nl|e].
  2:{ rewrite C. cbn [snd]. apply Hclosed.
      - apply media_only_refl.
      - reflexivity.
      - cbn [opened set_csv set_tree w_tree]. now apply insert_dirs_kept.
      - eexists. split; reflexivity. }
  pose proof (write_notes_media_only L (media_subfolder_of L deck) media nl 0
                (opened w1 k)) as Hmo.
  destruct (write_notes _ _ _ _ _ _) as [r w3] eqn:Hloop.
  apply (write_notes_spec _ _ _ _ _ _ (Handle k true [])) in Hloop;
    [|reflexivity].
  destruct Hloop as (Hcwd & Hdk & _ & _ & _ & _ & h' & _ & _ & _ & Hh' & Hk
                     & _).
  cbn [snd opened set_csv set_tree w_cwd w_tree h_key] in *.
  assert (Hgoal := Hclosed w3 Hmo Hcwd
            (dirs_kept_trans _ _ _ (insert_dirs_kept _ k _ Hnd) Hdk)
            (ex_intro _ h' (conj Hh' Hk))).
  destruct r; rewrite C; exact Hgoal.
Qed.

(** An export never removes or alters what is on disk, except the one
    file its CSV path leads to: every other file keeps its contents and
    every directory stays, whether the export succeeds, returns zero or
    raises. *)
Theorem export_alters_only_its_csv (L : pylib) (deck out media : str)
    (w : world) :
  let res := export_deck L deck out media w in
  forall k n,
    w_tree w !! k = Some n ->
    w_tree res.2 !! k = Some n
    \/ resolve (w_tree res.2) (w_cwd res.2) (csv_path_of L deck out) = Some k.
Proof.
  cbv zeta.
  pose proof (export_deck_cases L deck out media w) as C. cbv zeta in C.
  destruct (w_anki w (w_calls w) _) as [| |ids];
    [rewrite C; cbn; auto | rewrite C; cbn; auto |].
  intros k n H.
  assert (D : w_tree (looked_up w deck ids) !! k = Some n) by exact H.
  destruct (w_anki w _ (NotesInfo ids)) as [| |notes]; rewrite C;
    [cbn; auto | |];
    exact (proj1 (export_notes_effects L deck out media _
                    (looked_up w deck ids)) k n D).
Qed.

(** The calls of one export: [findNotes] once, then [notesInfo] at most
    once, then requests for media files only. *)
Theorem export_calls (L : pylib) (deck out media : str) (w : world) :
  let res := export_deck L deck out media w in
  exists media_calls lookups,
    w_calls res.2 = media_calls ++ lookups ++ w_calls w
    /\ forallb is_media_call media_calls = true
    /\ (lookups = [FindNotes (deck_query deck)]
        \/ exists note_ids,
             lookups = [NotesInfo note_ids; FindNotes (deck_query deck)]).
Proof.
  cbv zeta.
  pose proof (export_deck_cases L deck out media w) as C. cbv zeta in C.
  destruct (w_anki w (w_calls w) _) as [| |ids].
  1,2: rewrite C; exists [], [FindNotes (deck_query deck)]; cbn; auto.
  assert (D : forall info,
    export_deck L deck out media w
    = export_notes L deck out media info (looked_up w deck ids) ->
    exists media_calls lookups,
      w_calls (export_deck L deck out media w).2
      = media_calls ++ lookups ++ w_calls w
      /\ forallb is_media_call media_calls = true
      /\ (lookups = [FindNotes (deck_query deck)]
          \/ exists note_ids,
               lookups = [NotesInfo note_ids; FindNotes (deck_query deck)])).
  { intros info ->.
    destruct (export_notes_effects L deck out media info
                (looked_up w deck ids)) as (_ & new & E & F).
    exists new, [NotesInfo ids; FindNotes (deck_query deck)].
    split; [exact E|]. eauto. }
  destruct (w_anki w _ (NotesInfo ids)) as [| |notes];
    [|exact (D _ C) | exact (D _ C)].
  rewrite C. exists [], [NotesInfo ids; FindNotes (deck_query deck)].
  cbn. eauto.
Qed.

(** ** Lookups that fail *)

(** When the host fails one of the two lookups of a deck, the export of
    that deck returns zero after one or two calls and leaves the disk as
    it was: no directory is created, no file opened.  The run goes on with
    the next deck, its total unchanged. *)
Theorem failed_lookup_is_isolated (L : pylib) (deck out media : str)
    (w : world) :
  lookup_fails w deck ->
  let res := export_deck L deck out media w in
  res.1 = Ok 0
  /\ w_tree res.2 = w_tree w
  /\ (w_calls res.2 = FindNotes (deck_query deck) :: w_calls w
      \/ exists note_ids,
           w_calls res.2
           = NotesInfo note_ids :: FindNotes (deck_query deck) :: w_calls w)
  /\ (forall others total,
        export_all L (JStr deck :: others) out media total w
        = export_all L others out media total res.2).
Proof.
  unfold lookup_fails. intros H. cbv zeta.
  assert (E : export_deck L deck out media w
              = (Ok 0, (export_deck L deck out media w).2)
              /\ w_tree (export_deck L deck out media w).2 = w_tree w
              /\ (w_calls (export_deck L deck out media w).2
                  = FindNotes (deck_query deck) :: w_calls w
                  \/ exists note_ids,
                       w_calls (export_deck L deck out media w).2
                       = NotesInfo note_ids :: FindNotes (deck_query deck)
                           :: w_calls w)).
  { pose proof (export_deck_cases L deck out media w) as C. cbv zeta in C.
    destruct H as [H|(ids & H & H')]; rewrite H in C; [|rewrite H' in C];
      rewrite C; cbn; eauto. }
  destruct E as (E & Ht & Hc).
  split; [now rewrite E|]. split; [exact Ht|]. split; [exact Hc|].
  intros others total. rewrite export_all_cons, E. now rewrite Z.add_0_r.
Qed.

(** [failed_lookup_is_isolated] with a host that cannot be reached. *)
Lemma failed_lookup_is_isolated_witness :
  let w := fresh offline in
  let res := export_deck sample_lib (py "Math::Algebra") (py "decks")
               (py "media") w in
  res.1 = Ok 0
  /\ w_tree res.2 = w_tree w
  /\ (w_calls res.2 = FindNotes (deck_query (py "Math::Algebra")) :: w_calls w
      \/ exists note_ids,
           w_calls res.2
           = NotesInfo note_ids :: FindNotes (deck_query (py "Math::Algebra"))
               :: w_calls w)
  /\ (forall others total,
        export_all sample_lib (JStr (py "Math::Algebra") :: others)
          (py "decks") (py "media") total w
        = export_all sample_lib others (py "decks") (py "media") total res.2).
Proof.
  apply (failed_lookup_is_isolated sample_lib (py "Math::Algebra")
           (py "decks") (py "media") (fresh offline)).
  left. reflexivity.
Defined.

(** ** The loop over the decks *)

Lemma export_deck_nonneg L deck out media w n w' :
  export_deck L deck out media w = (Ok n, w') -> 0 <= n.
Proof.
  intros H. destruct (Z.eq_dec n 0) as [->|Hn]; [lia|].
  destruct (export_deck_counted _ _ _ _ _ _ _ H Hn) as (ids & notes & Hno).
  pose proof (export_deck_found L deck out media w _ _ Hno) as C.
  rewrite H in C. symmetry in C.
  pose proof (export_notes_cases L deck out media (Result notes)
                (looked_up w deck ids)) as D.
  cbn [result_field and_then] in D.
  destruct (os_makedirs _ _) as [[[]|e] w1]; [|congruence].
  destruct (writable_at _ _ _) as [k|] eqn:Hwr;
    [|rewrite C in D; injection D as -> _; lia].
  destruct (iterate notes) as [nl|e];
    [|rewrite C in D; injection D as -> _; lia].
  destruct (write_notes _ _ _ _ _ _) as [r w3] eqn:Hloop.
  destruct (loop_file _ _ _ _ _ _ _ _ _ Hwr Hloop)
    as (_ & _ & _ & _ & _ & _ & _ & _ & _ & [[-> _]|[[e ->] _]]);
    rewrite C in D; injection D as -> _; lia.
Qed.

(** The loop of the run is sequential: exporting a list of decks is
    exporting a first part, then the rest from the total and the world
    reached; an exception of one export ends the run there, the later
    decks not being looked up.  A deck name that is not a string raises
    before anything is asked.  The total never decreases. *)
Theorem run_is_sequential (L : pylib) (first later : list json)
    (out media : str) (total : Z) (w : world) :
  export_all L (first ++ later) out media total w
  = match export_all L first out media total w with
    | (Ok t, w1) => export_all L later out media t w1
    | (Raise e, w1) => (Raise e, w1)
    end
  /\ (forall t w', export_all L first out media total w = (Ok t, w') ->
                   total <= t)
  /\ (forall deck, (forall name, deck <> JStr name) ->
        export_all L (deck :: later) out media total w
        = (Raise AttributeError, w)).
Proof.
  split; [|split].
  - revert total w. induction first as [|d rest IH]; intros total w;
      [reflexivity|].
    cbn [app export_all]. unfold bind.
    destruct (export_deck_of L d out media w) as [[n|e] w1]; [apply IH|].
    reflexivity.
  - revert total w. induction first as [|d rest IH]; intros total w t w'.
    + cbn. intros [= <- _]. lia.
    + cbn [export_all]. unfold bind.
      destruct (export_deck_of L d out media w) as [[n|e] w1] eqn:Hd;
        [|discriminate].
      intros H. apply IH in H.
      destruct d; try discriminate. cbn [export_deck_of] in Hd.
      apply export_deck_nonneg in Hd. lia.
  - intros deck Hd. cbn [export_all]. unfold bind.
    destruct deck; try reflexivity. now destruct (Hd s).
Qed.

(** ** How a run ends early *)

(** Without a destination argument, or with one that is not an existing
    directory, [main] exits with code 1 and has done nothing: no directory
    is created and the host is not asked. *)
Theorem main_needs_destination (L : pylib) (w : world) :
  (forall argv, (length argv < 2)%nat -> main L argv w = (Ok (Exit 1), w))
  /\ (forall prog target_dir rest,
        isdir_in (w_tree w) (w_cwd w) target_dir = false ->
        main L (prog :: target_dir :: rest) w = (Ok (Exit 1), w)).
Proof.
  split.
  - intros [|a [|b r]] H; try reflexivity. simpl in H. lia.
  - intros prog target_dir rest H.
    unfold main, bind, os_path_isdir. now rewrite H.
Qed.



(** ** The two copies of the export logic *)

(** A response to the first lookup that holds no result: the script
    raises, the desktop application returns zero. *)
Example response_without_result :
  let host := fun (_ : list action) (a : action) =>
                match a with FindNotes _ => NoResult | _ => Failed end in
  (export_deck sample_lib (py "Vocabulary") (py "decks") (py "media")
     (fresh host)).1 = Raise KeyError
  /\ (Gui.export_deck sample_lib (py "Vocabulary") (py "decks") (py "media")
        (fresh host)).1 = Ok 0.
Proof. vm_compute. split; reflexivity. Qed.

(** The export functions of the desktop application behave as those of
    the script: the fetcher, the rewriter and the guarded writing of the
    file give the same result and the same world on every input, and so
    does [export_deck] whenever the first lookup fails, or finds notes and
    the second lookup fails or gives a result.  They differ in three
    cases.  A response without result to the first lookup makes the script
    raise [KeyError], where the desktop copy returns zero.  A first lookup
    that finds nothing makes the desktop copy return zero at once, without
    a second call and without touching the disk, where the script goes
    on.  A response without result to the second lookup makes the desktop
    copy return zero with the disk untouched, where the script goes on to
    the category directory and, when it can open the file, returns zero
    and leaves it empty. *)
Theorem copies_agree (L : pylib) :
  (forall filename sub base w,
     Gui.retrieve_media_from_anki L filename sub base w
     = retrieve_media_from_anki L filename sub base w)
  /\ (forall source sub base w,
        Gui.process_media_in_text L source sub base w
        = process_media_in_text L source sub base w)
  /\ (forall deck out media notes w,
        Gui.export_notes L deck out media notes w
        = export_notes L deck out media (Result notes) w)
  /\ (forall deck out media w,
        let q := FindNotes (deck_query deck) in
        let gui := Gui.export_deck L deck out media w in
        let script := export_deck L deck out media w in
        match w_anki w (w_calls w) q with
        | Failed => gui = script
        | NoResult =>
            gui = (Ok 0, add_call w q)
            /\ script = (Raise KeyError, add_call w q)
        | Result note_ids =>
            if truthy note_ids then
              match w_anki w (q :: w_calls w) (NotesInfo note_ids) with
              | NoResult =>
                  gui = (Ok 0, looked_up w deck note_ids)
                  /\ script
                     = export_notes L deck out media NoResult
                         (looked_up w deck note_ids)
                  /\ (forall w1 k,
                        os_makedirs (category_dir L deck out)
                          (looked_up w deck note_ids) = (Ok tt, w1) ->
                        writable_at (w_tree w1) (w_cwd w1)
                          (csv_path_of L deck out) = Some k ->
                        script.1 = Ok 0
                        /\ read_file (w_tree script.2) (w_cwd script.2)
                             (csv_path_of L deck out) = Some [])
              | _ => gui = script
              end
            else
              gui = (Ok 0, add_call w q)
              /\ w_calls script.2 <> w_calls gui.2
        end).
Proof.
  split; [intros; apply gui_retrieve|].
  split; [intros; apply gui_process_matches|].
  split; [intros; apply gui_export_notes|].
  intros deck out media w q gui script.
  pose proof (gui_export_deck L deck out media w) as G.
  pose proof (export_deck_cases L deck out media w) as C.
  cbv zeta in G, C. fold q gui script in G, C.
  destruct (w_anki w (w_calls w) q) as [| |ids] eqn:Hf;
    [congruence | now split |].
  destruct (truthy ids).
  - destruct (w_anki w (q :: w_calls w) (NotesInfo ids)) as [| |notes];
      [exact G | | exact G].
    split; [exact G|]. split; [exact C|]. intros w1 k Hm Hwr.
    pose proof (export_notes_cases L deck out media NoResult
                  (looked_up w deck ids)) as D.
    cbn [result_field and_then] in D. rewrite Hm, Hwr, <- C in D.
    rewrite D. cbn [fst snd]. split; [reflexivity|].
    unfold close_text, opened.
    cbn [set_csv set_tree w_csv w_tree w_cwd h_key h_data].
    apply (read_file_written (w_tree w1)); [exact Hwr|].
    apply writable_at_spec in Hwr as (_ & Hk & _).
    now apply insert_dirs_kept.
  - split; [exact G|]. rewrite G. cbn [snd add_call w_calls].
    assert (E : exists new,
      w_calls script.2 = new ++ NotesInfo ids :: q :: w_calls w).
    { assert (D : forall info,
        script = export_notes L deck out media info (looked_up w deck ids) ->
        exists new, w_calls script.2 = new ++ NotesInfo ids :: q :: w_calls w).
      { intros info ->.
        destruct (export_notes_effects L deck out media info
                    (looked_up w deck ids)) as (_ & new & E' & _).
        exists new. exact E'. }
      destruct (w_anki w (q :: w_calls w) (NotesInfo ids)) as [| |notes];
        [rewrite C; now exists [] | exact (D _ C) | exact (D _ C)]. }
    destruct E as (new & ->). intros Heq.
    apply (f_equal (@length action)) in Heq.
    rewrite length_app in Heq. cbn [length] in Heq. lia.
Qed.

(** [export_alters_only_its_csv] on a disk that holds a regular file
    "decks/math": the export of the deck "Vocabulary" leaves it there. *)
Lemma export_alters_only_its_csv_witness :
  let w := blocked (host_with flawed_notes) in
  let res := export_deck sample_lib (py "Vocabulary") (py "decks")
               (py "media") w in
  w_tree res.2 !! [py "math"; py "decks"] = Some (File [])
  \/ resolve (w_tree res.2) (w_cwd res.2)
       (csv_path_of sample_lib (py "Vocabulary") (py "decks"))
     = Some [py "math"; py "decks"].
Proof.
  intros w res.
  apply (export_alters_only_its_csv sample_lib (py "Vocabulary") (py "decks")
           (py "media") w [py "math"; py "decks"] (File [])).
  vm_compute. reflexivity.
Defined.

(** ** Exporting a deck again *)

Lemma later_refl w : later w w.
Proof. split; [reflexivity | apply dirs_kept_refl]. Qed.

Lemma later_trans w1 w2 w3 : later w1 w2 -> later w2 w3 -> later w1 w3.
Proof.
  intros [A1 B1] [A2 B2]. split; [congruence|].
  eapply dirs_kept_trans; eassumption.
Qed.

Lemma frame_later w w' : frame w w' -> later w w'.
Proof. intros (A & _ & _ & D). now split. Qed.

Lemma isdir_in_later w v p :
  later w v -> isdir_in (w_tree w) (w_cwd w) p = true ->
  isdir_in (w_tree v) (w_cwd v) p = true.
Proof. intros [A K] H. rewrite A. exact (isdir_in_kept _ _ _ _ K H). Qed.

Lemma retrieve_ok_isdir L filename sub base w b w' :
  retrieve_media_from_anki L filename sub base w = (Ok b, w') ->
  isdir_in (w_tree w') (w_cwd w') (path_join base sub) = true.
Proof.
  intros H.
  pose proof (retrieve_cases L filename sub base w) as C. cbv zeta in C.
  destruct (os_makedirs _ w) as [[[]|e] w1] eqn:Hm;
    [|rewrite C in H; discriminate].
  pose proof (os_makedirs_isdir _ _ _ Hm) as Hd.
  destruct (exists_in _ _ _); [rewrite C in H; now injection H as _ <-|].
  destruct (w_anki _ _ _) as [| |v];
    [rewrite C in H; now injection H as _ <- 
    |rewrite C in H; now injection H as _ <-|].
  destruct (if truthy v then _ else _);
    [|rewrite C in H; now injection H as _ <-].
  destruct (writable_at _ _ _) as [k|] eqn:Hwr;
    rewrite C in H; injection H as _ <-; [|exact Hd].
  cbn [set_tree asked add_call w_tree w_cwd].
  apply writable_at_spec in Hwr as (_ & Hk & _).
  exact (isdir_in_kept _ _ _ _ (insert_dirs_kept _ k _ Hk) Hd).
Qed.

Lemma process_matches_again L matches text sub base w t w' v :
  process_matches L matches text sub base w = (Ok t, w') ->
  later w' v ->
  exists v', process_matches L matches text sub base v = (Ok t, v')
             /\ frame v v'.
Proof.
  intros H Hl.
  destruct matches as [|f rest].
  { cbn in H. injection H as <- _. exists v. split; [reflexivity|].
    apply frame_refl. }
  assert (Hd : isdir_in (w_tree w') (w_cwd w') (path_join base sub) = true).
  { cbn [process_matches] in H. unfold bind in H.
    destruct (retrieve_media_from_anki L f sub base w) as [[b|e] wa] eqn:Hf;
      [|discriminate].
    apply retrieve_ok_isdir in Hf.
    apply process_matches_result in H as (F & _).
    exact (isdir_in_later _ _ _ (frame_later _ _ F) Hf). }
  apply process_matches_result in H as (_ & [Ht|[Ht|[Ht|Ht]]] & _);
    [|discriminate..].
  injection Ht as ->.
  destruct (process_matches L (f :: rest) text sub base v) as [r v'] eqn:Hv.
  apply process_matches_result in Hv as (F & _ & Hr).
  exists v'. split; [|exact F].
  now rewrite (Hr (isdir_in_later _ _ _ Hl Hd)).
Qed.

Lemma field_column_again L sub base o w c w' v :
  field_column L sub base o w = (Ok c, w') ->
  later w' v ->
  exists v', field_column L sub base o v = (Ok c, v') /\ frame v v'.
Proof.
  unfold field_column, bind, lift.
  destruct (getitem o (py "value")) as [x|e]; [|discriminate].
  destruct x; try discriminate.
  apply process_matches_again.
Qed.

Lemma columns_again L sub base objs w cols w' v :
  mapM (field_column L sub base) objs w = (Ok cols, w') ->
  later w' v ->
  exists v', mapM (field_column L sub base) objs v = (Ok cols, v')
             /\ frame v v'.
Proof.
  revert w cols v. induction objs as [|o rest IH]; intros w cols v.
  { cbn. intros [= <- _] _. exists v. split; [reflexivity | apply frame_refl]. }
  cbn [mapM]. unfold bind at 1.
  destruct (field_column L sub base o w) as [[c|e] w1] eqn:H1; [|discriminate].
  unfold bind at 1.
  destruct (mapM (field_column L sub base) rest w1) as [[cs|e] w2] eqn:H2;
    [|discriminate].
  intros [= <- <-] Hl.
  pose proof (columns_result _ _ _ _ _ _ _ H2) as (F2 & _).
  destruct (field_column_again _ _ _ _ _ _ _ v H1
              (later_trans _ _ _ (frame_later _ _ F2) Hl)) as (v1 & E1 & G1).
  destruct (IH _ _ v1 H2 (later_trans _ _ _ Hl (frame_later _ _ G1)))
    as (v2 & E2 & G2).
  exists v2. unfold bind. rewrite E1, E2. split; [reflexivity|].
  eapply frame_trans; eassumption.
Qed.

Lemma note_row_again L sub base note w row w' v :
  note_row L sub base note w = (Ok row, w') ->
  later w' v ->
  exists v', note_row L sub base note v = (Ok row, v') /\ frame v v'.
Proof.
  unfold note_row, lift. unfold bind at 1 4.
  destruct (getitem note (py "fields")) as [fields|e]; [|discriminate].
  unfold bind at 1 4.
  destruct (dict_values fields) as [objs|e]; [|discriminate].
  unfold bind at 1 4.
  destruct (mapM (field_column L sub base) objs w) as [[cols|e] w1] eqn:H1;
    [|discriminate].
  unfold bind at 1 2, ret.
  destruct (getitem note (py "tags")) as [tl|e] eqn:Ht; [|discriminate].
  destruct (join_json (py " ") tl) as [tags|e] eqn:Hj; [|discriminate].
  intros [= <- <-] Hl.
  destruct (columns_again _ _ _ _ _ _ _ v H1 Hl) as (v1 & E1 & G1).
  exists v1. rewrite E1. unfold bind. rewrite Hj. auto.
Qed.

Lemma write_notes_again L sub base notes count w h n w' v hv :
  write_notes L sub base notes count w = (Ok n, w') ->
  w_csv w = Some h ->
  later w' v ->
  w_csv v = Some hv ->
  exists v', write_notes L sub base notes count v = (Ok n, v')
             /\ later v v'.
Proof.
  revert count w h v hv.
  induction notes as [|note rest IH]; intros count w h v hv.
  { cbn. intros [= <- _] _ _ _. exists v. split; [reflexivity | apply later_refl]. }
  cbn [write_notes]. unfold bind at 1.
  destruct (note_row L sub base note w) as [[row|e] w1] eqn:H1; [|discriminate].
  pose proof (note_row_result _ _ _ _ _ _ _ H1) as ((_ & _ & Hcsv1 & _) & _).
  unfold bind at 1. unfold writerow at 1, write_text. rewrite Hcsv1.
  intros H Hh Hl Hhv. rewrite Hh in H.
  destruct (utf8_encode (csv_line row)) as [b|] eqn:Hb; [|discriminate].
  pose proof H as Hs.
  apply (write_notes_spec _ _ _ _ _ _
           (Handle (h_key h) false
              (h_data h ++ (if h_first h then BOM_UTF8 ++ b else b)))) in Hs;
    [|reflexivity].
  destruct Hs as (Hc2 & Hd2 & _).
  cbn [set_csv w_cwd w_tree] in Hc2, Hd2.
  assert (L1 : later w1 v).
  { eapply later_trans; [|exact Hl]. now split. }
  destruct (note_row_again _ _ _ _ _ _ _ v H1 L1) as (v1 & E1 & G1).
  destruct G1 as (Gc & Ga & Gcsv & Gd).
  set (v2 := set_csv v1 (Some (Handle (h_key hv) false
               (h_data hv ++ (if h_first hv then BOM_UTF8 ++ b else b))))).
  assert (L2 : later w' v2).
  { eapply later_trans; [exact Hl|]. split; [exact Gc | exact Gd]. }
  destruct (IH _ _ _ v2 _ H eq_refl L2 eq_refl) as (v3 & E3 & G3).
  exists v3. unfold bind. rewrite E1.
  unfold writerow, write_text. rewrite Gcsv, Hhv, Hb. fold v2.
  split; [exact E3|].
  eapply later_trans; [|exact G3]. split; [exact Gc | exact Gd].
Qed.

Lemma writable_again t1 t2 cwd p k data :
  writable_at t1 cwd p = Some k -> dirs_kept t1 t2 ->
  writable_at (<[k := File data]> t2) cwd p = Some k.
Proof.
  intros H K. pose proof (resolve_written _ _ _ _ _ data H K) as R.
  pose proof (writable_at_spec _ _ _ _ H) as (_ & _ & Hk).
  unfold writable_at in *. rewrite R.
  destruct (resolve t1 cwd p); [|discriminate].
  destruct (_ || _); [discriminate|].
  now rewrite lookup_node_insert_eq.
Qed.

Lemma row_of_rows L sub notes rows rows' :
  Forall2 (fun note row => row_of L sub note = Ok row) notes rows ->
  Forall2 (fun note row => row_of L sub note = Ok row) notes rows' ->
  rows = rows'.
Proof.
  intros F. revert rows'. induction F as [|note row notes rows H _ IH];
    intros rows' F'; inversion F' as [|? row' ? rs' H' F'']; subst;
    [reflexivity|].
  f_equal; [congruence | now apply IH].
Qed.

(** Exporting a deck a second time, right after an export that returned a
    positive count and with the same answers of the host to the two
    lookups, succeeds with the same count and leaves the CSV file with the
    same contents: the file is written anew, not appended to, and the
    directories made by the first export are reused. *)
Theorem export_again_gives_same_file (L : pylib) (deck out media : str)
    (w : world) (n : Z) (w1 : world) :
  export_deck L deck out media w = (Ok n, w1) ->
  0 < n ->
  notes_of w1 deck = notes_of w deck ->
  exists w2 data,
    export_deck L deck out media w1 = (Ok n, w2)
    /\ read_file (w_tree w1) (w_cwd w1) (csv_path_of L deck out) = Some data
    /\ read_file (w_tree w2) (w_cwd w2) (csv_path_of L deck out) = Some data.
Proof.
  intros Hexp Hn Hsame.
  destruct (export_deck_counted _ _ _ _ _ _ _ Hexp) as (ids & notes & Hno);
    [lia|].
  rewrite Hno in Hsame.
  pose proof (export_deck_found L deck out media w _ _ Hno) as C.
  pose proof (export_deck_found L deck out media w1 _ _ Hsame) as C1.
  rewrite Hexp in C. symmetry in C.
  pose proof (export_notes_cases L deck out media (Result notes)
                (looked_up w deck ids)) as D.
  cbn [result_field and_then] in D.
  destruct (os_makedirs _ (looked_up w deck ids)) as [[[]|e] wa] eqn:Hm;
    [|congruence].
  destruct (writable_at _ _ _) as [k|] eqn:Hwr;
    [|rewrite C in D; injection D as -> _; lia].
  destruct (iterate notes) as [nl|e] eqn:Hit;
    [|rewrite C in D; injection D as -> _; lia].
  destruct (write_notes _ _ _ _ _ _) as [r w3] eqn:Hloop.
  destruct r as [n'|e]; [|rewrite C in D; injection D as -> _; lia].
  rewrite C in D. injection D as -> ->.
  (* the first run *)
  destruct (loop_file _ _ _ _ _ _ _ _ _ Hwr Hloop)
    as (done & rest & rows & data & E & F & Hb & _ & Hrd & Hr).
  destruct Hr as [[_ ->]|[[e [=]] _]]. rewrite app_nil_r in E. subst done.
  pose proof Hloop as Hs.
  apply (write_notes_spec _ _ _ _ _ _ (Handle k true [])) in Hs;
    [|reflexivity].
  destruct Hs as (Hc3 & Hd3 & d3 & r3 & rows3 & data3 & h3 & _ & _ & _
                  & Hh3 & Hk3 & _).
  cbn [opened set_csv set_tree w_cwd w_tree h_key] in Hc3, Hd3, Hk3.
  pose proof (writable_at_spec _ _ _ _ Hwr) as (_ & Hnd & _).
  assert (Ka3 : dirs_kept (w_tree wa) (w_tree w3))
    by (eapply dirs_kept_trans; [|exact Hd3]; now apply insert_dirs_kept).
  assert (Hk3' : is_dir_key (w_tree w3) k = false).
  { destruct (write_notes_media_only L (media_subfolder_of L deck) media nl 0
                (opened wa k)) as (Kn & _).
    rewrite Hloop in Kn. cbn [snd opened set_csv set_tree w_tree] in Kn.
    specialize (Kn k (File []) (lookup_insert_eq _ _ _)).
    unfold is_dir_key. destruct k as [|c k]; [|simpl; now rewrite Kn].
    apply writable_at_spec in Hwr as (_ & _ & Hne). congruence. }
  assert (Htree1 : w_tree (close_text w3)
                   = <[k := File (h_data h3)]> (w_tree w3)).
  { unfold close_text. rewrite Hh3, Hk3. reflexivity. }
  assert (Hcwd1 : w_cwd (close_text w3) = w_cwd wa).
  { unfold close_text. rewrite Hh3. cbn. exact Hc3. }
  (* the second run *)
  set (v0 := looked_up (close_text w3) deck ids) in *.
  assert (Hv0t : w_tree v0 = <[k := File (h_data h3)]> (w_tree w3))
    by exact Htree1.
  assert (Hv0c : w_cwd v0 = w_cwd wa) by exact Hcwd1.
  assert (Kav : dirs_kept (w_tree wa) (w_tree v0)).
  { rewrite Hv0t. now apply dirs_kept_insert. }
  assert (Hm2 : os_makedirs (category_dir L deck out) v0 = (Ok tt, v0)).
  { apply os_makedirs_exists. rewrite Hv0c.
    apply (isdir_in_kept _ _ _ _ Kav). exact (os_makedirs_isdir _ _ _ Hm). }
  assert (Hwr2 : writable_at (w_tree v0) (w_cwd v0) (csv_path_of L deck out)
                 = Some k).
  { rewrite Hv0t, Hv0c. now apply (writable_again (w_tree wa)). }
  assert (Lv : later w3 (opened v0 k)).
  { split; [cbn [opened set_csv set_tree w_cwd]; congruence|].
    cbn [opened set_csv set_tree w_tree]. rewrite Hv0t.
    eapply dirs_kept_trans; apply insert_dirs_kept; [exact Hk3'|].
    unfold is_dir_key. rewrite lookup_node_insert_eq; [reflexivity|].
    apply writable_at_spec in Hwr as (_ & _ & Hne). exact Hne. }
  destruct (write_notes_again _ _ _ _ _ _ _ _ _ (opened v0 k)
              (Handle k true []) Hloop eq_refl Lv eq_refl)
    as (v3 & Hloop2 & _).
  destruct (loop_file _ _ _ _ _ _ _ _ _ Hwr2 Hloop2)
    as (done2 & rest2 & rows2 & data2 & E2 & F2 & Hb2 & _ & Hrd2 & Hr2).
  destruct Hr2 as [[_ ->]|[[e [=]] _]]. rewrite app_nil_r in E2. subst done2.
  pose proof (row_of_rows _ _ _ _ _ F F2) as <-.
  assert (data2 = data) as -> by congruence.
  pose proof (export_notes_cases L deck out media (Result notes) v0) as D2.
  cbn [result_field and_then] in D2.
  rewrite Hm2, Hwr2, Hit, Hloop2 in D2.
  exists (close_text v3), data. rewrite C1, D2. auto.
Qed.

(** [export_again_gives_same_file] with the deck of the sample host. *)
Lemma export_again_gives_same_file_witness :
  let w1 := (export_deck sample_lib (py "Math::Algebra") (py "decks")
               (py "media") (fresh sample_host)).2 in
  exists w2 data,
    export_deck sample_lib (py "Math::Algebra") (py "decks") (py "media") w1
    = (Ok 2, w2)
    /\ read_file (w_tree w1) (w_cwd w1)
         (csv_path_of sample_lib (py "Math::Algebra") (py "decks"))
       = Some data
    /\ read_file (w_tree w2) (w_cwd w2)
         (csv_path_of sample_lib (py "Math::Algebra") (py "decks"))
       = Some data.
Proof.
  intros w1.
  refine (export_again_gives_same_file sample_lib (py "Math::Algebra")
            (py "decks") (py "media") (fresh sample_host) 2 w1 _ _ _).
  - vm_compute. reflexivity.
  - lia.
  - vm_compute. reflexivity.
Defined.
